(** * Batch collation of the speech-LLM Lhotse dataset

    A shallow embedding of
    [nemo/collections/multimodal/speech_llm/data/lhotse_dataset.py]:
    the padding primitive [collate_vectors] and the batch builder
    [LhotseAudioQuestionAnswerDataset.__getitem__], with the properties
    the specification states about them.

    Conventions.
    - A Python exception is a value of [pyerror]; code that may raise
      returns a [result].
    - Token ids, lengths and indices are [Z].  A 3-D token tensor
      [batch, time, 1 + channels] is a [list (list (list Z))].
    - 1-D and 2-D tensors given to the padding primitive carry their
      dtype in their constructor ([TLong]/[TFloat]); float32 values are
      an abstract type [F] with the two conversions torch performs on
      them.  [Module Binary32] instantiates [F] with IEEE-754 binary32.
    - Collaborators outside the file (the text processor, the [re]
      calls, the float arithmetic of frame counting) are parameters. *)

From Stdlib Require Import String ZArith List Bool Lia Permutation.
From Stdlib Require Import Floats.SpecFloat.
From Stdlib Require Import DecimalString.
Import ListNotations.
Open Scope Z_scope.

Set Implicit Arguments.

(** ** Exceptions and fallible computations *)

Inductive pyerror : Type :=
| Exception (msg : string)   (* raise Exception(msg) *)
| AssertionError             (* a failed assert *)
| IndexError                 (* index out of range *)
| ValueError                 (* max() of an empty sequence *)
| RuntimeError               (* torch: bad size or shape mismatch *)
| AttributeError             (* missing attribute of a cut *)
| UnboundLocalError.         (* local read before assignment *)

Inductive result (A : Type) : Type :=
| Ok (a : A)
| Raise (e : pyerror).

Arguments Ok {A} a.
Arguments Raise {A} e.

Definition bind {A B} (c : result A) (k : A -> result B) : result B :=
  match c with
  | Ok a => k a
  | Raise e => Raise e
  end.

Notation "x <- c ;; k" := (bind c (fun x => k))
  (at level 61, c at next level, right associativity).
Notation "' p <- c ;; k" := (bind c (fun x => let p := x in k))
  (at level 61, p pattern, c at next level, right associativity).

Definition py_assert (b : bool) : result unit :=
  if b then Ok tt else Raise AssertionError.

(** [for x in xs: ...] over a fallible body. *)
Fixpoint mapM {A B} (f : A -> result B) (xs : list A) : result (list B) :=
  match xs with
  | [] => Ok []
  | x :: r => y <- f x ;; ys <- mapM f r ;; Ok (y :: ys)
  end.

Definition is_ok {A} (r : result A) : bool :=
  match r with Ok _ => true | Raise _ => false end.

(** ** Python and torch primitives on lists *)

(** [max(xs)] of Python: raises on the empty list. *)
Definition py_max (xs : list Z) : result Z :=
  match xs with
  | [] => Raise ValueError
  | x :: r => Ok (fold_left Z.max r x)
  end.

(** [xs[:n]] and [xs[n:]] with Python's meaning of a negative bound. *)
Definition slice_bound (len : nat) (n : Z) : nat :=
  if n <? 0 then Z.to_nat (Z.of_nat len + n) else Z.to_nat n.

Definition take {A} (n : Z) (xs : list A) : list A :=
  firstn (slice_bound (length xs) n) xs.

Definition drop {A} (n : Z) (xs : list A) : list A :=
  skipn (slice_bound (length xs) n) xs.

(** [xs[i:j]]. *)
Definition py_slice {A} (i j : Z) (xs : list A) : list A :=
  let i' := slice_bound (length xs) i in
  let j' := slice_bound (length xs) j in
  firstn (j' - i') (skipn i' xs).

(** [torch.full((n,), v)]: a negative size is an error. *)
Definition full {A} (n : Z) (v : A) : result (list A) :=
  if n <? 0 then Raise RuntimeError else Ok (repeat v (Z.to_nat n)).

(** [xs[i] = v] for an in-place tensor row, negative [i] counting from
    the end. *)
Fixpoint set_nth {A} (i : nat) (v : A) (xs : list A) : list A :=
  match xs, i with
  | [], _ => []
  | _ :: r, O => v :: r
  | x :: r, S j => x :: set_nth j v r
  end.

Definition set_item {A} (xs : list A) (i : Z) (v : A) : result (list A) :=
  let len := Z.of_nat (length xs) in
  if (0 <=? i) && (i <? len) then Ok (set_nth (Z.to_nat i) v xs)
  else if (- len <=? i) && (i <? 0) then Ok (set_nth (Z.to_nat (len + i)) v xs)
  else Raise IndexError.

(** ** The padding primitive *)

Section Collate.

(** float32 values, with torch's casts from and to int64. *)
Variable F : Type.
Variable of_long : Z -> F.
Variable to_long : F -> Z.

Inductive tensor1 : Type :=
| TLong (l : list Z)
| TFloat (l : list F).

Inductive tensor2 : Type :=
| Long2 (rows : list (list Z))
| Float2 (rows : list (list F)).

(** The Python number given as [padding_value]; a Python float is
    represented by the float32 value it has once it enters a float32
    tensor. *)
Inductive pyscalar : Type :=
| PyInt (z : Z)
| PyFloat (f : F).

Inductive dtype : Type := Int64 | Float32.

Definition dtype1 (t : tensor1) : dtype :=
  match t with TLong _ => Int64 | TFloat _ => Float32 end.

Definition dtype2 (t : tensor2) : dtype :=
  match t with Long2 _ => Int64 | Float2 _ => Float32 end.

(** [t.shape[0]]. *)
Definition size1 (t : tensor1) : nat :=
  match t with TLong l => length l | TFloat l => length l end.

(** [t.size(0)] and [t.size(1)] of a 2-D tensor with at least one row. *)
Definition width {A} (rows : list (list A)) : nat :=
  match rows with [] => O | r :: _ => length r end.

Definition size2_0 (t : tensor2) : nat :=
  match t with Long2 rows => length rows | Float2 rows => length rows end.

Definition size2_1 (t : tensor2) : nat :=
  match t with Long2 rows => width rows | Float2 rows => width rows end.

(** Casting copies: what [dst[...] = src] and [.long()] do to values. *)
Definition as_long (t : tensor1) : list Z :=
  match t with TLong l => l | TFloat l => map to_long l end.

Definition as_float (t : tensor1) : list F :=
  match t with TLong l => map of_long l | TFloat l => l end.

Definition scalar_as_float (p : pyscalar) : F :=
  match p with PyInt z => of_long z | PyFloat f => f end.

(** [t.long()] and the long view of the rows. *)
Definition long_rows (t : tensor2) : list (list Z) :=
  match t with Long2 rows => rows | Float2 rows => map (map to_long) rows end.

Definition long (t : tensor2) : tensor2 := Long2 (long_rows t).

(** [max(tensors, key=lambda t: t.shape[0])]: the first longest. *)
Fixpoint longest (best : tensor1) (ts : list tensor1) : tensor1 :=
  match ts with
  | [] => best
  | t :: r => longest (if (size1 best <? size1 t)%nat then t else best) r
  end.

(** A row of [n] pad values with [l] copied over its start. *)
Definition pad_row {A} (n : nat) (p : A) (l : list A) : list A :=
  l ++ repeat p (n - length l).

(** [lhotse.dataset.collation.collate_vectors(items, padding_value)]:
    [longest.new_ones(N, len(longest)) * padding_value], then each
    item copied over the start of its row.  The product has the dtype
    of [longest], promoted to float32 by a float [padding_value]. *)
Definition collate_vectors_lhotse (items : list tensor1) (padding_value : pyscalar)
  : result tensor2 :=
  match items with
  | [] => Raise ValueError
  | t0 :: rest =>
    let lg := longest t0 rest in
    let n := size1 lg in
    match lg, padding_value with
    | TLong _, PyInt p =>
      Ok (Long2 (map (fun t => pad_row n p (as_long t)) items))
    | _, _ =>
      Ok (Float2 (map (fun t => pad_row n (scalar_as_float padding_value) (as_float t)) items))
    end
  end.

(** [torch.cat([vectors, padding_value * torch.ones(N, k, dtype=vectors.dtype)], dim=1)]. *)
Definition extend_columns (vectors : tensor2) (k : nat) (padding_value : pyscalar)
  : tensor2 :=
  match vectors, padding_value with
  | Long2 rows, PyInt p => Long2 (map (fun r => r ++ repeat p k) rows)
  | Long2 rows, PyFloat f => Float2 (map (fun r => map of_long r ++ repeat f k) rows)
  | Float2 rows, _ =>
    Float2 (map (fun r => r ++ repeat (scalar_as_float padding_value) k) rows)
  end.

Definition collate_vectors (items : list tensor1) (max_length : Z)
           (padding_value : pyscalar) : result tensor2 :=
  vectors <- collate_vectors_lhotse items padding_value ;;
  let vectors :=
    if Z.of_nat (size2_1 vectors) <? max_length
    then extend_columns vectors (Z.to_nat (max_length - Z.of_nat (size2_1 vectors)))
                        padding_value
    else vectors in
  match items with
  | [] => Raise IndexError
  | t0 :: _ =>
    Ok (if (size1 t0 <? 1)%nat then long vectors else vectors)
  end.

(** *** Reading the result *)

(** Row [i] of a 2-D tensor, a 1-D tensor of the same dtype. *)
Definition row (v : tensor2) (i : nat) : option tensor1 :=
match v with
| Long2 rows => option_map TLong (nth_error rows i)
| Float2 rows => option_map TFloat (nth_error rows i)
end.

(** [t.long()] on a 1-D tensor. *)
Definition long1 (t : tensor1) : tensor1 := TLong (as_long t).

(** A sequence and a pad value of one kind: int64 ids with a Python
    int, float32 samples with a Python float. *)
Definition same_kind (t : tensor1) (p : pyscalar) : bool :=
match t, p with
| TLong _, PyInt _ => true
| TFloat _, PyFloat _ => true
| _, _ => false
end.

(** [t] followed by [k] copies of [p]. *)
Definition padded (t : tensor1) (k : nat) (p : pyscalar) : tensor1 :=
match t, p with
| TLong l, PyInt z => TLong (l ++ repeat z k)
| TLong l, PyFloat f => TFloat (map of_long l ++ repeat f k)
| TFloat l, _ => TFloat (l ++ repeat (scalar_as_float p) k)
end.

(** The padding property in the words of the specification: [N] rows
    of length [L], every sequence the prefix of its row and the rest
    of the row the pad value.  Values are compared as float32 numbers,
    so that a change of dtype alone does not count as a change. *)
Definition pads_preserving (items : list tensor1) (L : Z) (p : pyscalar) (v : tensor2) : Prop :=
size2_0 v = length items /\
forall i t, nth_error items i = Some t ->
  exists r, row v i = Some r /\ size1 r = Z.to_nat L /\
    firstn (size1 t) (as_float r) = as_float t /\
    skipn (size1 t) (as_float r) = repeat (scalar_as_float p) (Z.to_nat L - size1 t).

End Collate.

(** ** The dataset and its collaborators *)

(** What [TextProcessing._process_example(context, output)] returns. *)
Record processed : Type := {
  input_ids : list Z;
  context_ids : list Z;
  answer_ids : list Z
}.

Record TextProcessing : Type := {
  process_example : string -> string -> processed;   (* context, output *)
  pad_id : Z;
  unk_id : Z;
  bos_id : Z;
  eos_id : Z
}.

Record Supervision : Type := {
  speaker : string;
  text : string
}.

(** The four example-level flags, read with [getattr(cut, flag, False)]. *)
Inductive mode : Type := S2S | S2S_align | Direct_S2S | S2T.

(** The constructor arguments [__getitem__] reads.  The float argument
    [codec_model_downsampling_factor] enters through [discretize_time]
    and [codec_frames] below. *)
Record Dataset : Type := {
  text_processor : TextProcessing;
  tokens_to_generate : Z;
  pad_to_max_length : bool;
  max_seq_length : Z;
  vocab_sizes : list Z;
  decoder_reduction_factor : Z;
  speech_pad_id : Z;
  speech_unk_id : Z;
  speech_bos_id : Z;
  speech_eos_id : Z;
  sample_rate : Z;
  t5_style : bool;
  load_answer_audio : bool
}.

Definition n_speech_codebooks (self : Dataset) : Z :=
  Z.of_nat (length (vocab_sizes self)) - 1.

(** Number of speech columns of a token row. *)
Definition channels (self : Dataset) : Z :=
  n_speech_codebooks self * decoder_reduction_factor self.

Definition text_pad_id (self : Dataset) : Z := pad_id (text_processor self).
Definition text_unk_id (self : Dataset) : Z := unk_id (text_processor self).
Definition text_bos_id (self : Dataset) : Z := bos_id (text_processor self).
Definition text_eos_id (self : Dataset) : Z := eos_id (text_processor self).

(** *** Rows and 3-D tensors *)

(** A time step of padding: the pad id of every column. *)
Definition pad_step (self : Dataset) : list Z :=
text_pad_id self :: repeat (speech_pad_id self) (Z.to_nat (channels self)).

Definition zip_with {A B C} (f : A -> B -> C) : list A -> list B -> list C :=
  fix go xs ys :=
    match xs, ys with
    | x :: xs', y :: ys' => f x y :: go xs' ys'
    | _, _ => []
    end.

(** [row[0] = v] and [row[1:] = v] on one token row. *)
Definition set_text (v : Z) (row : list Z) : list Z :=
  match row with [] => [] | _ :: r => v :: r end.

Definition set_speech (v : Z) (row : list Z) : list Z :=
  match row with [] => [] | t :: r => t :: map (fun _ => v) r end.

(** [x[:n] = f(x[:n])]: an update of the first [n] time steps. *)
Definition on_prefix {A} (n : Z) (f : A -> A) (ex : list A) : list A :=
  map f (take n ex) ++ drop n ex.

(** [ex[:n, 0] = vals], with torch's shape rule for the right-hand
    side (same length, or a single value that is broadcast). *)
Definition assign_text_prefix (n : Z) (vals : list Z) (ex : list (list Z))
  : result (list (list Z)) :=
  let k := length (take n ex) in
  if (length vals =? k)%nat then Ok (zip_with set_text vals (take n ex) ++ drop n ex)
  else match vals with
       | [v] => Ok (on_prefix n (set_text v) ex)
       | _ => Raise RuntimeError
       end.

(** [torch.cat([x, y], 2)]: the other two sizes must agree. *)
Definition cat_dim2 {A} (x y : list (list (list A))) : result (list (list (list A))) :=
  if (length x =? length y)%nat && (width x =? width y)%nat
  then Ok (zip_with (zip_with (@app A)) x y)
  else Raise RuntimeError.

(** [x[:, :-1, :]] and [x[:, 1:, :]]. *)
Definition drop_last_step {A} (x : list (list A)) : list (list A) := map (@removelast A) x.
Definition drop_first_step {A} (x : list (list A)) : list (list A) := map (@tl A) x.

(** [mask[:, :itl, :] = False]. *)
Definition mask_prefix (itl : Z) (mask : list (list (list bool))) : list (list (list bool)) :=
  map (on_prefix itl (map (fun _ => false))) mask.

(** [for itl in instruction_lengths: mask[:, :itl, :] = False]. *)
Definition mask_instructions (instruction_lengths : list Z)
           (mask : list (list (list bool))) : list (list (list bool)) :=
  fold_left (fun m itl => mask_prefix itl m) instruction_lengths mask.

(** Time step [t] lies in the prefix some instruction length masks. *)
Definition masked (instruction_lengths : list Z) (t : nat) : bool :=
existsb (fun itl => Z.of_nat t <? itl) instruction_lengths.

(** A mask row, switched off as a whole or left as it is. *)
Definition mask_row (off : bool) (r : list bool) : list bool :=
if off then map (fun _ => false) r else r.

(** [tokens[:, :, 1:] != speech_pad_id] and [tokens[:, :, 0:1] != text_pad_id]. *)
Definition speech_ne (pad : Z) (tokens : list (list (list Z))) : list (list (list bool)) :=
  map (map (fun row => map (fun v => negb (v =? pad)) (tl row))) tokens.

Definition text_ne (pad : Z) (tokens : list (list (list Z))) : list (list (list bool)) :=
  map (map (fun row => map (fun v => negb (v =? pad)) (firstn 1 row))) tokens.

(** [torch.as_tensor(ids)] of a list of Python ints: the empty list
    gives an empty float32 tensor. *)
Definition as_tensor {F} (ids : list Z) : tensor1 F :=
  match ids with [] => TFloat [] | _ => TLong F ids end.

Definition nth_or_raise {A} (xs : list A) (i : nat) : result A :=
  match nth_error xs i with Some x => Ok x | None => Raise IndexError end.

(** The [cut] left bound by the last completed [for ... cut in cuts]. *)
Definition last_cut {A} (cuts : list A) : result A :=
  match rev cuts with c :: _ => Ok c | [] => Raise UnboundLocalError end.

Fixpoint every_other {A} (xs : list A) : list A :=
  match xs with
  | [] => []
  | x :: r => x :: match r with [] => [] | _ :: r' => every_other r' end
  end.

(** ** [LhotseAudioQuestionAnswerDataset.__getitem__] *)

Section GetItem.

Variable F : Type.
Variable of_long : Z -> F.
Variable to_long : F -> Z.
(** The float32 constants [0.0] and [1.0]. *)
Variable fzero fone : F.

(** A cut, as far as [__getitem__] reads it: [audio] is the mono
    waveform [cut.resample(sample_rate).load_audio()] after
    [squeeze(0)], [target_audio] the one of
    [cut.target_audio.load_audio()] when the attribute exists. *)
Record Cut : Type := {
  cut_id : string;
  supervisions : list Supervision;
  audio : list F;
  target_audio : option (list F);
  s2s : bool;
  s2s_align : bool;
  direct_s2s : bool;
  s2t : bool
}.

(** [CutSet.sort_by_duration] of lhotse. *)
Variable sort_by_duration : list Cut -> list Cut.
(** [[int(x) for x in re.findall(r"<\|(\d+)\|>", s)]]. *)
Variable re_findall_time : string -> list Z.
(** [re.sub(pattern, empty, s)] for the same pattern and the empty string. *)
Variable re_sub_time : string -> string.
(** [re.sub(r'\s+', ' ', s).strip()]. *)
Variable collapse_spaces : string -> string.
(** [s.split()]. *)
Variable split : string -> list string.
(** [ceil_to_nearest(n, m)] of [parts/utils/data_utils.py]. *)
Variable ceil_to_nearest : Z -> Z -> Z.
(** [discretize_time(start_token, frame_rate)], that is
    [int(start_token * 0.08 / frame_rate)] in float arithmetic, for
    [frame_rate = codec_model_downsampling_factor / sample_rate]. *)
Variable discretize_time : Z -> Z.
(** [math.ceil(answer_audio_len / codec_model_downsampling_factor)]. *)
Variable codec_frames : Z -> Z.

Variable self : Dataset.

Local Abbreviation tensor1 := (tensor1 F).
Local Abbreviation tensor2 := (tensor2 F).
Local Abbreviation tensor3 := (list (list (list Z))).

(** *** The nested helpers *)

Definition extract_text_and_time_tokens (input_sequence : string)
  : list Z * list Z * list Z :=
  let time_tokens := re_findall_time input_sequence in
  let start_time_token := every_other time_tokens in
  let words := split (re_sub_time input_sequence) in
  let tokenize idx word :=
    let tokenized_word := process_example (text_processor self) EmptyString word in
    let token_ids := removelast (answer_ids tokenized_word) in
    if (idx =? 0)%nat then token_ids else tl token_ids in
  let per_word := zip_with tokenize (seq 0 (length words)) words in
  (concat per_word, start_time_token, map (fun t => Z.of_nat (length t)) per_word).

(** [for t_idx in range(start, end): if t_idx - start < len(ids):
    row[t_idx] = ids[t_idx - start]]. *)
Definition write_tokens (row : list Z) (start_time_index end_time_index : Z)
           (word_token_ids : list Z) : result (list Z) :=
  fold_left
    (fun acc j =>
       row <- acc ;;
       if (j <? length word_token_ids)%nat
       then set_item row (start_time_index + Z.of_nat j) (nth j word_token_ids 0)
       else Ok row)
    (seq 0 (Z.to_nat (end_time_index - start_time_index)))
    (Ok row).

(** The loop over the words of one example; [int(a / b)] is the
    quotient truncated towards zero. *)
Fixpoint expand_words (row : list Z) (word_tokens : list Z) (start_time_token : list Z)
         (max_length : Z) (word_start_idx : Z) (word_idx : nat) (word_lengths : list Z)
  : result (list Z) :=
  match word_lengths with
  | [] => Ok row
  | word_length :: rest =>
    start_token <- nth_or_raise start_time_token word_idx ;;
    let start_time_index := discretize_time start_token in
    let start_time_index := Z.quot start_time_index (decoder_reduction_factor self) in
    let end_time_index := start_time_index + word_length in
    let end_time_index := Z.min end_time_index max_length in
    let word_token_ids :=
      py_slice word_start_idx (word_start_idx + word_length) word_tokens in
    row <- write_tokens row start_time_index end_time_index word_token_ids ;;
    expand_words row word_tokens start_time_token max_length
                 (word_start_idx + word_length) (S word_idx) rest
  end.

(** [row[n:] = v]. *)
Definition fill_from (n : Z) (v : Z) (row : list Z) : list Z :=
  take n row ++ map (fun _ => v) (drop n row).

(** One iteration of [for batch_idx in range(batch_size)]. *)
Definition expand_row (word_tokens : list tensor1) (word_lengths start_time_tokens : list (list Z))
           (features_lens : list Z) (max_length : Z) (pad : Z) (batch_idx : nat)
  : result (list Z) :=
  row <- full max_length pad ;;
  fl <- nth_or_raise features_lens batch_idx ;;
  let batch_max_length := fl - 1 in
  wl <- nth_or_raise word_lengths batch_idx ;;
  let stt := nth batch_idx start_time_tokens [] in
  wt <- nth_or_raise word_tokens batch_idx ;;
  row <- expand_words row (as_long to_long wt) stt max_length 0 0 wl ;;
  Ok (fill_from batch_max_length (text_pad_id self) row).

Definition _expand_text_with_timestamps_and_word_lengths
           (word_tokens : list tensor1) (word_lengths start_time_tokens : list (list Z))
           (features_lens : list Z) (pad : Z) : result (list (list Z)) :=
  let batch_size := length word_tokens in
  max_length <- py_max features_lens ;;
  mapM (expand_row word_tokens word_lengths start_time_tokens features_lens max_length pad)
       (seq 0 batch_size).

Definition get_3d_empty_tensor (batch_size : nat) (length : Z) (text_fill_id speech_fill_id : Z)
  : result tensor3 :=
  speech <- full (channels self) speech_fill_id ;;
  steps <- full length (text_fill_id :: speech) ;;
  Ok (repeat steps batch_size).

(** [collate_and_pad] on 1-D inputs ([len(inputs[0].shape) < 2]). *)
Definition collate_and_pad_1d (inputs : list tensor1) : result (tensor2 * list Z) :=
  let token_lengths := map (fun s => Z.of_nat (size1 s)) inputs in
  max_length <- py_max token_lengths ;;
  let max_length :=
    if pad_to_max_length self then max_seq_length self
    else Z.min (max_seq_length self) (ceil_to_nearest max_length 8) in
  tokens <- collate_vectors of_long to_long inputs max_length (PyInt F (text_pad_id self)) ;;
  Ok (tokens, token_lengths).

(** [collate_and_pad] on 2-D inputs: [tokens[i, :len_i, :] = inputs[i]]. *)
Definition collate_and_pad_2d (inputs : tensor3) : result (tensor3 * list Z) :=
  let token_lengths := map (fun s => Z.of_nat (length s)) inputs in
  max_length <- py_max token_lengths ;;
  tokens <- get_3d_empty_tensor (length inputs) max_length (text_pad_id self) (speech_pad_id self) ;;
  Ok (zip_with (fun dst src => src ++ skipn (length src) dst) tokens inputs, token_lengths).

(** The body of [for i, text_length in enumerate(text_lengths)]. *)
Definition fill_text (ex : list (list Z)) (txt : list Z) (text_length : Z)
  : result (list (list Z)) :=
  ex <- assign_text_prefix text_length (take text_length txt) ex ;;
  let ex := on_prefix text_length (set_speech (speech_unk_id self)) ex in
  let eos_tensor := text_eos_id self :: repeat (speech_bos_id self) (Z.to_nat (channels self)) in
  if (0 <=? text_length) && (text_length <? Z.of_nat (length ex))
  then Ok (set_nth (Z.to_nat text_length) eos_tensor ex)
  else Raise IndexError.

Fixpoint fill_texts (exs : tensor3) (txts : list (list Z)) (text_lengths : list Z)
  : result tensor3 :=
  match exs, txts, text_lengths with
  | ex :: exs', txt :: txts', text_length :: text_lengths' =>
    ex <- fill_text ex txt text_length ;;
    r <- fill_texts exs' txts' text_lengths' ;;
    Ok (ex :: r)
  | _, _, _ => Ok []
  end.

Definition _convert_text_to_3d_tensor (texts : list tensor1) (include_eos : bool)
           (tokens_to_generate : Z) : result (tensor2 * list Z * tensor3) :=
  '(texts, text_lengths) <- collate_and_pad_1d texts ;;
  texts_expanded <- get_3d_empty_tensor (size2_0 texts)
                      (Z.of_nat (size2_1 texts) + 1 + tokens_to_generate)
                      (text_pad_id self) (speech_pad_id self) ;;
  texts_expanded <- fill_texts texts_expanded (long_rows to_long texts) text_lengths ;;
  let texts_expanded :=
    if include_eos then texts_expanded else drop_last_step texts_expanded in
  Ok (texts, text_lengths, texts_expanded).

(** *** Lines 207-247: tokenization of the two turns of every cut *)

Record example : Type := {
  ex_instruction : tensor1;
  ex_instruction_length : Z;
  ex_target_text : tensor1;
  ex_target_text_length : Z;
  ex_use_timestamp : bool;
  ex_word_length : list Z;
  ex_start_time_token : list Z
}.

Definition tokenize_cut (cut : Cut) : result example :=
  sup0 <- nth_or_raise (supervisions cut) 0 ;;
  instruction <-
    (if (speaker sup0 =? "user")%string
     then Ok (process_example (text_processor self) (text sup0) EmptyString)
     else Raise (Exception "First speaker should be user")) ;;
  let instruction_ids := removelast (input_ids instruction) in
  let instruction_length := Z.of_nat (length (input_ids instruction)) - 1 in
  sup1 <- nth_or_raise (supervisions cut) 1 ;;
  if (speaker sup1 =? "agent")%string then
    let use_timestamp := s2s_align cut in
    if negb use_timestamp then
      let output_text := collapse_spaces (re_sub_time (text sup1)) in
      let target_text := process_example (text_processor self) EmptyString output_text in
      Ok {| ex_instruction := as_tensor instruction_ids;
            ex_instruction_length := instruction_length;
            ex_target_text := as_tensor (removelast (answer_ids target_text));
            ex_target_text_length := Z.of_nat (length (answer_ids target_text)) - 1;
            ex_use_timestamp := use_timestamp;
            ex_word_length := [];
            ex_start_time_token := [] |}
    else
      let '(target_text, start_time_token, word_length) :=
        extract_text_and_time_tokens (text sup1) in
      Ok {| ex_instruction := as_tensor instruction_ids;
            ex_instruction_length := instruction_length;
            ex_target_text := as_tensor target_text;
            ex_target_text_length := Z.of_nat (length target_text);
            ex_use_timestamp := use_timestamp;
            ex_word_length := word_length;
            ex_start_time_token := start_time_token |}
  else Raise (Exception "Second speaker should be agent").

Definition tokenize_cuts (cuts : list Cut) : result (list example) :=
  mapM tokenize_cut cuts.

(** [word_lengths] and [start_time_tokens] grow only for the cuts
    with [use_timestamp]. *)
Definition timestamped (exs : list example) : list example :=
  filter ex_use_timestamp exs.

(** *** Lines 250-259: the source audio *)

Definition load_source_audio (cuts : list Cut) : result (tensor2 * list Z) :=
  let audio_ := map audio cuts in
  let audio_lens := map (fun a => Z.of_nat (length a)) audio_ in
  max_len <- py_max audio_lens ;;
  audio_ <- collate_vectors of_long to_long (map (@TFloat F) audio_) max_len (PyFloat fzero) ;;
  Ok (audio_, audio_lens).

(** *** Lines 306-363: answer audio and the placeholder [target_codec] *)

Definition float_rows (t : tensor2) : list (list F) :=
  match t with Float2 rows => rows | Long2 _ rows => map (map of_long) rows end.

(** The body of [for i, cut in enumerate(cuts)] at lines 358-362. *)
Definition fill_codec (ex : list (list Z)) (features_len : Z) : result (list (list Z)) :=
  let eos_tensor := text_unk_id self :: repeat (speech_eos_id self) (Z.to_nat (channels self)) in
  let ex := on_prefix features_len (set_text (text_unk_id self)) ex in
  feat_row <- full (channels self) (speech_pad_id self - 1) ;;
  feat_i <- full features_len feat_row ;;
  let ex := on_prefix (Z.of_nat (length feat_i)) (set_speech (speech_pad_id self - 1)) ex in
  set_item ex (Z.of_nat (length feat_i)) eos_tensor.

Fixpoint fill_codecs (exs : tensor3) (features_lens : list Z) : result tensor3 :=
  match exs, features_lens with
  | ex :: exs', fl :: fls' =>
    ex <- fill_codec ex fl ;;
    r <- fill_codecs exs' fls' ;;
    Ok (ex :: r)
  | _, _ => Ok []
  end.

Record codec_stage : Type := {
  cs_target_codec : tensor3;
  cs_features_lens : list Z;
  cs_answer_audios : list (list F);
  cs_answer_audio_lens : list Z
}.

(** The branch [if not self.load_answer_audio] follows
    [assert self.load_answer_audio] and is never entered. *)
Definition build_target_codec (cuts : list Cut) : result codec_stage :=
  _ <- py_assert (load_answer_audio self) ;;
  cut <- last_cut cuts ;;
  _ <- py_assert (negb (direct_s2s cut)) ;;
  _ <- py_assert (decoder_reduction_factor self =? 1) ;;
  answer_audios <-
    mapM (fun cut => match target_audio cut with
                     | Some a => Ok a
                     | None => Raise AttributeError
                     end) cuts ;;
  let answer_audio_lens := map (fun a => Z.of_nat (length a)) answer_audios in
  let features_lens := map codec_frames answer_audio_lens in
  max_len <- py_max answer_audio_lens ;;
  collated <- collate_vectors of_long to_long (map (@TFloat F) answer_audios) max_len
                              (PyFloat fzero) ;;
  max_feat <- py_max features_lens ;;
  target_codec <- get_3d_empty_tensor (length cuts) (max_feat + 1)
                    (text_pad_id self) (speech_pad_id self) ;;
  target_codec <- fill_codecs target_codec features_lens ;;
  Ok {| cs_target_codec := target_codec;
        cs_features_lens := features_lens;
        cs_answer_audios := float_rows collated;
        cs_answer_audio_lens := answer_audio_lens |}.

(** *** Lines 383-494: the four assembly branches *)

Definition select_mode (cut : Cut) : option mode :=
  if s2s cut then Some S2S
  else if s2s_align cut then Some S2S_align
  else if direct_s2s cut then Some Direct_S2S
  else if s2t cut then Some S2T
  else None.

(** [if not self.t5_style: token_list = [concat([it[:itl], tt]) ...]]. *)
Definition prepend_instructions (token_list instructions_expanded_no_eos : tensor3)
           (instruction_lengths : list Z) : tensor3 :=
  if negb (t5_style self) then
    zip_with (fun '(tt_, it) itl => take itl it ++ tt_)
             (combine token_list instructions_expanded_no_eos) instruction_lengths
  else token_list.

Definition mask_context (instruction_lengths : list Z) (mask : list (list (list bool)))
  : list (list (list bool)) :=
  if negb (t5_style self) then mask_instructions instruction_lengths mask else mask.

(** [target_texts_expanded] is 3-D, except in [s2s_align] where it is
    rebound to the 2-D frame-aligned text. *)
Inductive expanded_texts : Type :=
| Expanded3 (t : tensor3)
| Expanded2 (t : list (list Z)).

Record assembled : Type := {
  as_tokens : tensor3;
  as_loss_mask : list (list (list bool));
  as_full_lengths : list Z;
  as_target_text_lengths : list Z;
  as_target_texts_expanded : expanded_texts
}.

Section Assemble.

Variable exs : list example.
Variable target_codec : tensor3.
Variable features_lens : list Z.
Variable target_text_lengths : list Z.
Variable target_texts_expanded : tensor3.
Variable instruction_lengths : list Z.
Variable instructions_expanded_no_eos : tensor3.
(** The [instruction_length] left bound by the first loop. *)
Variable instruction_length : Z.

Definition assemble_s2s : result assembled :=
  let token_list :=
    zip_with (fun '(tt_, ttl) '(tc, tcl) => take (ttl + 1) tt_ ++ take (tcl + 1) tc)
             (combine target_texts_expanded target_text_lengths)
             (combine target_codec features_lens) in
  let token_list :=
    prepend_instructions token_list instructions_expanded_no_eos instruction_lengths in
  '(tokens, _) <- collate_and_pad_2d token_list ;;
  let speech_loss_mask := mask_context instruction_lengths (speech_ne (speech_pad_id self) tokens) in
  let text_loss_mask := mask_context instruction_lengths (text_ne (text_pad_id self) tokens) in
  loss_mask <- cat_dim2 text_loss_mask speech_loss_mask ;;
  Ok {| as_tokens := tokens;
        as_loss_mask := loss_mask;
        as_full_lengths :=
          zip_with Z.add
            (map (fun x => x + 1)
                 (zip_with Z.add (map (fun x => x + 1) target_text_lengths) features_lens))
            instruction_lengths;
        as_target_text_lengths := target_text_lengths;
        as_target_texts_expanded := Expanded3 target_texts_expanded |}.

Definition assemble_s2s_align : result assembled :=
  let bos_row := text_bos_id self :: repeat (speech_bos_id self) (Z.to_nat (channels self)) in
  texts <- _expand_text_with_timestamps_and_word_lengths
             (map ex_target_text exs)
             (map ex_word_length (timestamped exs))
             (map ex_start_time_token (timestamped exs))
             (map (fun x => x + 1) features_lens)
             (text_unk_id self) ;;
  let target_codec := zip_with (zip_with set_text) texts target_codec in
  let token_list := map (cons bos_row) target_codec in
  let features_lens := map (fun x => x + 1) features_lens in
  let token_list :=
    prepend_instructions token_list instructions_expanded_no_eos instruction_lengths in
  '(tokens, _) <- collate_and_pad_2d token_list ;;
  let speech_loss_mask := speech_ne (speech_pad_id self) tokens in
  let loss_mask := map (map (fun s => firstn 1 s ++ s)) speech_loss_mask in
  let loss_mask := mask_context instruction_lengths loss_mask in
  Ok {| as_tokens := tokens;
        as_loss_mask := loss_mask;
        as_full_lengths :=
          zip_with Z.add (map (fun x => x + 1) features_lens) instruction_lengths;
        as_target_text_lengths := map (fun _ => -1) target_text_lengths;
        as_target_texts_expanded := Expanded2 texts |}.

Definition assemble_direct_s2s : result assembled :=
  let token_list :=
    zip_with (fun tt_ '(tc, tcl) => take 1 tt_ ++ take (tcl + 1) tc)
             target_texts_expanded (combine target_codec features_lens) in
  let token_list :=
    prepend_instructions token_list instructions_expanded_no_eos instruction_lengths in
  '(tokens, _) <- collate_and_pad_2d token_list ;;
  let speech_loss_mask := mask_context instruction_lengths (speech_ne (speech_pad_id self) tokens) in
  let text_loss_mask := mask_context instruction_lengths (text_ne (text_pad_id self) tokens) in
  loss_mask <- cat_dim2 text_loss_mask speech_loss_mask ;;
  Ok {| as_tokens := tokens;
        as_loss_mask := loss_mask;
        as_full_lengths := map (fun x => 1 + x + 1 + instruction_length) features_lens;
        as_target_text_lengths := target_text_lengths;
        as_target_texts_expanded := Expanded3 target_texts_expanded |}.

(** [speech_loss_mask] is [torch.zeros(B, T - 1, 1 + channels)];
    a zero is written [false]. *)
Definition assemble_s2t : result assembled :=
  let token_list :=
    zip_with (fun tt_ ttl => take (ttl + 1) tt_) target_texts_expanded target_text_lengths in
  let token_list :=
    prepend_instructions token_list instructions_expanded_no_eos instruction_lengths in
  '(tokens, _) <- collate_and_pad_2d token_list ;;
  zeros <- full (Z.of_nat (width tokens) - 1) (repeat false (width (hd [] tokens))) ;;
  let speech_loss_mask := mask_context instruction_lengths (repeat zeros (length tokens)) in
  let text_loss_mask := mask_context instruction_lengths (text_ne (text_pad_id self) tokens) in
  loss_mask <- cat_dim2 text_loss_mask speech_loss_mask ;;
  Ok {| as_tokens := tokens;
        as_loss_mask := loss_mask;
        as_full_lengths := map (fun x => x + 1 + instruction_length) target_text_lengths;
        as_target_text_lengths := target_text_lengths;
        as_target_texts_expanded := Expanded3 target_texts_expanded |}.

(** The [if / elif] chain on the flags of the last cut; with no
    flag set, [full_lengths] is read unbound at line 495. *)
Definition assemble (cut : Cut) : result assembled :=
  match select_mode cut with
  | Some S2S => assemble_s2s
  | Some S2S_align => assemble_s2s_align
  | Some Direct_S2S => assemble_direct_s2s
  | Some S2T => assemble_s2t
  | None => Raise UnboundLocalError
  end.

End Assemble.

(** *** The returned batch *)

Record batch : Type := {
  sample_ids : list string;
  audio_signal : tensor2;
  audio_signal_length : list Z;
  audio_ratio : list F;
  metadata : list string;
  instructions : tensor2;
  target_texts_expanded : expanded_texts;
  contexts : tensor3;
  context_lengths : list Z;
  tokens : tensor3;
  tokens_length : list Z;
  labels : tensor3;
  loss_mask : list (list (list bool));
  target_texts : tensor2;
  target_text_lengths : list Z;
  answers : tensor3;
  answer_audio : list (list F);
  answer_audio_lens : list Z
}.

(** Everything up to the final trim: the assembled sequence with its
    unshifted mask, and the other fields as they will be returned. *)
Record pre_batch : Type := {
  pb_cuts : list Cut;
  pb_audio : tensor2;
  pb_audio_lens : list Z;
  pb_codec : codec_stage;
  pb_instructions : tensor2;
  pb_instruction_lengths : list Z;
  pb_instructions_expanded_no_eos : tensor3;
  pb_target_texts : tensor2;
  pb_assembled : assembled
}.

Definition prepare (cuts : list Cut) : result pre_batch :=
  let cuts := sort_by_duration cuts in
  exs <- tokenize_cuts cuts ;;
  '(audio_, audio_lens) <- load_source_audio cuts ;;
  cs <- build_target_codec cuts ;;
  '(target_texts_, target_text_lengths_, target_texts_expanded_) <-
    _convert_text_to_3d_tensor (map ex_target_text exs) true 0 ;;
  '(instructions_, instruction_lengths, instructions_expanded_no_eos) <-
    _convert_text_to_3d_tensor (map ex_instruction exs) false (tokens_to_generate self) ;;
  cut <- last_cut cuts ;;
  ex <- last_cut exs ;;
  asm <- assemble exs (cs_target_codec cs) (cs_features_lens cs) target_text_lengths_
                  target_texts_expanded_ instruction_lengths instructions_expanded_no_eos
                  (ex_instruction_length ex) cut ;;
  Ok {| pb_cuts := cuts;
        pb_audio := audio_;
        pb_audio_lens := audio_lens;
        pb_codec := cs;
        pb_instructions := instructions_;
        pb_instruction_lengths := instruction_lengths;
        pb_instructions_expanded_no_eos := instructions_expanded_no_eos;
        pb_target_texts := target_texts_;
        pb_assembled := asm |}.

(** Lines 495-526: clamp, shift of the mask, and the returned dict. *)
Definition return_batch (pb : pre_batch) : batch :=
  let asm := pb_assembled pb in
  let tokens_ := as_tokens asm in
  let full_lengths := map (Z.min (Z.of_nat (width tokens_))) (as_full_lengths asm) in
  let loss_mask_ := drop_first_step (as_loss_mask asm) in
  {| sample_ids := map cut_id (pb_cuts pb);
     audio_signal := pb_audio pb;
     audio_signal_length := pb_audio_lens pb;
     audio_ratio := map (fun _ => fone) (pb_cuts pb);
     metadata := map (fun cut => (cut_id cut ++ ".wav")%string) (pb_cuts pb);
     instructions := pb_instructions pb;
     target_texts_expanded := as_target_texts_expanded asm;
     contexts := pb_instructions_expanded_no_eos pb;
     context_lengths := pb_instruction_lengths pb;
     tokens := drop_last_step tokens_;
     tokens_length := map (fun x => x - 1) full_lengths;
     labels := drop_first_step tokens_;
     loss_mask := loss_mask_;
     target_texts := pb_target_texts pb;
     target_text_lengths := as_target_text_lengths asm;
     answers := drop_first_step tokens_;
     answer_audio := cs_answer_audios (pb_codec pb);
     answer_audio_lens := cs_answer_audio_lens (pb_codec pb) |}.

Definition getitem (cuts : list Cut) : result batch :=
  pb <- prepare cuts ;;
  Ok (return_batch pb).

(** *** Reading a batch *)

(** The mode the [if / elif] chain dispatches on: the flags of the
    last cut in sorted order. *)
Definition dispatched_mode (cuts : list Cut) : option mode :=
match last_cut (sort_by_duration cuts) with
| Ok cut => select_mode cut
| Raise _ => None
end.

Definition first_speaker_is_user (cut : Cut) : bool :=
match supervisions cut with
| s :: _ => (speaker s =? "user")%string
| [] => false
end.

Definition second_speaker_is_agent (cut : Cut) : bool :=
match supervisions cut with
| _ :: s :: _ => (speaker s =? "agent")%string
| _ => false
end.

(** [x[b, t]] and [x[b, t, c]]. *)
Definition step {A} (x : list (list A)) (b t : nat) : option A :=
match nth_error x b with
| Some ex => nth_error ex t
| None => None
end.

Definition entry {A} (x : list (list (list A))) (b t c : nat) : option A :=
match nth_error x b with
| Some ex => match nth_error ex t with
             | Some r => nth_error r c
             | None => None
             end
| None => None
end.

(** Whether the loop over [instruction_lengths] switches step [t] off. *)
Definition context_off (instruction_lengths : list Z) (t : nat) : bool :=
negb (t5_style self) && masked instruction_lengths t.

(** The mask of one time step with token row [r], in the [s2s] branch
    and in the [s2s_align] branch. *)
Definition s2s_mask_row (off : bool) (r : list Z) : list bool :=
mask_row off (map (fun v => negb (v =? text_pad_id self)) (firstn 1 r))
++ mask_row off (map (fun v => negb (v =? speech_pad_id self)) (tl r)).

Definition align_mask_row (off : bool) (r : list Z) : list bool :=
let s := map (fun v => negb (v =? speech_pad_id self)) (tl r) in
mask_row off (firstn 1 s ++ s).

(** The text processor never emits the text pad id among the tokens of
    an answer, that is before the end marker that closes it. *)
Definition pad_free : Prop :=
forall context output,
  ~ In (text_pad_id self)
       (removelast (answer_ids (process_example (text_processor self) context output))).

(** The frame the tokens of a word are written from: its start token
    rescaled by [discretize_time], divided by the reduction factor. *)
Definition frame_index (start_token : Z) : Z :=
Z.quot (discretize_time start_token) (decoder_reduction_factor self).

(** Word [i], of length [wl[i]] and start token [st[i]], covers frame [t]. *)
Definition covers (wl st : list Z) (i : nat) (t : Z) : Prop :=
frame_index (nth i st 0) <= t < frame_index (nth i st 0) + nth i wl 0.

(** Where the tokens of word [i] start among the concatenated tokens. *)
Definition word_offset (wl : list Z) (i : nat) : Z := fold_right Z.add 0 (firstn i wl).

(** The frame-aligned text column [row] of one example, for its word
    tokens [wt], word lengths [wl], start tokens [st], and [fl] frames
    of which the last is the end marker: the end-marker frame and what
    follows hold the text pad id; before it, a frame no word covers
    holds the filler [pad], and token [j] of word [i] is at frame
    [frame_index st[i] + j] unless a later word covers that frame. *)
Definition aligned (wt wl st : list Z) (fl max_length pad : Z) (row : list Z) : Prop :=
Z.of_nat (length row) = max_length /\
(forall t, fl - 1 <= t < max_length -> nth (Z.to_nat t) row 0 = text_pad_id self) /\
(forall t, 0 <= t < fl - 1 ->
   (forall i, (i < length wl)%nat -> ~ covers wl st i t) ->
   nth (Z.to_nat t) row 0 = pad) /\
(forall i j, (i < length wl)%nat -> 0 <= j < nth i wl 0 ->
   let t := frame_index (nth i st 0) + j in
   t < fl - 1 ->
   word_offset wl i + j < Z.of_nat (length wt) ->
   (forall i', (i < i' < length wl)%nat -> ~ covers wl st i' t) ->
   nth (Z.to_nat t) row 0 = nth (Z.to_nat (word_offset wl i + j)) wt 0).

(** The intermediate values of a run of [prepare] that succeeds. *)
Inductive run (cuts : list Cut) (pb : pre_batch) : Prop :=
| Run (exs : list example) (cut : Cut) (ex : example)
      (target_text_lengths_ : list Z) (target_texts_expanded_ : tensor3)
      (run_tokenize : tokenize_cuts (sort_by_duration cuts) = Ok exs)
      (run_audio : load_source_audio (sort_by_duration cuts) = Ok (pb_audio pb, pb_audio_lens pb))
      (run_codec : build_target_codec (sort_by_duration cuts) = Ok (pb_codec pb))
      (run_targets :
         _convert_text_to_3d_tensor (map ex_target_text exs) true 0
         = Ok (pb_target_texts pb, target_text_lengths_, target_texts_expanded_))
      (run_instructions :
         _convert_text_to_3d_tensor (map ex_instruction exs) false (tokens_to_generate self)
         = Ok (pb_instructions pb, pb_instruction_lengths pb,
               pb_instructions_expanded_no_eos pb))
      (run_last_cut : last_cut (sort_by_duration cuts) = Ok cut)
      (run_last_ex : last_cut exs = Ok ex)
      (run_assemble :
         assemble exs (cs_target_codec (pb_codec pb)) (cs_features_lens (pb_codec pb))
                  target_text_lengths_ target_texts_expanded_
                  (pb_instruction_lengths pb) (pb_instructions_expanded_no_eos pb)
                  (ex_instruction_length ex) cut
         = Ok (pb_assembled pb))
      (run_cuts : pb_cuts pb = sort_by_duration cuts).

(** The time step of example [b] that holds the end marker of its
    codec frames in [s2s_align] mode: after the instruction (unless
    t5-style), the bos step and the [features_lens[b]] frames. *)
Definition end_marker_step (pb : pre_batch) (b : nat) : Z :=
(if t5_style self then 0 else nth b (pb_instruction_lengths pb) 0)
+ 1 + nth b (cs_features_lens (pb_codec pb)) 0.

End GetItem.

(** ** IEEE-754 binary32 as the float32 values *)

Module Binary32.

Definition prec : Z := 24.
Definition emax : Z := 128.

Definition float32 : Type := spec_float.

(** int64 to float32: round to nearest, ties to even. *)
Definition of_long (z : Z) : float32 := binary_normalize prec emax z 0 false.

(** float32 to int64: truncation towards zero.  For an infinity or a
    NaN the value is the one x86-64 produces; no theorem relies on it. *)
Definition to_long (f : float32) : Z :=
  match f with
  | S754_zero _ => 0
  | S754_finite s m e =>
    let v := if 0 <=? e then Z.pos m * 2 ^ e else Z.quot (Z.pos m) (2 ^ (- e)) in
    if s then - v else v
  | _ => - 2 ^ 63
  end.

Definition fzero : float32 := S754_zero false.
Definition fone : float32 := of_long 1.
(** [0.5]. *)
Definition fhalf : float32 := SFdiv prec emax fone (of_long 2).

(** [int(start_token * timestamp_resolution / speech_resolution)] on a
    0-dim int64 tensor [start_token] and two Python floats. *)
Definition discretize_time (speech_resolution timestamp_resolution : float32)
           (start_token : Z) : Z :=
  to_long (SFdiv prec emax
                 (SFmul prec emax (of_long start_token) timestamp_resolution)
                 speech_resolution).

(** [math.ceil(x)] of a finite float. *)
Definition ceil (f : float32) : Z :=
  match f with
  | S754_finite s m e =>
    if 0 <=? e then to_long f
    else if s then to_long f
    else if Z.rem (Z.pos m) (2 ^ (- e)) =? 0 then to_long f else to_long f + 1
  | _ => to_long f
  end.

(** [math.ceil(answer_audio_len / codec_model_downsampling_factor)]. *)
Definition codec_frames (codec_model_downsampling_factor : float32)
           (answer_audio_len : Z) : Z :=
  ceil (SFdiv prec emax (of_long answer_audio_len) codec_model_downsampling_factor).

End Binary32.

(** ** A concrete dataset

    A character-level text processor, the two regular expressions on
    [<|n|>] time tokens, and a two-codebook configuration on binary32
    audio; the closed examples below run the model on it. *)

Module Demo.

Import Ascii.

Definition is_digit (c : ascii) : bool :=
  let n := nat_of_ascii c in (48 <=? n)%nat && (n <=? 57)%nat.

Definition is_space (c : ascii) : bool :=
  let n := nat_of_ascii c in (n =? 32)%nat || ((9 <=? n)%nat && (n <=? 13)%nat).

(** The digits at the start of [s], as a number, and what follows. *)
Fixpoint digits (acc : Z) (seen : bool) (s : string) : option (Z * string) :=
  match s with
  | String c r =>
    if is_digit c then digits (10 * acc + (Z.of_nat (nat_of_ascii c) - 48)) true r
    else if seen then Some (acc, s) else None
  | EmptyString => if seen then Some (acc, s) else None
  end.

(** A match of [<\|(\d+)\|>] at the start of [s]. *)
Definition time_token (s : string) : option (Z * string) :=
  match s with
  | String "<" (String "|" r) =>
    match digits 0 false r with
    | Some (n, String "|" (String ">" r')) => Some (n, r')
    | _ => None
    end
  | _ => None
  end.

Fixpoint scan (fuel : nat) (s : string) : list Z * string :=
  match fuel, s with
  | S fuel', String c r =>
    match time_token s with
    | Some (n, r') => let '(ns, out) := scan fuel' r' in (n :: ns, out)
    | None => let '(ns, out) := scan fuel' r in (ns, String c out)
    end
  | _, _ => ([], EmptyString)
  end.

Definition re_findall_time (s : string) : list Z := fst (scan (String.length s) s).
Definition re_sub_time (s : string) : string := snd (scan (String.length s) s).

(** [s.split()]: the maximal runs of non-space characters. *)
Fixpoint split_acc (word : string) (s : string) : list string :=
  let flush := match word with EmptyString => [] | _ => [word] end in
  match s with
  | EmptyString => flush
  | String c r =>
    if is_space c then flush ++ split_acc EmptyString r
    else split_acc (word ++ String c EmptyString) r
  end.

Definition split (s : string) : list string := split_acc EmptyString s.

Definition collapse_spaces (s : string) : string := String.concat " " (split s).

(** One token per character, its code after the four special ids;
    id 3 closes every sequence. *)
Definition char_ids (s : string) : list Z :=
  map (fun c => Z.of_nat (nat_of_ascii c) + 4) (list_ascii_of_string s).

Definition char_processor : TextProcessing :=
  {| process_example := fun context output =>
       {| input_ids := char_ids context ++ char_ids output ++ [3];
          context_ids := char_ids context;
          answer_ids := char_ids output ++ [3] |};
     pad_id := 0;
     unk_id := 1;
     bos_id := 2;
     eos_id := 3 |}.

Definition ceil_to_nearest (n m : Z) : Z := (n + m - 1) / m * m.

Definition dataset (t5 : bool) (answer_audio : bool) (reduction : Z) : Dataset :=
  {| text_processor := char_processor;
     tokens_to_generate := 0;
     pad_to_max_length := false;
     max_seq_length := 64;
     vocab_sizes := [256; 1024; 1024];
     decoder_reduction_factor := reduction;
     speech_pad_id := 1001;
     speech_unk_id := 1002;
     speech_bos_id := 1003;
     speech_eos_id := 1004;
     sample_rate := 4;
     t5_style := t5;
     load_answer_audio := answer_audio |}.

Abbreviation Cut := (Cut Binary32.float32).

(** Longest first, ties in their given order. *)
Fixpoint insert_cut (c : Cut) (cs : list Cut) : list Cut :=
  match cs with
  | [] => [c]
  | d :: r =>
    if (length (audio d) <=? length (audio c))%nat then c :: d :: r
    else d :: insert_cut c r
  end.

Definition sort_by_duration (cs : list Cut) : list Cut :=
  fold_right insert_cut [] cs.

(** [codec_model_downsampling_factor = 2.0], so that at
    [sample_rate = 4] a frame lasts [0.5] and a time token [0.08]. *)
Definition downsampling : Binary32.float32 := Binary32.of_long 2.
Definition frame_rate : Binary32.float32 :=
  SFdiv Binary32.prec Binary32.emax downsampling (Binary32.of_long 4).
Definition timestamp_resolution : Binary32.float32 :=
  SFdiv Binary32.prec Binary32.emax (Binary32.of_long 8) (Binary32.of_long 100).

Definition getitem (self : Dataset) (cuts : list Cut) :=
  getitem Binary32.of_long Binary32.to_long Binary32.fzero Binary32.fone
          sort_by_duration re_findall_time re_sub_time collapse_spaces split
          ceil_to_nearest
          (Binary32.discretize_time frame_rate timestamp_resolution)
          (Binary32.codec_frames downsampling)
          self cuts.

Definition prepare (self : Dataset) (cuts : list Cut) :=
prepare Binary32.of_long Binary32.to_long Binary32.fzero
        sort_by_duration re_findall_time re_sub_time collapse_spaces split
        ceil_to_nearest
        (Binary32.discretize_time frame_rate timestamp_resolution)
        (Binary32.codec_frames downsampling)
        self cuts.

Definition samples (n : nat) : list Binary32.float32 := repeat Binary32.fhalf n.

Definition turn (who what : string) : Supervision := {| speaker := who; text := what |}.

Definition cut (name : string) (turns : list Supervision) (n m : nat) (flag : mode) : Cut :=
  {| cut_id := name;
     supervisions := turns;
     audio := samples n;
     target_audio := Some (samples m);
     s2s := match flag with S2S => true | _ => false end;
     s2s_align := match flag with S2S_align => true | _ => false end;
     direct_s2s := match flag with Direct_S2S => true | _ => false end;
     s2t := match flag with S2T => true | _ => false end |}.

(** Two well-formed cuts carrying one flag, and a cut whose turns are
    in the wrong order. *)
Definition first_cut (flag : mode) : Cut :=
cut "q1" [turn "user" "Q"; turn "agent" "<|0|>hi<|1|> <|13|>yo<|30|>"] 3 6 flag.

Definition second_cut (flag : mode) : Cut :=
cut "q2" [turn "user" "Q?"; turn "agent" "<|0|>a<|1|>"] 5 3 flag.

Definition two_cuts (flag : mode) : list Cut := [first_cut flag; second_cut flag].

Definition swapped_cut : Cut :=
cut "q3" [turn "agent" "hi"; turn "user" "Q"] 2 2 S2S.

End Demo.

(** ** The constructor of the dataset *)

(** [LhotseAudioQuestionAnswerDataset.__init__], for the attributes
    [__getitem__] reads.  [tokenizer_vocab_size] stands for
    [text_processor.tokenizer.vocab_size]; the constructor replaces a
    single non-positive entry of [vocab_sizes] by it. *)
Definition __init__ (text_processor_ : TextProcessing) (tokenizer_vocab_size : Z)
           (tokens_to_generate_ : Z) (pad_to_max_length_ : bool) (max_seq_length_ : Z)
           (vocab_sizes_ : list Z) (decoder_reduction_factor_ : Z)
           (speech_pad_id_ speech_unk_id_ speech_bos_id_ speech_eos_id_ : Z)
           (sample_rate_ : Z) (t5_style_ load_answer_audio_ : bool) : Dataset :=
  let vocab_sizes_ :=
    if (length vocab_sizes_ =? 1)%nat && (nth 0 vocab_sizes_ 0 <=? 0)
    then [tokenizer_vocab_size]
    else vocab_sizes_ in
  {| text_processor := text_processor_;
     tokens_to_generate := tokens_to_generate_;
     pad_to_max_length := pad_to_max_length_;
     max_seq_length := max_seq_length_;
     vocab_sizes := vocab_sizes_;
     decoder_reduction_factor := decoder_reduction_factor_;
     speech_pad_id := speech_pad_id_;
     speech_unk_id := speech_unk_id_;
     speech_bos_id := speech_bos_id_;
     speech_eos_id := speech_eos_id_;
     sample_rate := sample_rate_;
     t5_style := t5_style_;
     load_answer_audio := load_answer_audio_ |}.

(** ** Reading the fields of a batch *)

(** The width [collate_vectors] pads to: [max_length], or the longest
    item when that is longer. *)
Definition padded_width (max_length : Z) (lens : list nat) : nat :=
  Z.to_nat (Z.max max_length (Z.of_nat (list_max lens))).

(** The time steps of a 3-D tensor all have [n] entries. *)
Definition steps_have {A} (n : nat) (x : list (list (list A))) : Prop :=
  Forall (Forall (fun r => length r = n)) x.

(** A 3-D tensor of shape [b, t, n]. *)
Definition has_shape {A} (b t n : nat) (x : list (list (list A))) : Prop :=
  length x = b /\ Forall (fun ex => length ex = t) x /\ steps_have n x.

Section Reading.

Variable F : Type.
Variable re_findall_time : string -> list Z.
Variable re_sub_time collapse_spaces : string -> string.
Variable split : string -> list string.
Variable ceil_to_nearest : Z -> Z -> Z.
Variable codec_frames : Z -> Z.
Variable self : Dataset.

(** [instruction["input_ids"][:-1]] of the first turn of a cut, and
    the [target_text] of its second turn, as lines 216-237 compute
    them. *)
Definition instruction_ids (cut : Cut F) : list Z :=
  match supervisions cut with
  | s :: _ => removelast (input_ids (process_example (text_processor self) (text s) EmptyString))
  | [] => []
  end.

Definition target_ids (cut : Cut F) : list Z :=
  match supervisions cut with
  | _ :: s :: _ =>
    if s2s_align cut
    then fst (fst (extract_text_and_time_tokens re_findall_time re_sub_time split self (text s)))
    else removelast (answer_ids (process_example (text_processor self) EmptyString
                                                 (collapse_spaces (re_sub_time (text s)))))
  | _ => []
  end.

(** The samples of the answer audio of a cut, and its entry in
    [features_lens]: the frames of that audio. *)
Definition answer_samples (cut : Cut F) : list F :=
  match target_audio cut with Some a => a | None => [] end.

Definition features_len (cut : Cut F) : Z :=
  codec_frames (Z.of_nat (length (answer_samples cut))).

(** A float32 batch of sample rows, padded with [fzero] to the longest
    row as [collate_vectors] returns it: cast to int64 when the first
    row is empty. *)
Definition padded_samples (to_long : F -> Z) (fzero : F) (rows : list (list F)) : tensor2 F :=
  let v := Float2 (map (pad_row (list_max (map (@length F) rows)) fzero) rows) in
  if (length (hd [] rows) <? 1)%nat then long to_long v else v.

(** The [max_length] that [collate_and_pad] passes to [collate_vectors]
    for 1-D inputs of the given lengths. *)
Definition text_max_length (lens : list nat) : Z :=
  if pad_to_max_length self then max_seq_length self
  else Z.min (max_seq_length self) (ceil_to_nearest (Z.of_nat (list_max lens)) 8).

(** The four kinds of time step that are not padding: a text token
    with the unknown speech id, the end marker of a text, a frame of
    the placeholder codec, and the end marker of the codec. *)
Definition token_step (v : Z) : list Z :=
  v :: repeat (speech_unk_id self) (Z.to_nat (channels self)).

Definition text_end_marker : list Z :=
  text_eos_id self :: repeat (speech_bos_id self) (Z.to_nat (channels self)).

Definition codec_frame : list Z :=
  text_unk_id self :: repeat (speech_pad_id self - 1) (Z.to_nat (channels self)).

Definition codec_end_marker : list Z :=
  text_unk_id self :: repeat (speech_eos_id self) (Z.to_nat (channels self)).

(** One example of [_convert_text_to_3d_tensor]: a step per token, the
    end marker, and padding up to [n] steps. *)
Definition text_steps (ids : list Z) (n : nat) : list (list Z) :=
  map token_step ids ++ [text_end_marker] ++ repeat (pad_step self) (n - S (length ids)).

(** One example of the placeholder [target_codec] of lines 353-362. *)
Definition codec_steps (features_len_ : Z) (n : nat) : list (list Z) :=
  repeat codec_frame (Z.to_nat features_len_) ++ [codec_end_marker]
  ++ repeat (pad_step self) (n - S (Z.to_nat features_len_)).

(** The sequence of one example in [s2s] mode, before padding. *)
Definition s2s_sequence (cut : Cut F) : list (list Z) :=
  (if t5_style self then [] else map token_step (instruction_ids cut))
  ++ map token_step (target_ids cut) ++ [text_end_marker]
  ++ repeat codec_frame (Z.to_nat (features_len cut)) ++ [codec_end_marker].

(** The pad id of column [c]. *)
Definition column_pad_id (c : nat) : Z :=
  match c with O => text_pad_id self | S _ => speech_pad_id self end.

End Reading.

(** ** Text-only collation: [collate_text_data] and [as_dict] *)

(** A Python dict with string keys, in insertion order. *)
Definition dict (V : Type) : Type := list (string * V).

Fixpoint dict_get {V} (d : dict V) (k : string) : option V :=
  match d with
  | [] => None
  | (k', v) :: r => if (k' =? k)%string then Some v else dict_get r k
  end.

(** [d[k] = v]. *)
Fixpoint dict_set {V} (d : dict V) (k : string) (v : V) : dict V :=
  match d with
  | [] => [(k, v)]
  | (k', v') :: r =>
    if (k' =? k)%string then (k, v) :: r else (k', v') :: dict_set r k v
  end.

(** A cut as the context loop of [__getitem__] (lines 265-271) and
    [collate_text_data] read it: its custom attributes, by name, and
    the [text] of each supervision, [None] when it has none. *)
Record TextCut : Type := {
  attrs : dict string;
  texts : list (option string)
}.

(** [hasattr(cut, key)] and [getattr(cut, key)] on a custom attribute. *)
Definition hasattr (cut : TextCut) (key : string) : bool :=
  match dict_get (attrs cut) key with Some _ => true | None => false end.

Definition getattr (cut : TextCut) (key : string) : result string :=
  match dict_get (attrs cut) key with Some v => Ok v | None => Raise AttributeError end.

(** The body of the loop at lines 265-271, for the constructor
    arguments [context_key], [default_context_key], [default_context]. *)
Definition assign_context (context_key default_context_key default_context : string)
           (cut : TextCut) : TextCut :=
  let context :=
    match dict_get (attrs cut) context_key with
    | Some v => v
    | None =>
      match dict_get (attrs cut) default_context_key with
      | Some v => v
      | None => default_context
      end
    end in
  {| attrs := dict_set (attrs cut) "context" context; texts := texts cut |}.

Definition assign_contexts (context_key default_context_key default_context : string)
           (cuts : list TextCut) : list TextCut :=
  map (assign_context context_key default_context_key default_context) cuts.

(** [t[:, :-1]] and [t[:, 1:]] on a 2-D tensor. *)
Definition drop_last_column {F} (t : tensor2 F) : tensor2 F :=
  match t with
  | Long2 _ rows => Long2 F (map (@removelast Z) rows)
  | Float2 rows => Float2 (map (@removelast F) rows)
  end.

Definition drop_first_column {F} (t : tensor2 F) : tensor2 F :=
  match t with
  | Long2 _ rows => Long2 F (map (@tl Z) rows)
  | Float2 rows => Float2 (map (@tl F) rows)
  end.

(** [torch.arange(n, dtype=torch.long)]: a negative bound is an error. *)
Definition arange (n : Z) : result (list Z) :=
  if n <? 0 then Raise RuntimeError else Ok (map Z.of_nat (seq 0 (Z.to_nat n))).

Section TextData.

Variable F : Type.
Variable of_long : Z -> F.
Variable to_long : F -> Z.
Variable ceil_to_nearest : Z -> Z -> Z.

(** One entry of [examples]: the values of the processed example,
    each through [torch.as_tensor]. *)
Record tensors : Type := {
  t_input_ids : tensor1 F;
  t_context_ids : tensor1 F;
  t_answer_ids : tensor1 F
}.

Definition tensorize (p : processed) : tensors :=
  {| t_input_ids := as_tensor (input_ids p);
     t_context_ids := as_tensor (context_ids p);
     t_answer_ids := as_tensor (answer_ids p) |}.

(** [build_loss_mask(item)] of [parts/utils/data_utils.py], a list of
    Python floats. *)
Variable build_loss_mask : tensors -> list F.

(** What [as_dict] returns on [examples]: a list per key. *)
Record fields : Type := {
  f_input_ids : list (tensor1 F);
  f_context_ids : list (tensor1 F);
  f_answer_ids : list (tensor1 F)
}.

(** [{k: [item[k] for item in arg] for k in arg[0].keys()}]. *)
Definition as_dict (arg : list tensors) : result fields :=
  match arg with
  | [] => Raise IndexError
  | _ :: _ =>
    Ok {| f_input_ids := map t_input_ids arg;
          f_context_ids := map t_context_ids arg;
          f_answer_ids := map t_answer_ids arg |}
  end.

Definition get_max_len (input_list : list (tensor1 F)) : result Z :=
  py_max (map (fun x => Z.of_nat (size1 x)) input_list).

Record text_batch : Type := {
  tb_tokens : tensor2 F;
  tb_tokens_length : list Z;
  tb_labels : tensor2 F;
  tb_loss_mask : tensor2 F;
  tb_position_ids : list (list Z);
  tb_contexts : tensor2 F;
  tb_context_lengths : list Z;
  tb_answers : tensor2 F;
  tb_max_length : list Z;
  tb_context_ids : list (tensor1 F)
}.

(** The example of one cut: [cut.context] is read first, then the text
    of the first supervision, a missing text being the empty string. *)
Definition text_example (text_processor_ : TextProcessing) (cut : TextCut) : result tensors :=
  context <- getattr cut "context" ;;
  output <- nth_or_raise (texts cut) 0 ;;
  let output := match output with Some t => t | None => EmptyString end in
  Ok (tensorize (process_example text_processor_ context output)).

(** What [text_example] processes for a cut that has a context and a
    supervision. *)
Definition processed_text (text_processor_ : TextProcessing) (cut : TextCut) : processed :=
  process_example text_processor_
    (match dict_get (attrs cut) "context" with Some v => v | None => EmptyString end)
    (match nth 0 (texts cut) None with Some t => t | None => EmptyString end).

(** The [max_length] of lines 555-562 for the processed examples [ps]. *)
Definition collated_max_length (ps : list processed) (tokens_to_generate_ : Z)
           (pad_to_max_length_ : bool) (max_seq_length_ : Z) : Z :=
  let longest (f : processed -> list Z) :=
    Z.of_nat (list_max (map (fun p => length (f p)) ps)) in
  let max_length :=
    tokens_to_generate_
    + Z.max (Z.max (longest input_ids) (longest context_ids)) (longest answer_ids) in
  if pad_to_max_length_ then max_seq_length_
  else Z.min max_seq_length_ (ceil_to_nearest max_length 8).

Definition collate_text_data (cuts : list TextCut) (default_context : string)
           (text_processor_ : TextProcessing) (tokens_to_generate_ : Z)
           (pad_to_max_length_ : bool) (max_seq_length_ : Z) : result text_batch :=
  let batch_size := length cuts in
  let pad_id_ := pad_id text_processor_ in
  examples <- mapM (text_example text_processor_) cuts ;;
  fields_ <- as_dict examples ;;
  a <- get_max_len (f_input_ids fields_) ;;
  b <- get_max_len (f_context_ids fields_) ;;
  c <- get_max_len (f_answer_ids fields_) ;;
  let max_length := tokens_to_generate_ + Z.max (Z.max a b) c in
  let max_length :=
    if pad_to_max_length_ then max_seq_length_
    else Z.min max_seq_length_ (ceil_to_nearest max_length 8) in
  all_tokens <- collate_vectors of_long to_long (f_input_ids fields_) max_length (PyInt F pad_id_) ;;
  let full_lengths := map (fun item => Z.of_nat (size1 item)) (f_input_ids fields_) in
  _ <- py_assert (max_length <=? max_seq_length_) ;;
  loss_mask_ <- collate_vectors of_long to_long
                  (map (fun item => TFloat (build_loss_mask item)) examples)
                  max_length (PyInt F 0) ;;
  position <- arange max_length ;;
  contexts_ <- collate_vectors of_long to_long (f_context_ids fields_) max_length (PyInt F pad_id_) ;;
  answers_ <- collate_vectors of_long to_long (f_answer_ids fields_) max_length (PyInt F pad_id_) ;;
  Ok {| tb_tokens := drop_last_column all_tokens;
        tb_tokens_length := map (fun x => x - 1) full_lengths;
        tb_labels := drop_first_column all_tokens;
        tb_loss_mask := drop_first_column loss_mask_;
        tb_position_ids := repeat position batch_size;
        tb_contexts := contexts_;
        tb_context_lengths := map (fun s => Z.of_nat (size1 s)) (f_context_ids fields_);
        tb_answers := answers_;
        tb_max_length := repeat max_length batch_size;
        tb_context_ids := f_context_ids fields_ |}.

End TextData.

(** ** The run plugins of [nemo/lightning/run/plugins.py]

    A task is a [run.Script] or a [run.Partial]; of a partial the
    plugins read the [trainer] and [log] arguments, absent ones being
    [None].  Of an executor they read whether it is a
    [run.SlurmExecutor], its [signal], [env_vars] and job directories,
    and the launcher that [get_launcher()] returns.  Messages given to
    [logging] are collected in a list. *)

Module Plugins.

Section Plugins.

(** [run.Config[Callback]] and its [==].  An attribute that is set
    holds a value of its annotated type: [trainer.callbacks] a list. *)
Variable Callback : Type.
Variable callback_eqb : Callback -> Callback -> bool.
(** [run.Config[WandbLogger]] without its [config] argument. *)
Variable Logger : Type.
(** The task as [yaml.safe_load(YamlSerializer().serialize(task))] gives it. *)
Variable Yaml : Type.
(** The body of a [run.Script]. *)
Variable Script : Type.

Record Experiment : Type := {
  exp_id : string;
  exp_task_name : string;
  exp_executor : string;
  exp_remote_directory : option string;
  exp_local_directory : string
}.

(** [partial_config] with its [experiment] entry. *)
Record PartialConfig : Type := {
  pc_task : Yaml;
  pc_experiment : Experiment
}.

Record WandbLogger : Type := {
  wandb_logger : Logger;
  wandb_config : option PartialConfig
}.

Record Trainer : Type := {
  callbacks : option (list Callback)
}.

(** [wandb] is [None] when [log] has no such attribute, and else its
    value, which may be Python's [None]. *)
Record Log : Type := {
  wandb : option (option WandbLogger)
}.

Record Partial : Type := {
  trainer : option Trainer;
  log : option Log
}.

Inductive Task : Type :=
| TaskScript (s : Script)
| TaskPartial (p : Partial).

Record Launcher : Type := {
  nsys_profile : bool;
  nsys_trace : list string
}.

Record Executor : Type := {
  is_slurm : bool;                 (* isinstance(executor, run.SlurmExecutor) *)
  signal : string;
  env_vars : dict string;
  launcher : option Launcher;      (* executor.get_launcher() *)
  job_dir : string;
  tunnel_job_dir : string;         (* executor.tunnel.job_dir *)
  info : string                    (* executor.info() *)
}.

Inductive log_record : Type :=
| Warning (msg : string)
| Info (msg : string).

(** [callback not in callbacks]. *)
Definition not_in (callback : Callback) (cbs : list Callback) : bool :=
  negb (existsb (fun c => callback_eqb callback c) cbs).

(** [for callback in callbacks: if callback not in xs: xs.append(callback)]. *)
Definition append_missing (xs callbacks_ : list Callback) : list Callback :=
  fold_left (fun xs callback => if not_in callback xs then xs ++ [callback] else xs)
            callbacks_ xs.

Definition _merge_callbacks (partial : Partial) (callbacks_ : list Callback) : Partial :=
  match trainer partial with
  | Some tr =>
    match callbacks tr with
    | Some xs =>
      {| trainer := Some {| callbacks := Some (append_missing xs callbacks_) |};
         log := log partial |}
    | None =>
      {| trainer := Some {| callbacks := Some callbacks_ |}; log := log partial |}
    end
  | None => partial
  end.

(** *** [PreemptionPlugin] *)

Record PreemptionPlugin : Type := {
  preempt_time : Z;
  preemption_callbacks : list Callback
}.

Definition str (z : Z) : string := NilZero.string_of_int (Z.to_int z).

Definition no_effect_on_script (class_name : string) : string :=
  ("The " ++ class_name
   ++ " will have no effect on the task as it's an instance of run.Script")%string.

Definition set_signal (executor : Executor) (s : string) : Executor :=
  {| is_slurm := is_slurm executor;
     signal := s;
     env_vars := env_vars executor;
     launcher := launcher executor;
     job_dir := job_dir executor;
     tunnel_job_dir := tunnel_job_dir executor;
     info := info executor |}.

Definition preemption_setup (self : PreemptionPlugin) (task : Task) (executor : Executor)
  : Task * Executor * list log_record :=
  match task with
  | TaskScript _ => (task, executor, [Warning (no_effect_on_script "PreemptionPlugin")])
  | TaskPartial p =>
    let '(executor, logs) :=
      if is_slurm executor then
        (set_signal executor ("TERM@" ++ str (preempt_time self))%string,
         [Info ("PreemptionPlugin will send a SIGTERM " ++ str (preempt_time self)
                ++ " seconds before the job's time limit for your Slurm executor.")%string])
      else (executor, []) in
    (TaskPartial (_merge_callbacks p (preemption_callbacks self)), executor, logs)
  end.

(** *** [NsysPlugin] *)

Record NsysPlugin : Type := {
  start_step : Z;
  end_step : Z;
  ranks : option (list Z);
  nsys_trace_arg : option (list string)
}.

(** [x or default] on an optional list: [None] and the empty list are
    both false. *)
Definition or_default {A} (x : option (list A)) (default : list A) : list A :=
  match x with
  | Some (a :: r) => a :: r
  | _ => default
  end.

(** [run.Config(NsysCallback, start_step=..., end_step=..., ranks=...)]. *)
Variable nsys_callback : Z -> Z -> list Z -> Callback.

Definition set_launcher (executor : Executor) (l : Launcher) : Executor :=
  {| is_slurm := is_slurm executor;
     signal := signal executor;
     env_vars := env_vars executor;
     launcher := Some l;
     job_dir := job_dir executor;
     tunnel_job_dir := tunnel_job_dir executor;
     info := info executor |}.

(** An executor without a launcher makes [launcher.nsys_profile = True]
    an attribute error on [None]. *)
Definition nsys_setup (self : NsysPlugin) (task : Task) (executor : Executor)
  : result (Task * Executor) :=
  let task :=
    match task with
    | TaskPartial p =>
      TaskPartial
        (_merge_callbacks p [nsys_callback (start_step self) (end_step self)
                                           (or_default (ranks self) [0])])
    | TaskScript _ => task
    end in
  match launcher executor with
  | None => Raise AttributeError
  | Some _ =>
    Ok (task,
        set_launcher executor
          {| nsys_profile := true;
             nsys_trace := or_default (nsys_trace_arg self) ["nvtx"; "cuda"]%string |})
  end.

(** *** [WandbPlugin] *)

Record WandbPlugin : Type := {
  name : string;
  logger_fn : string -> WandbLogger;
  log_task_config : bool;
  experiment_id : string
}.

Variable serialize : Partial -> Yaml.
(** [os.path.join(a, Path(b).name)]. *)
Variable join_name : string -> string -> string.

Definition set_env_var (executor : Executor) (k v : string) : Executor :=
  {| is_slurm := is_slurm executor;
     signal := signal executor;
     env_vars := dict_set (env_vars executor) k v;
     launcher := launcher executor;
     job_dir := job_dir executor;
     tunnel_job_dir := tunnel_job_dir executor;
     info := info executor |}.

Definition set_wandb (p : Partial) (w : WandbLogger) : Partial :=
  {| trainer := trainer p; log := Some {| wandb := Some (Some w) |} |}.

Definition wandb_setup (self : WandbPlugin) (environ : dict string)
           (task : Task) (executor : Executor) : Task * Executor * list log_record :=
  match task with
  | TaskScript _ => (task, executor, [Warning (no_effect_on_script "WandbPlugin")])
  | TaskPartial p =>
    match dict_get environ "WANDB_API_KEY" with
    | Some key =>
      let executor := set_env_var executor "WANDB_API_KEY" key in
      match log p with
      | Some {| wandb := Some _ |} =>
        let p := set_wandb p (logger_fn self (name self)) in
        if log_task_config self then
          let partial_config :=
            {| pc_task := serialize p;
               pc_experiment :=
                 {| exp_id := experiment_id self;
                    exp_task_name := name self;
                    exp_executor := info executor;
                    exp_remote_directory :=
                      if is_slurm executor
                      then Some (join_name (tunnel_job_dir executor) (job_dir executor))
                      else None;
                    exp_local_directory := job_dir executor |} |} in
          let w := {| wandb_logger := wandb_logger (logger_fn self (name self));
                      wandb_config := Some partial_config |} in
          (TaskPartial (set_wandb p w), executor, [])
        else (TaskPartial p, executor, [])
      | _ => (TaskPartial p, executor, [])
      end
    | None =>
      (task, executor,
       [Warning "The WandbPlugin will have no effect as WANDB_API_KEY environment variable is not set."])
    end
  end.

End Plugins.

End Plugins.

(** ** Concrete text cuts and plugins *)

Module DemoText.

(** [build_loss_mask] with the answer-only loss: [1.0] from the first
    answer token on. *)
Definition build_loss_mask (item : tensors Binary32.float32) : list Binary32.float32 :=
  map (fun idx => if (size1 (t_context_ids item) <=? idx)%nat
                  then Binary32.fone else Binary32.fzero)
      (seq 0 (size1 (t_input_ids item))).

Definition collate_text_data (cuts : list TextCut) (pad_to_max_length_ : bool)
           (max_seq_length_ : Z) :=
  collate_text_data Binary32.of_long Binary32.to_long Demo.ceil_to_nearest build_loss_mask
                    cuts "unused"%string Demo.char_processor 0 pad_to_max_length_ max_seq_length_.

(** A cut that carries its own question, one that names a default,
    and one with neither. *)
Definition asked : TextCut :=
  {| attrs := [("question", "Q?")]%string; texts := [Some "hi"]%string |}.

Definition defaulted : TextCut :=
  {| attrs := [("fallback", "Who")]%string; texts := [Some "me"; Some "you"]%string |}.

Definition bare : TextCut :=
  {| attrs := []; texts := [None] |}.

Definition resolved : list TextCut :=
  assign_contexts "question"%string "fallback"%string "Say"%string [asked; defaulted; bare].

End DemoText.

Module DemoPlugins.

Import Plugins.

(** Callbacks by class name, a task serialized as the names of the
    callbacks of its trainer. *)
Definition Callback : Type := string.

Definition serialize (p : Partial Callback string (list string)) : list string :=
  match trainer p with
  | Some {| callbacks := Some xs |} => xs
  | _ => []
  end.

Definition nsys_callback (start_step_ end_step_ : Z) (ranks_ : list Z) : Callback :=
  ("NsysCallback(" ++ str start_step_ ++ "," ++ str end_step_ ++ ","
   ++ String.concat " " (map str ranks_) ++ ")")%string.

Definition join_name (a b : string) : string := (a ++ "/" ++ b)%string.

Definition partial (xs : option (list Callback)) : Partial Callback string (list string) :=
  {| trainer := Some {| callbacks := xs |};
     log := Some {| wandb := Some None |} |}.

Definition task (xs : option (list Callback)) : Task Callback string (list string) unit :=
  TaskPartial unit (partial xs).

Definition slurm : Executor :=
  {| is_slurm := true;
     signal := EmptyString;
     env_vars := [("HOME", "/home/u")]%string;
     launcher := Some {| nsys_profile := false; nsys_trace := [] |};
     job_dir := "/tmp/exp/job"%string;
     tunnel_job_dir := "/remote/exp"%string;
     info := "SlurmExecutor"%string |}.

Definition preemption : PreemptionPlugin Callback :=
  {| preempt_time := 300; preemption_callbacks := ["PreemptionCallback"]%string |}.

Definition nsys : NsysPlugin :=
  {| start_step := 10; end_step := 20; ranks := Some []; nsys_trace_arg := None |}.

Definition wandb_plugin : WandbPlugin string (list string) :=
  {| name := "run1"%string;
     logger_fn := fun n => {| wandb_logger := n; wandb_config := None |};
     log_task_config := true;
     experiment_id := "exp-1"%string |}.

End DemoPlugins.

(** * Properties *)

(** ** Fallible computations *)

Lemma bind_ok {A B} (c : result A) (k : A -> result B) (b : B) :
  bind c k = Ok b -> exists a, c = Ok a /\ k a = Ok b.
Proof.
  destruct c as [a|e]; simpl; intro H; [exists a; auto | discriminate].
Qed.

Lemma bind_raise {A B} (c : result A) (k : A -> result B) (e : pyerror) :
  c = Raise e -> bind c k = Raise e.
Proof. intros ->; reflexivity. Qed.

Lemma py_assert_ok (b : bool) (u : unit) : py_assert b = Ok u -> b = true.
Proof. destruct b; simpl; [reflexivity | discriminate]. Qed.

(** Inversion of a successful run, one [bind] at a time. *)
Ltac inv_bind H :=
  let a := fresh "x" in
  let Ha := fresh "E" in
  apply bind_ok in H; destruct H as (a & Ha & H).

Ltac inv_ok H := injection H as H; subst.

(** [expose f] unfolds the function at the head of [f], also when [f]
    abbreviates its application to the parameters of a section. *)
Ltac head_of t := lazymatch t with ?f _ => head_of f | _ => t end.
Tactic Notation "expose" constr(t) := let h := head_of t in unfold h.
Tactic Notation "expose" constr(t) "in" hyp(H) := let h := head_of t in unfold h in H.
Tactic Notation "expose" constr(t) "in" "*" := let h := head_of t in unfold h in *.

Lemma mapM_length {A B} (f : A -> result B) (xs : list A) (ys : list B) :
  mapM f xs = Ok ys -> length ys = length xs.
Proof.
  revert ys; induction xs as [|x xs IH]; simpl; intros ys H.
  - inv_ok H; reflexivity.
  - inv_bind H. inv_bind H. inv_ok H. simpl; f_equal; auto.
Qed.

Lemma mapM_raises {A B} (f : A -> result B) (xs : list A) (x : A) :
  In x xs -> (exists e, f x = Raise e) -> exists e, mapM f xs = Raise e.
Proof.
  induction xs as [|y xs IH]; simpl; [tauto|].
  intros [->|Hin] Hx.
  - destruct Hx as (e & ->). exists e; reflexivity.
  - destruct (f y) as [b|e]; simpl; [|eauto].
    destruct (IH Hin Hx) as (e & ->). exists e; reflexivity.
Qed.

Lemma mapM_nth {A B} (f : A -> result B) (xs : list A) (ys : list B) (i : nat) (x : A) :
  mapM f xs = Ok ys -> nth_error xs i = Some x ->
  exists y, nth_error ys i = Some y /\ f x = Ok y.
Proof.
  revert ys i; induction xs as [|x0 xs IH]; intros ys i H Hx.
  - destruct i; discriminate.
  - simpl in H. inv_bind H. inv_bind H. inv_ok H.
    destruct i as [|i]; simpl in *.
    + inv_ok Hx. eauto.
    + eauto.
Qed.

(** ** The padding primitive *)

Section CollateFacts.

Context {F : Type} (of_long : Z -> F) (to_long : F -> Z).

Local Abbreviation collate_vectors := (collate_vectors of_long to_long).
Local Abbreviation collate_vectors_lhotse := (collate_vectors_lhotse of_long to_long).

Lemma longest_in (best : tensor1 F) (ts : list (tensor1 F)) :
  In (longest best ts) (best :: ts).
Proof.
  revert best; induction ts as [|t ts IH]; intro best; simpl; [auto|].
  destruct (IH (if (size1 best <? size1 t)%nat then t else best)) as [H|H].
  - destruct (size1 best <? size1 t)%nat; [right; left | left]; exact H.
  - right; right; exact H.
Qed.

Lemma longest_ge (best : tensor1 F) (ts : list (tensor1 F)) (t : tensor1 F) :
  In t (best :: ts) -> (size1 t <= size1 (longest best ts))%nat.
Proof.
  revert best t; induction ts as [|t' ts IH]; intros best t Hin; simpl.
  - destruct Hin as [->|[]]; lia.
  - pose proof (IH (if (size1 best <? size1 t')%nat then t' else best) _
                   (or_introl eq_refl)) as Hbest.
    destruct Hin as [->|[->|Hin]].
    + destruct (Nat.ltb_spec (size1 t) (size1 t')); lia.
    + destruct (Nat.ltb_spec (size1 best) (size1 t)); lia.
    + apply IH; right; exact Hin.
Qed.

Lemma pad_row_extend {A} (n k : nat) (p : A) (l : list A) :
  (length l <= n)%nat -> pad_row n p l ++ repeat p k = l ++ repeat p (n + k - length l).
Proof.
  intro H. unfold pad_row. rewrite <- app_assoc, <- repeat_app.
  do 2 f_equal. lia.
Qed.

Lemma pad_row_length {A} (n : nat) (p : A) (l : list A) :
  (length l <= n)%nat -> length (pad_row n p l) = n.
Proof. intro H. unfold pad_row. rewrite length_app, repeat_length. lia. Qed.

(** Width of the result of the lhotse primitive: the longest item. *)
Lemma collate_vectors_lhotse_shape (items : list (tensor1 F)) (p : pyscalar F) (v : tensor2 F) :
  collate_vectors_lhotse items p = Ok v ->
  exists t0 rest, items = t0 :: rest /\
    size2_0 v = length items /\ size2_1 v = size1 (longest t0 rest) /\
    Forall (fun r => length r = size1 (longest t0 rest)) (long_rows to_long v).
Proof.
  destruct items as [|t0 rest]; [discriminate|].
  intro H. exists t0, rest. split; [reflexivity|].
  assert (Hle : forall t, In t (t0 :: rest) -> (size1 t <= size1 (longest t0 rest))%nat)
    by (intros; now apply longest_ge).
  assert (Hl : forall t, length (as_long to_long t) = size1 t)
    by (intros [l|l]; simpl; [reflexivity | apply length_map]).
  assert (Hf : forall t, length (as_float of_long t) = size1 t)
    by (intros [l|l]; simpl; [apply length_map | reflexivity]).
  expose collate_vectors_lhotse in H.
  set (n := size1 (longest t0 rest)) in *.
  assert (Hlong : forall q, Forall (fun r => length r = n)
            (map (fun t => pad_row n q (as_long to_long t)) (t0 :: rest))).
  { intro q. apply Forall_map, Forall_forall. intros t Ht.
    apply pad_row_length. rewrite Hl. now apply Hle. }
  assert (Hfloat : forall q, Forall (fun r => length r = n)
            (map (map to_long) (map (fun t => pad_row n q (as_float of_long t)) (t0 :: rest)))).
  { intro q. rewrite map_map. apply Forall_map, Forall_forall. intros t Ht.
    rewrite length_map. apply pad_row_length. rewrite Hf. now apply Hle. }
  assert (H0l : forall q, length (pad_row n q (as_long to_long t0)) = n)
    by (intro q; apply pad_row_length; rewrite Hl; apply Hle; now left).
  assert (H0f : forall q, length (pad_row n q (as_float of_long t0)) = n)
    by (intro q; apply pad_row_length; rewrite Hf; apply Hle; now left).
  destruct (longest t0 rest) as [l|l], p as [z|f]; inv_ok H;
    cbn [size2_0 size2_1 long_rows width map length];
    rewrite ?length_map, ?H0l, ?H0f; repeat split; auto;
    first [apply (Hlong z) | apply (Hfloat f) | apply (Hfloat (of_long z))].
Qed.

Lemma width_map {A B} (g : A -> list B) (x : A) (xs : list A) :
  width (map g (x :: xs)) = length (g x).
Proof. reflexivity. Qed.

Lemma size2_1_long_rows (v : tensor2 F) : size2_1 v = width (long_rows to_long v).
Proof. destruct v as [[|r rows]|[|r rows]]; simpl; auto using length_map. Qed.

Lemma size2_0_long_rows (v : tensor2 F) : size2_0 v = length (long_rows to_long v).
Proof. destruct v as [rows|rows]; simpl; auto using length_map. Qed.

Lemma width_Forall {A} (n : nat) (rows : list (list A)) :
  rows <> [] -> Forall (fun r => length r = n) rows -> width rows = n.
Proof. destruct rows; [congruence|]. intros _ H; inversion H; auto. Qed.

Lemma extend_columns_rows (v : tensor2 F) (k n : nat) (p : pyscalar F) :
  Forall (fun r => length r = n) (long_rows to_long v) ->
  length (long_rows to_long (extend_columns of_long v k p)) = length (long_rows to_long v) /\
  Forall (fun r => length r = (n + k)%nat) (long_rows to_long (extend_columns of_long v k p)).
Proof.
  destruct v as [rows|rows], p as [z|f]; simpl; rewrite ?length_map, ?map_map;
    intro H; (split; [reflexivity|]);
    rewrite ?Forall_map in *; (eapply Forall_impl; [|exact H]); cbv beta; intros r Hr;
    rewrite ?length_map, ?length_app, ?repeat_length, ?length_map in *; lia.
Qed.

(** The result of [collate_vectors] is rectangular, has a row per item
    and is at least as wide as every item. *)
Lemma collate_vectors_shape (items : list (tensor1 F)) (L : Z) (p : pyscalar F) (v : tensor2 F) :
  collate_vectors items L p = Ok v ->
  items <> [] /\ size2_0 v = length items /\
  Forall (fun r => length r = size2_1 v) (long_rows to_long v) /\
  (forall t, In t items -> (size1 t <= size2_1 v)%nat) /\
  (L <= Z.of_nat (size2_1 v)).
Proof.
  expose collate_vectors. intro H. inv_bind H.
  destruct (collate_vectors_lhotse_shape _ _ E) as (t0 & rest & -> & H0 & H1 & Hrows).
  set (n := size1 (longest t0 rest)) in *.
  assert (Hge : forall t, In t (t0 :: rest) -> (size1 t <= n)%nat)
    by (intros; now apply longest_ge).
  set (k := Z.to_nat (L - Z.of_nat (size2_1 x))) in *.
  set (w := if Z.of_nat (size2_1 x) <? L then extend_columns of_long x k p else x) in *.
  assert (Hw : length (long_rows to_long w) = length (t0 :: rest) /\
               exists m, Forall (fun r => length r = m) (long_rows to_long w) /\
                         (n <= m)%nat /\ L <= Z.of_nat m).
  { subst w. destruct (Z.ltb_spec (Z.of_nat (size2_1 x)) L) as [Hlt|Hnl].
    - destruct (extend_columns_rows x k p Hrows) as (E0 & E1).
      rewrite E0, <- size2_0_long_rows, H0. split; [reflexivity|].
      exists (n + k)%nat. split; [exact E1|]. subst k. rewrite H1. fold n. lia.
    - rewrite <- size2_0_long_rows, H0. split; [reflexivity|].
      exists n. split; [exact Hrows|]. rewrite H1 in Hnl. fold n in Hnl. lia. }
  destruct Hw as (Hlen & m & Hm & Hnm & HLm).
  assert (Hlong : long_rows to_long (long to_long w) = long_rows to_long w) by reflexivity.
  assert (Hne : long_rows to_long w <> []).
  { intro Hnil. rewrite Hnil in Hlen. discriminate. }
  assert (Hres : forall u, long_rows to_long u = long_rows to_long w ->
            (t0 :: rest) <> [] /\ size2_0 u = length (t0 :: rest) /\
            Forall (fun r => length r = size2_1 u) (long_rows to_long u) /\
            (forall t, In t (t0 :: rest) -> (size1 t <= size2_1 u)%nat) /\
            (L <= Z.of_nat (size2_1 u))).
  { intros u Hu.
    assert (Hwu : size2_1 u = m).
    { rewrite size2_1_long_rows, Hu. now apply width_Forall. }
    rewrite size2_0_long_rows, Hu, Hwu. repeat split; auto; try discriminate.
    intros t Ht. specialize (Hge t Ht). lia. }
  destruct (size1 t0 <? 1)%nat; inv_ok H; apply Hres; auto.
Qed.

(** [C7]  When the first item of the list is an empty sequence, the
    padding primitive succeeds and its output has an integer dtype
    (int64), whatever the dtype of the items and of the pad value:
    line 26 casts the collated tensor with [.long()]. *)
Theorem collate_vectors_empty_first_is_integer
        (t0 : tensor1 F) (rest : list (tensor1 F)) (L : Z) (p : pyscalar F) :
  size1 t0 = 0%nat ->
  exists v, collate_vectors (t0 :: rest) L p = Ok v /\ dtype2 v = Int64.
Proof.
  intro H0. expose collate_vectors; expose collate_vectors_lhotse.
  rewrite H0.
  destruct (longest t0 rest) as [l|l], p as [z|f]; cbn [bind Nat.ltb Nat.leb];
    eexists; split; reflexivity.
Qed.

End CollateFacts.

(** The empty first item of a float batch: the output is int64. *)
Lemma collate_vectors_empty_first_is_integer_witness :
  size1 (TFloat (@nil Binary32.float32)) = 0%nat /\
  exists v, collate_vectors Binary32.of_long Binary32.to_long
              [TFloat []; TFloat [Binary32.fhalf; Binary32.fone]] 2 (PyFloat Binary32.fzero)
            = Ok v /\ dtype2 v = Int64.
Proof.
  split; [reflexivity|].
  apply (collate_vectors_empty_first_is_integer Binary32.of_long Binary32.to_long
           (TFloat []) [TFloat [Binary32.fhalf; Binary32.fone]] 2 (PyFloat Binary32.fzero)).
  reflexivity.
Defined.

Section PaddingFacts.

Context {F : Type} (of_long : Z -> F) (to_long : F -> Z).

Local Abbreviation collate_vectors := (collate_vectors of_long to_long).

(** The two steps of the primitive, padding to the longest item and
    then to [max_length], add up to one padding to [L]. *)
Lemma pad_rows_to {A B} (g : A -> list B) (q : B) (n L : nat) (items : list A) :
  (forall t, In t items -> (length (g t) <= n)%nat) -> (n <= L)%nat ->
  (if Z.of_nat n <? Z.of_nat L
   then map (fun r => r ++ repeat q (Z.to_nat (Z.of_nat L - Z.of_nat n)))
            (map (fun t => pad_row n q (g t)) items)
   else map (fun t => pad_row n q (g t)) items)
  = map (fun t => g t ++ repeat q (L - length (g t))) items.
Proof.
  intros Hle HnL. destruct (Z.ltb_spec (Z.of_nat n) (Z.of_nat L)) as [Hlt|Hge].
  - rewrite map_map. apply map_ext_in. intros t Ht.
    rewrite pad_row_extend by auto. do 2 f_equal. specialize (Hle t Ht). lia.
  - assert (n = L) by lia. subst n. reflexivity.
Qed.

Lemma same_kind_int (t : tensor1 F) (z : Z) :
  same_kind t (PyInt F z) = true -> exists l, t = TLong F l.
Proof. destruct t; simpl; [eauto | discriminate]. Qed.

Lemma same_kind_float (t : tensor1 F) (f : F) :
  same_kind t (PyFloat f) = true -> exists l, t = TFloat l.
Proof. destruct t; simpl; [discriminate | eauto]. Qed.


End PaddingFacts.



(** ** Lists and slices *)

Lemma nth_error_tl {A} (l : list A) (t : nat) : nth_error (tl l) t = nth_error l (S t).
Proof. destruct l; [destruct t|]; reflexivity. Qed.

Lemma nth_error_removelast {A} (l : list A) (t : nat) :
  (S t < length l)%nat -> nth_error (removelast l) t = nth_error l t.
Proof.
  revert t; induction l as [|a l IH]; intros t H; [simpl in H; lia|].
  destruct l as [|b l]; [simpl in H; lia|].
  destruct t as [|t]; [reflexivity|].
  change (nth_error (removelast (b :: l)) t = nth_error (b :: l) t).
  apply IH. simpl in *; lia.
Qed.

Lemma map_const_repeat {A B} (b : B) (l : list A) : map (fun _ => b) l = repeat b (length l).
Proof. induction l; simpl; congruence. Qed.

Lemma last_cut_ok {A} (l : list A) : l <> [] -> exists c, last_cut l = Ok c.
Proof.
  intro H. unfold last_cut. destruct (rev l) eqn:E; [|eauto].
  apply (f_equal (@rev A)) in E. rewrite rev_involutive in E. simpl in E. congruence.
Qed.

Lemma last_cut_in {A} (l : list A) (c : A) : last_cut l = Ok c -> In c l.
Proof.
  unfold last_cut. destruct (rev l) eqn:E; intro H; [discriminate|]. inv_ok H.
  apply in_rev. rewrite E. now left.
Qed.

Lemma py_max_ok (xs : list Z) (m : Z) : py_max xs = Ok m -> xs <> [].
Proof. destruct xs; simpl; [discriminate | discriminate]. Qed.

Lemma take_length_le {A} (n : Z) (l : list A) : (length (take n l) <= length l)%nat.
Proof. unfold take. rewrite length_firstn. lia. Qed.

Lemma on_prefix_length {A} (n : Z) (f : A -> A) (l : list A) :
  length (on_prefix n f l) = length l.
Proof.
  unfold on_prefix, take, drop. rewrite length_app, length_map, length_firstn, length_skipn. lia.
Qed.

(** ** [__getitem__] *)

Section GetItemFacts.

Context {F : Type} (of_long : Z -> F) (to_long : F -> Z) (fzero fone : F).
Context (sort_by_duration : list (Cut F) -> list (Cut F)).
Context (re_findall_time : string -> list Z) (re_sub_time collapse_spaces : string -> string).
Context (split : string -> list string) (ceil_to_nearest : Z -> Z -> Z).
Context (discretize_time codec_frames : Z -> Z).
Context (self : Dataset).

Local Abbreviation tokenize_cut :=
  (@tokenize_cut F re_findall_time re_sub_time collapse_spaces split self).
Local Abbreviation tokenize_cuts :=
  (@tokenize_cuts F re_findall_time re_sub_time collapse_spaces split self).
Local Abbreviation load_source_audio := (load_source_audio of_long to_long fzero).
Local Abbreviation build_target_codec :=
  (build_target_codec of_long to_long fzero codec_frames self).
Local Abbreviation convert_text := (_convert_text_to_3d_tensor of_long to_long ceil_to_nearest self).
Local Abbreviation collate_and_pad_1d := (collate_and_pad_1d of_long to_long ceil_to_nearest self).
Local Abbreviation assemble := (assemble to_long discretize_time self).
Local Abbreviation assemble_s2s_align := (assemble_s2s_align to_long discretize_time self).
Local Abbreviation prepare :=
  (prepare of_long to_long fzero sort_by_duration re_findall_time re_sub_time collapse_spaces
           split ceil_to_nearest discretize_time codec_frames self).
Local Abbreviation getitem :=
  (getitem of_long to_long fzero fone sort_by_duration re_findall_time re_sub_time
           collapse_spaces split ceil_to_nearest discretize_time codec_frames self).
Local Abbreviation dispatched_mode := (dispatched_mode sort_by_duration).

(** *** The final trim *)

Lemma getitem_ok (cuts : list (Cut F)) (b : batch F) :
  getitem cuts = Ok b -> exists pb, prepare cuts = Ok pb /\ b = return_batch fone pb.
Proof.
  expose getitem. intro H. inv_bind H. inv_ok H. eauto.
Qed.

(** [C9]  In every returned batch the [answers] field is the [labels]
    field: both are [tokens[:, 1:, :]] of the assembled sequence. *)
Theorem answers_are_labels (cuts : list (Cut F)) (b : batch F) :
  getitem cuts = Ok b ->
  answers b = labels b /\
  exists pb, prepare cuts = Ok pb /\
             labels b = drop_first_step (as_tokens (pb_assembled pb)).
Proof.
  intro H. destruct (getitem_ok _ H) as (pb & Hpb & ->).
  split; [reflexivity|]. exists pb. split; [exact Hpb | reflexivity].
Qed.


(** *** Inversion of a successful run *)

Lemma convert_text_inv (texts : list (tensor1 F)) (include_eos : bool) (ttg : Z)
      (t : tensor2 F) (lens : list Z) (e : list (list (list Z))) :
  convert_text texts include_eos ttg = Ok (t, lens, e) ->
  lens = map (fun s => Z.of_nat (size1 s)) texts /\
  exists max_length filled,
    collate_vectors of_long to_long texts max_length (PyInt F (text_pad_id self)) = Ok t /\
    (exists empty,
       get_3d_empty_tensor self (size2_0 t) (Z.of_nat (size2_1 t) + 1 + ttg)
                           (text_pad_id self) (speech_pad_id self) = Ok empty /\
       fill_texts self empty (long_rows to_long t) lens = Ok filled) /\
    e = if include_eos then filled else drop_last_step filled.
Proof.
  expose _convert_text_to_3d_tensor; expose collate_and_pad_1d. intro H.
  inv_bind H. destruct x as (t' & lens'). inv_bind E. inv_bind E. inv_ok E.
  cbn zeta in H. inv_bind H. inv_bind H. inv_ok H.
  split; [reflexivity|]. eauto 10.
Qed.

Lemma prepare_inv (cuts : list (Cut F)) (pb : pre_batch F) :
  prepare cuts = Ok pb ->
  run of_long to_long fzero sort_by_duration re_findall_time re_sub_time collapse_spaces
      split ceil_to_nearest discretize_time codec_frames self cuts pb.
Proof.
  expose prepare. intro H.
  inv_bind H. inv_bind H. destruct x0 as (a & al). cbn zeta in H.
  inv_bind H. inv_bind H. destruct x1 as ((tt_ & ttl) & tte). cbn zeta in H.
  inv_bind H. destruct x1 as ((it & itl) & iene). cbn zeta in H.
  inv_bind H. inv_bind H. inv_bind H. inv_ok H.
  econstructor; cbn; eauto.
Qed.

Lemma tokenize_cuts_length (cuts : list (Cut F)) (exs : list (example F)) :
  tokenize_cuts cuts = Ok exs -> length exs = length cuts.
Proof. apply mapM_length. Qed.

(** *** [s2s_align]: the target text lengths *)

(** [C10]  When the batch is assembled in [s2s_align] mode, the
    returned [target_text_lengths] holds [-1] for every example of the
    batch (one per sample id): line 454 replaces the tokenized lengths. *)
Theorem align_target_text_lengths (cuts : list (Cut F)) (b : batch F) :
  getitem cuts = Ok b ->
  dispatched_mode cuts = Some S2S_align ->
  target_text_lengths b = repeat (-1) (length (sample_ids b)).
Proof.
  intros H Hmode. destruct (getitem_ok _ H) as (pb & Hpb & ->).
  destruct (prepare_inv _ Hpb) as [exs cut ex ttl tte Htok _ _ Htt _ Hcut _ Hasm Hcuts].
  expose dispatched_mode in Hmode. rewrite Hcut in Hmode.
  expose assemble in Hasm. rewrite Hmode in Hasm.
  expose assemble_s2s_align in Hasm.
  inv_bind Hasm. inv_bind Hasm. destruct x0 as (tokens_ & lens_). inv_ok Hasm.
  cbn [target_text_lengths sample_ids return_batch]. rewrite <- Hasm. cbn [as_target_text_lengths].
  destruct (convert_text_inv _ _ _ Htt) as (-> & _).
  rewrite map_const_repeat, !length_map, Hcuts.
  now rewrite (tokenize_cuts_length _ Htok).
Qed.

(** *** Preconditions on the configuration *)

Lemma load_source_audio_nonempty (cuts : list (Cut F)) (a : tensor2 F * list Z) :
  load_source_audio cuts = Ok a -> cuts <> [].
Proof.
  expose load_source_audio. intro H. inv_bind H.
  apply py_max_ok in E. intros ->. now apply E.
Qed.

Lemma build_target_codec_asserts (cuts : list (Cut F)) :
  cuts <> [] ->
  load_answer_audio self = false \/ decoder_reduction_factor self <> 1 ->
  build_target_codec cuts = Raise AssertionError.
Proof.
  intros Hne Hcfg. expose build_target_codec.
  destruct (load_answer_audio self); [|reflexivity].
  destruct Hcfg as [Hcfg|Hcfg]; [discriminate|].
  destruct (last_cut_ok Hne) as (c & ->). cbn [py_assert bind].
  destruct (direct_s2s c); [reflexivity|]. cbn [negb bind].
  destruct (Z.eqb_spec (decoder_reduction_factor self) 1); [contradiction | reflexivity].
Qed.

(** [C8, amended]  Unless the dataset was built with
    [load_answer_audio = True] and [decoder_reduction_factor = 1], no
    call of [__getitem__] returns a batch: every call raises.  The
    exception is the assertion error of line 308 or 334 whenever the
    call gets that far, that is whenever tokenization of the turns and
    collation of the source audio succeeded. *)
Theorem getitem_requires_answer_audio (cuts : list (Cut F)) :
  load_answer_audio self = false \/ decoder_reduction_factor self <> 1 ->
  (exists e, getitem cuts = Raise e) /\
  (forall exs a,
      tokenize_cuts (sort_by_duration cuts) = Ok exs ->
      load_source_audio (sort_by_duration cuts) = Ok a ->
      getitem cuts = Raise AssertionError).
Proof.
  intro Hcfg.
  assert (Hlate : forall exs a,
             tokenize_cuts (sort_by_duration cuts) = Ok exs ->
             load_source_audio (sort_by_duration cuts) = Ok a ->
             getitem cuts = Raise AssertionError).
  { intros exs a Htok Haudio. expose getitem; expose prepare.
    rewrite Htok, Haudio. cbn [bind]. destruct a as (a & al). cbn zeta.
    rewrite build_target_codec_asserts; auto.
    eapply load_source_audio_nonempty; eauto. }
  split; [|exact Hlate].
  destruct (tokenize_cuts (sort_by_duration cuts)) as [exs|e] eqn:Htok.
  - destruct (load_source_audio (sort_by_duration cuts)) as [a|e] eqn:Haudio.
    + exists AssertionError. eauto.
    + exists e. expose getitem; expose prepare. rewrite Htok, Haudio. reflexivity.
  - exists e. expose getitem; expose prepare. rewrite Htok. reflexivity.
Qed.

(** *** The order of the speakers *)

Lemma tokenize_cut_checks_speakers (c : Cut F) :
  first_speaker_is_user c = false \/ second_speaker_is_agent c = false ->
  exists e, tokenize_cut c = Raise e.
Proof.
  unfold first_speaker_is_user; unfold second_speaker_is_agent; expose tokenize_cut.
  destruct (supervisions c) as [|s0 [|s1 sups]]; cbn [nth_or_raise nth_error bind];
    intros [H|H]; try discriminate; eauto;
    try (rewrite H; cbn [bind]; eauto);
    destruct (speaker s0 =? "user")%string; cbn [bind]; eauto;
    rewrite ?H; eauto.
Qed.

(** [C5]  If some example of the batch has a first turn whose speaker
    is not "user" or a second turn whose speaker is not "agent",
    [__getitem__] raises and returns no batch. *)
Theorem wrong_speaker_order_raises (cuts : list (Cut F)) (c : Cut F) :
  (forall l, Permutation (sort_by_duration l) l) ->
  In c cuts ->
  first_speaker_is_user c = false \/ second_speaker_is_agent c = false ->
  exists e, getitem cuts = Raise e.
Proof.
  intros Hsort Hin Hc.
  assert (Hin' : In c (sort_by_duration cuts))
    by (eapply Permutation_in; [apply Permutation_sym, Hsort | exact Hin]).
  destruct (mapM_raises tokenize_cut _ _ Hin' (tokenize_cut_checks_speakers _ Hc)) as (e & He).
  exists e. expose getitem; expose prepare; expose tokenize_cuts. rewrite He. reflexivity.
Qed.

End GetItemFacts.

(** *** The demo dataset *)

Lemma demo_insert_cut_perm (c : Demo.Cut) (cs : list Demo.Cut) :
  Permutation (Demo.insert_cut c cs) (c :: cs).
Proof.
  induction cs as [|d cs IH]; simpl; [reflexivity|].
  destruct (length (audio d) <=? length (audio c))%nat; [reflexivity|].
  etransitivity; [apply perm_skip, IH | apply perm_swap].
Qed.

Lemma demo_sort_by_duration_perm (cs : list Demo.Cut) :
  Permutation (Demo.sort_by_duration cs) cs.
Proof.
  induction cs as [|c cs IH]; simpl; [reflexivity|].
  etransitivity; [apply demo_insert_cut_perm | now apply perm_skip].
Qed.

(** An [s2s] batch of two cuts: [answers] and [labels] coincide. *)
Lemma answers_are_labels_witness :
  exists b,
    Demo.getitem (Demo.dataset false true 1) (Demo.two_cuts S2S) = Ok b /\
    answers b = labels b.
Proof.
  destruct (Demo.getitem (Demo.dataset false true 1) (Demo.two_cuts S2S)) as [b|e] eqn:E;
    [|vm_compute in E; discriminate].
  exists b. split; [reflexivity|].
  exact (proj1 (answers_are_labels _ _ _ _ _ _ _ _ _ _ _ _ _ _ E)).
Defined.


(** An [s2s_align] batch of two cuts: both lengths are [-1]. *)
Lemma align_target_text_lengths_witness :
  exists b,
    Demo.getitem (Demo.dataset false true 1) (Demo.two_cuts S2S_align) = Ok b /\
    dispatched_mode Demo.sort_by_duration (Demo.two_cuts S2S_align) = Some S2S_align /\
    target_text_lengths b = [-1; -1].
Proof.
  destruct (Demo.getitem (Demo.dataset false true 1) (Demo.two_cuts S2S_align)) as [b|e] eqn:E;
    [|vm_compute in E; discriminate].
  exists b. split; [reflexivity|]. split; [reflexivity|].
  rewrite (align_target_text_lengths _ _ _ _ _ _ _ _ _ _ _ _ _ _ E eq_refl).
  vm_compute in E. inv_ok E. reflexivity.
Defined.

(** Without answer audio, a well-formed [s2s] batch stops at the
    assertion of line 308. *)
Lemma getitem_requires_answer_audio_witness :
  (load_answer_audio (Demo.dataset false false 1) = false \/
   decoder_reduction_factor (Demo.dataset false false 1) <> 1) /\
  Demo.getitem (Demo.dataset false false 1) (Demo.two_cuts S2S) = Raise AssertionError.
Proof.
  split; [left; reflexivity|].
  eapply (proj2 (getitem_requires_answer_audio
                   Binary32.of_long Binary32.to_long Binary32.fzero Binary32.fone
                   Demo.sort_by_duration Demo.re_findall_time Demo.re_sub_time
                   Demo.collapse_spaces Demo.split Demo.ceil_to_nearest
                   (Binary32.discretize_time Demo.frame_rate Demo.timestamp_resolution)
                   (Binary32.codec_frames Demo.downsampling)
                   (Demo.dataset false false 1) (Demo.two_cuts S2S)
                   (or_introl eq_refl))).
  - vm_compute. reflexivity.
  - vm_compute. reflexivity.
Defined.

(** [C8, as stated, fails]  Without answer audio, a batch whose first
    turn is spoken by the agent raises the speaker exception of line
    221, not an assertion error. *)
Lemma wrong_speaker_precedes_assertion :
  load_answer_audio (Demo.dataset false false 1) = false /\
  Demo.getitem (Demo.dataset false false 1) [Demo.swapped_cut]
  = Raise (Exception "First speaker should be user") /\
  Demo.getitem (Demo.dataset false false 1) [Demo.swapped_cut] <> Raise AssertionError.
Proof.
  split; [reflexivity|]. split; [vm_compute; reflexivity|].
  vm_compute. discriminate.
Qed.

(** A batch whose second cut has its turns swapped. *)
Lemma wrong_speaker_order_raises_witness :
  (forall l, Permutation (Demo.sort_by_duration l) l) /\
  In Demo.swapped_cut [Demo.first_cut S2S; Demo.swapped_cut] /\
  (first_speaker_is_user Demo.swapped_cut = false \/
   second_speaker_is_agent Demo.swapped_cut = false) /\
  exists e, Demo.getitem (Demo.dataset false true 1) [Demo.first_cut S2S; Demo.swapped_cut]
            = Raise e.
Proof.
  split; [exact demo_sort_by_duration_perm|].
  split; [right; left; reflexivity|].
  split; [left; reflexivity|].
  apply (wrong_speaker_order_raises
           Binary32.of_long Binary32.to_long Binary32.fzero Binary32.fone
           Demo.sort_by_duration Demo.re_findall_time Demo.re_sub_time
           Demo.collapse_spaces Demo.split Demo.ceil_to_nearest
           (Binary32.discretize_time Demo.frame_rate Demo.timestamp_resolution)
           (Binary32.codec_frames Demo.downsampling)
           (Demo.dataset false true 1)
           [Demo.first_cut S2S; Demo.swapped_cut] Demo.swapped_cut
           demo_sort_by_duration_perm).
  - right; left; reflexivity.
  - left; reflexivity.
Defined.

(** ** Shapes of the assembled tensors *)

Lemma fold_max_ge (xs : list Z) (a : Z) :
  a <= fold_left Z.max xs a /\ forall x, In x xs -> x <= fold_left Z.max xs a.
Proof.
  revert a; induction xs as [|y xs IH]; intro a; simpl.
  - split; [lia | tauto].
  - destruct (IH (Z.max a y)) as (H1 & H2). split; [lia|].
    intros x [<-|Hx]; [lia | auto].
Qed.

Lemma py_max_ge (xs : list Z) (m : Z) :
  py_max xs = Ok m -> forall x, In x xs -> x <= m.
Proof.
  destruct xs as [|a xs]; simpl; intro H; [discriminate|]. inv_ok H.
  intros x [Hx|Hx]; [subst x; apply (proj1 (fold_max_ge xs a)) | now apply (proj2 (fold_max_ge xs a))].
Qed.

Lemma fold_max_in (xs : list Z) (a : Z) : In (fold_left Z.max xs a) (a :: xs).
Proof.
  revert a; induction xs as [|y xs IH]; intro a; simpl; [auto|].
  destruct (IH (Z.max a y)) as [H|H]; [|auto].
  rewrite <- H. destruct (Z.max_spec a y) as [(_ & ->)|(_ & ->)]; auto.
Qed.

Lemma py_max_in (xs : list Z) (m : Z) : py_max xs = Ok m -> In m xs.
Proof.
  destruct xs as [|a xs]; simpl; intro H; [discriminate|]. inv_ok H. apply fold_max_in.
Qed.

Lemma full_ok {A} (n : Z) (v : A) (l : list A) :
  full n v = Ok l -> 0 <= n /\ l = repeat v (Z.to_nat n).
Proof.
  unfold full. destruct (Z.ltb_spec n 0) as [Hn|Hn]; intro H; [discriminate|]. inv_ok H. auto.
Qed.

Lemma zip_with_repeat_l {A B C} (f : A -> B -> C) (a : A) (l : list B) :
  zip_with f (repeat a (length l)) l = map (f a) l.
Proof. induction l; simpl; congruence. Qed.

Lemma zip_with_length {A B C} (f : A -> B -> C) (xs : list A) (ys : list B) :
  length (zip_with f xs ys) = Nat.min (length xs) (length ys).
Proof. revert ys; induction xs; destruct ys; simpl; auto. Qed.

Lemma skipn_repeat {A} (k n : nat) (a : A) : skipn k (repeat a n) = repeat a (n - k).
Proof. revert n; induction k; destruct n; simpl; auto. Qed.

Section ShapeFacts.

Context (self : Dataset).

Lemma get_3d_empty_tensor_ok (B : nat) (n tf sf : Z) (t : list (list (list Z))) :
  get_3d_empty_tensor self B n tf sf = Ok t ->
  0 <= channels self /\ 0 <= n /\
  t = repeat (repeat (tf :: repeat sf (Z.to_nat (channels self))) (Z.to_nat n)) B.
Proof.
  unfold get_3d_empty_tensor. intro H. inv_bind H. inv_bind H. inv_ok H.
  apply full_ok in E as (? & ->). apply full_ok in E0 as (? & ->). auto.
Qed.

(** [collate_and_pad] on 2-D inputs pads every example with pad steps
    up to the longest one. *)
Lemma collate_and_pad_2d_ok (inputs : list (list (list Z))) (tokens : list (list (list Z)))
      (lens : list Z) :
  collate_and_pad_2d self inputs = Ok (tokens, lens) ->
  inputs <> [] /\ 0 <= channels self /\
  exists T : nat,
    (forall ex, In ex inputs -> (length ex <= T)%nat) /\
    (exists ex, In ex inputs /\ length ex = T) /\
    tokens = map (fun src => src ++ repeat (pad_step self) (T - length src)) inputs.
Proof.
  unfold collate_and_pad_2d. intro H. inv_bind H. inv_bind H. inv_ok H.
  pose proof (@py_max_ok _ _ E) as Hne.
  pose proof (@py_max_ge _ _ E) as Hge.
  pose proof (@py_max_in _ _ E) as Hin.
  apply get_3d_empty_tensor_ok in E0 as (Hc & Hx & ->).
  split; [intros ->; now apply Hne|]. split; [exact Hc|].
  exists (Z.to_nat x). split; [|split].
  - intros ex Hex. specialize (Hge _ (in_map (fun s => Z.of_nat (length s)) _ _ Hex)).
    cbv beta in Hge. lia.
  - apply in_map_iff in Hin as (ex & Hex & Hin). exists ex. split; [exact Hin | lia].
  - rewrite zip_with_repeat_l. apply map_ext. intro src. now rewrite skipn_repeat.
Qed.

Lemma collate_and_pad_2d_width (inputs tokens : list (list (list Z))) (lens : list Z) :
  collate_and_pad_2d self inputs = Ok (tokens, lens) ->
  tokens <> [] /\ length tokens = length inputs /\
  Forall (fun ex => length ex = width tokens) tokens.
Proof.
  intro H. destruct (@collate_and_pad_2d_ok _ _ _ H) as (Hne & _ & T & Hle & _ & ->).
  assert (Hall : Forall (fun ex : list (list Z) => length ex = T)
                   (map (fun src => src ++ repeat (pad_step self) (T - length src)) inputs)).
  { apply Forall_map, Forall_forall. intros ex Hex.
    rewrite length_app, repeat_length. specialize (Hle _ Hex). lia. }
  destruct inputs as [|i0 inputs]; [congruence|].
  split; [discriminate|]. split; [apply length_map|].
  rewrite width_map. inversion Hall as [|? ? H0 _]; subst. rewrite H0. exact Hall.
Qed.

(** Masking the instruction prefix keeps the shape of a mask. *)
Lemma mask_prefix_shape (itl : Z) (m : list (list (list bool))) :
  length (mask_prefix itl m) = length m /\ width (mask_prefix itl m) = width m.
Proof.
  unfold mask_prefix. split; [apply length_map|].
  destruct m as [|ex m]; [reflexivity|]. rewrite width_map. apply on_prefix_length.
Qed.

Lemma mask_instructions_shape (itls : list Z) (m : list (list (list bool))) :
  length (mask_instructions itls m) = length m /\ width (mask_instructions itls m) = width m.
Proof.
  unfold mask_instructions. revert m; induction itls as [|itl itls IH]; intro m; simpl; [auto|].
  destruct (IH (mask_prefix itl m)) as (H1 & H2).
  destruct (mask_prefix_shape itl m) as (H3 & H4). split; congruence.
Qed.

Lemma mask_context_shape (itls : list Z) (m : list (list (list bool))) :
  length (mask_context self itls m) = length m /\ width (mask_context self itls m) = width m.
Proof.
  unfold mask_context. destruct (negb (t5_style self)); [apply mask_instructions_shape | auto].
Qed.

(** *** The text-only branch *)

(** In the [s2t] branch the speech mask has one time step less than
    the text mask, and [torch.cat] along the last dimension refuses
    them. *)
Lemma assemble_s2t_raises (target_text_lengths : list Z)
      (target_texts_expanded : list (list (list Z)))
      (instruction_lengths : list Z) (instructions_expanded_no_eos : list (list (list Z)))
      (instruction_length : Z) :
  exists e,
    assemble_s2t self target_text_lengths target_texts_expanded instruction_lengths
                 instructions_expanded_no_eos instruction_length = Raise e.
Proof.
  unfold assemble_s2t.
  match goal with |- context [collate_and_pad_2d self ?l] =>
    destruct (collate_and_pad_2d self l) as [(tokens_ & lens)|e] eqn:E end;
    [|exists e; reflexivity].
  cbn [bind]. cbn zeta.
  destruct (full (Z.of_nat (width tokens_) - 1) (repeat false (width (hd [] tokens_))))
    as [zeros|e] eqn:Ez; [|exists e; reflexivity].
  cbn [bind].
  apply full_ok in Ez as (Hpos & ->).
  destruct (@collate_and_pad_2d_width _ _ _ E) as (Hne & _ & _).
  exists RuntimeError. unfold cat_dim2.
  destruct (mask_context_shape instruction_lengths (text_ne (text_pad_id self) tokens_))
    as (_ & ->).
  match goal with |- context [mask_context self ?i (repeat ?z ?n)] =>
    destruct (mask_context_shape i (repeat z n)) as (_ & ->) end.
  destruct tokens_ as [|ex tokens_]; [congruence|].
  cbn [length repeat width text_ne map]. rewrite !length_map, repeat_length.
  destruct (Nat.eqb_spec (length ex) (Z.to_nat (Z.of_nat (length ex) - 1))) as [Heq|Hneq].
  - cbn [width length] in Hpos. lia.
  - rewrite andb_false_r. reflexivity.
Qed.

End ShapeFacts.

Section TextOnlyFacts.

Context {F : Type} (of_long : Z -> F) (to_long : F -> Z) (fzero fone : F).
Context (sort_by_duration : list (Cut F) -> list (Cut F)).
Context (re_findall_time : string -> list Z) (re_sub_time collapse_spaces : string -> string).
Context (split : string -> list string) (ceil_to_nearest : Z -> Z -> Z).
Context (discretize_time codec_frames : Z -> Z).
Context (self : Dataset).

(** No batch dispatched to the [s2t] branch is ever returned. *)
Lemma s2t_never_returns (cuts : list (Cut F)) :
  dispatched_mode sort_by_duration cuts = Some S2T ->
  exists e,
    getitem of_long to_long fzero fone sort_by_duration re_findall_time re_sub_time
            collapse_spaces split ceil_to_nearest discretize_time codec_frames self cuts
    = Raise e.
Proof.
  intro Hmode.
  match goal with |- exists e, ?g = Raise e => destruct g as [b|e] eqn:E end; [|eauto].
  exfalso.
  destruct (getitem_ok _ _ _ _ _ _ _ _ _ _ _ _ _ _ E) as (pb & Hpb & _).
  destruct (prepare_inv _ _ _ _ _ _ _ _ _ _ _ _ _ Hpb)
    as [exs cut ex ttl tte _ _ _ _ _ Hcut _ Hasm _].
  unfold dispatched_mode in Hmode. rewrite Hcut in Hmode.
  unfold assemble in Hasm. rewrite Hmode in Hasm.
  match type of Hasm with ?a = _ =>
    destruct (assemble_s2t_raises self ttl tte (pb_instruction_lengths pb)
                (pb_instructions_expanded_no_eos pb) (ex_instruction_length ex)) as (e & He)
  end.
  rewrite He in Hasm. discriminate.
Qed.

End TextOnlyFacts.

(** [C3, the code fails]  A well-formed batch of two cuts that carry
    the [s2t] flag, on a dataset with answer audio and reduction factor
    1: the call raises at the [torch.cat] of line 493, where the text
    mask has [T] time steps and the speech mask [T - 1]. *)
Example s2t_batch_raises :
  Demo.getitem (Demo.dataset false true 1) (Demo.two_cuts S2T) = Raise RuntimeError.
Proof. vm_compute. reflexivity. Qed.

(** ** Time alignment of the target text *)

Lemma set_nth_length {A} (i : nat) (v : A) (xs : list A) : length (set_nth i v xs) = length xs.
Proof. revert i; induction xs as [|x xs IH]; intros [|i]; simpl; auto. Qed.

Lemma set_nth_nth {A} (i t : nat) (v d : A) (xs : list A) :
  (i < length xs)%nat ->
  nth t (set_nth i v xs) d = if (t =? i)%nat then v else nth t xs d.
Proof.
  revert i t; induction xs as [|x xs IH]; intros i t H; [simpl in H; lia|].
  destruct i as [|i], t as [|t]; simpl; auto. apply IH. simpl in H; lia.
Qed.

Lemma set_item_ok {A} (xs : list A) (i : Z) (v : A) :
  0 <= i < Z.of_nat (length xs) -> set_item xs i v = Ok (set_nth (Z.to_nat i) v xs).
Proof.
  intro H. unfold set_item.
  destruct (Z.leb_spec 0 i); [|lia]. destruct (Z.ltb_spec i (Z.of_nat (length xs))); [|lia].
  reflexivity.
Qed.

(** [written s e toks t]: frame [t] receives a token of [toks] when the
    frames [[s, e)] are written. *)
Definition written (s e : Z) (toks : list Z) (t : Z) : bool :=
  (s <=? t) && (t <? e) && (t - s <? Z.of_nat (length toks)).

Lemma write_tokens_steps (row : list Z) (s : Z) (toks : list Z) (k : nat) :
  0 <= s -> s + Z.of_nat k <= Z.of_nat (length row) ->
  exists row',
    fold_left
      (fun acc j =>
         row <- acc ;;
         if (j <? length toks)%nat
         then set_item row (s + Z.of_nat j) (nth j toks 0)
         else Ok row)
      (seq 0 k) (Ok row) = Ok row' /\
    length row' = length row /\
    forall t, 0 <= t ->
      nth (Z.to_nat t) row' 0 =
      if written s (s + Z.of_nat k) toks t then nth (Z.to_nat (t - s)) toks 0
      else nth (Z.to_nat t) row 0.
Proof.
  intros Hs. induction k as [|k IH]; intro Hk.
  - exists row. split; [reflexivity|]. split; [reflexivity|].
    intros t Ht. unfold written.
    destruct (Z.leb_spec s t), (Z.ltb_spec t (s + Z.of_nat 0)); cbn [andb]; auto; lia.
  - destruct IH as (row1 & E1 & L1 & N1); [lia|].
    rewrite seq_S, fold_left_app, E1. cbn [fold_left bind Nat.add].
    destruct (Nat.ltb_spec k (length toks)) as [Hlt|Hge].
    + rewrite set_item_ok by lia. eexists; split; [reflexivity|].
      split; [rewrite set_nth_length; exact L1|].
      intros t Ht. rewrite set_nth_nth by lia. rewrite N1 by exact Ht. unfold written.
      destruct (Nat.eqb_spec (Z.to_nat t) (Z.to_nat (s + Z.of_nat k))) as [Heq|Hne].
      * assert (t = s + Z.of_nat k) by lia. subst t.
        replace (s + Z.of_nat k - s) with (Z.of_nat k) by lia. rewrite Nat2Z.id.
        destruct (Z.leb_spec s (s + Z.of_nat k)); [|lia].
        destruct (Z.ltb_spec (s + Z.of_nat k) (s + Z.of_nat (S k))); [|lia].
        destruct (Z.ltb_spec (Z.of_nat k) (Z.of_nat (length toks))); [|lia]. reflexivity.
      * assert (t <> s + Z.of_nat k) by lia.
        destruct (Z.leb_spec s t); cbn [andb]; auto.
        destruct (Z.ltb_spec t (s + Z.of_nat k)), (Z.ltb_spec t (s + Z.of_nat (S k)));
          cbn [andb]; auto; lia.
    + exists row1. split; [reflexivity|]. split; [exact L1|].
      intros t Ht. rewrite N1 by exact Ht. unfold written.
      destruct (Z.leb_spec s t); cbn [andb]; auto.
      destruct (Z.ltb_spec t (s + Z.of_nat k)), (Z.ltb_spec t (s + Z.of_nat (S k)));
        cbn [andb]; auto; try lia.
      destruct (Z.ltb_spec (t - s) (Z.of_nat (length toks))); auto. lia.
Qed.

(** One word: the frames [[s, e)] take the tokens of the word, as far
    as it has tokens; every other frame keeps its value. *)
Lemma write_tokens_spec (row : list Z) (s e : Z) (toks : list Z) :
  0 <= s -> e <= Z.of_nat (length row) ->
  exists row',
    write_tokens row s e toks = Ok row' /\
    length row' = length row /\
    forall t, 0 <= t ->
      nth (Z.to_nat t) row' 0 =
      if written s e toks t then nth (Z.to_nat (t - s)) toks 0 else nth (Z.to_nat t) row 0.
Proof.
  intros Hs He. unfold write_tokens.
  destruct (Z.le_gt_cases s e) as [Hse|Hes].
  - destruct (@write_tokens_steps row s toks (Z.to_nat (e - s)) Hs) as (row' & E & L & N); [lia|].
    exists row'. split; [exact E|]. split; [exact L|].
    intros t Ht. rewrite N by exact Ht. now replace (s + Z.of_nat (Z.to_nat (e - s))) with e by lia.
  - replace (Z.to_nat (e - s)) with 0%nat by lia. exists row.
    split; [reflexivity|]. split; [reflexivity|].
    intros t Ht. unfold written.
    destruct (Z.leb_spec s t), (Z.ltb_spec t e); simpl; auto; lia.
Qed.

Lemma py_slice_nonneg {A} (i n : Z) (xs : list A) :
  0 <= i -> 0 <= n ->
  py_slice i (i + n) xs = firstn (Z.to_nat n) (skipn (Z.to_nat i) xs).
Proof.
  intros Hi Hn. unfold py_slice, slice_bound.
  destruct (Z.ltb_spec i 0); [lia|]. destruct (Z.ltb_spec (i + n) 0); [lia|].
  f_equal. lia.
Qed.

Lemma nth_firstn_skipn {A} (i n j : nat) (d : A) (xs : list A) :
  (j < n)%nat -> nth j (firstn n (skipn i xs)) d = nth (i + j) xs d.
Proof.
  intro H. rewrite nth_firstn.
  destruct (Nat.ltb_spec j n); [|lia]. apply nth_skipn.
Qed.

(** One iteration of the loop over the words. *)
Tactic Notation "step_expand_words" := cbn [expand_words].
Tactic Notation "step_expand_words" "in" hyp(H) := cbn [expand_words] in H.

Section AlignFacts.

Context (discretize_time : Z -> Z) (self : Dataset).

Local Abbreviation expand_words := (expand_words discretize_time self).
Local Abbreviation frame_index := (frame_index discretize_time self).
Local Abbreviation covers := (covers discretize_time self).

Variable wt st : list Z.
Variable max_length : Z.

(** The loop over the words runs to its end, on a row of the same
    length, when every word has a start token and a frame index that
    is not negative. *)
Lemma expand_words_ok (wl : list Z) :
  forall (row : list Z) (start : Z) (idx : nat),
    Z.of_nat (length row) = max_length ->
    (idx + length wl <= length st)%nat ->
    (forall i, (i < length wl)%nat -> 0 <= frame_index (nth (idx + i) st 0)) ->
    exists row',
      expand_words row wt st max_length start idx wl = Ok row' /\
      length row' = length row /\
      forall t, 0 <= t ->
        (forall i, (i < length wl)%nat ->
           ~ (frame_index (nth (idx + i) st 0) <= t
              < frame_index (nth (idx + i) st 0) + nth i wl 0)) ->
        nth (Z.to_nat t) row' 0 = nth (Z.to_nat t) row 0.
Proof.
  induction wl as [|n wl IH]; intros row start idx Hlen Hst Hfr.
  - exists row. repeat split; auto.
  - step_expand_words. unfold nth_or_raise.
    destruct (nth_error st idx) as [tok|] eqn:Etok;
      [|apply nth_error_None in Etok; simpl in Hst; lia].
    cbn [bind]. cbn zeta.
    assert (Etok' : nth idx st 0 = tok) by (now apply nth_error_nth).
    pose proof (Hfr 0%nat ltac:(simpl; lia)) as Hf0.
    rewrite Nat.add_0_r, Etok' in Hf0. expose frame_index in Hf0.
    set (s := Z.quot (discretize_time tok) (decoder_reduction_factor self)) in *.
    destruct (@write_tokens_spec row s (Z.min (s + n) max_length)
                (py_slice start (start + n) wt) Hf0) as (row1 & E1 & L1 & N1); [lia|].
    rewrite E1. cbn [bind].
    destruct (IH row1 (start + n) (S idx)) as (row' & E' & L' & N'); [lia|simpl in Hst; lia| |].
    { intros i Hi. replace (S idx + i)%nat with (idx + S i)%nat by lia.
      apply Hfr. simpl; lia. }
    exists row'. split; [exact E'|]. split; [congruence|].
    intros t Ht Hun. rewrite N'; [|exact Ht|].
    + rewrite N1 by exact Ht.
      specialize (Hun 0%nat ltac:(simpl; lia)). rewrite Nat.add_0_r, Etok' in Hun.
      expose frame_index in Hun. fold s in Hun. cbn [nth] in Hun.
      unfold written.
      destruct (Z.leb_spec s t), (Z.ltb_spec t (Z.min (s + n) max_length));
        cbn [andb]; auto; lia.
    + intros i Hi. replace (S idx + i)%nat with (idx + S i)%nat by lia.
      apply (Hun (S i)). simpl; lia.
Qed.

(** The tokens of word [i] are in the frames it covers, unless a later
    word covers them too. *)
Lemma expand_words_word (wl : list Z) :
  forall (row row' : list Z) (start : Z) (idx i : nat) (j : Z),
    Z.of_nat (length row) = max_length ->
    (idx + length wl <= length st)%nat ->
    (forall i, (i < length wl)%nat -> 0 <= frame_index (nth (idx + i) st 0)) ->
    Forall (fun n => 0 <= n) wl -> 0 <= start ->
    expand_words row wt st max_length start idx wl = Ok row' ->
    (i < length wl)%nat -> 0 <= j < nth i wl 0 ->
    frame_index (nth (idx + i) st 0) + j < max_length ->
    start + word_offset wl i + j < Z.of_nat (length wt) ->
    (forall i', (i < i' < length wl)%nat ->
       ~ (frame_index (nth (idx + i') st 0) <= frame_index (nth (idx + i) st 0) + j
          < frame_index (nth (idx + i') st 0) + nth i' wl 0)) ->
    nth (Z.to_nat (frame_index (nth (idx + i) st 0) + j)) row' 0
    = nth (Z.to_nat (start + word_offset wl i + j)) wt 0.
Proof.
  induction wl as [|n wl IH]; intros row row' start idx i j Hlen Hst Hfr Hwl Hstart E Hi Hj Hmax Htok Hlater;
    [simpl in Hi; lia|].
  step_expand_words in E. unfold nth_or_raise in E.
  destruct (nth_error st idx) as [tok|] eqn:Etok; [|discriminate].
  cbn [bind] in E. cbn zeta in E.
  assert (Etok' : nth idx st 0 = tok) by (now apply nth_error_nth).
  pose proof (Hfr 0%nat ltac:(simpl; lia)) as Hf0.
  rewrite Nat.add_0_r, Etok' in Hf0. expose frame_index in Hf0.
  apply Forall_cons_iff in Hwl as (Hn & Hwl').
  set (s := Z.quot (discretize_time tok) (decoder_reduction_factor self)) in *.
  destruct (@write_tokens_spec row s (Z.min (s + n) max_length)
              (py_slice start (start + n) wt) Hf0) as (row1 & E1 & L1 & N1); [lia|].
  rewrite E1 in E. cbn [bind] in E.
  assert (Hfr' : forall i, (i < length wl)%nat -> 0 <= frame_index (nth (S idx + i) st 0)).
  { intros k Hk. replace (S idx + k)%nat with (idx + S k)%nat by lia. apply Hfr. simpl; lia. }
  destruct i as [|i].
  - (* the word written in this iteration *)
    rewrite Nat.add_0_r, Etok' in *. expose frame_index in *. fold s in Hmax, Hlater |- *.
    cbn [nth] in Hj. unfold word_offset in *. cbn [firstn fold_right] in *.
    destruct (@expand_words_ok wl row1 (start + n) (S idx)) as (row2 & E2 & _ & N2);
      [lia|simpl in Hst; lia|exact Hfr'|].
    rewrite E2 in E. injection E as <-.
    rewrite N2; [|lia|].
    + rewrite N1 by lia. unfold written.
      rewrite py_slice_nonneg by lia.
      assert (Hlen_toks : j < Z.of_nat (length (firstn (Z.to_nat n) (skipn (Z.to_nat start) wt)))).
      { rewrite length_firstn, length_skipn. lia. }
      destruct (Z.leb_spec s (s + j)); [|lia].
      destruct (Z.ltb_spec (s + j) (Z.min (s + n) max_length)); [|lia].
      replace (s + j - s) with j by lia.
      destruct (Z.ltb_spec j (Z.of_nat (length (firstn (Z.to_nat n) (skipn (Z.to_nat start) wt)))));
        [|lia].
      cbn [andb]. rewrite nth_firstn_skipn by lia. f_equal. lia.
    + intros k Hk. replace (S idx + k)%nat with (idx + S k)%nat by lia.
      expose frame_index. apply (Hlater (S k)). simpl; lia.
  - (* a later word *)
    replace (idx + S i)%nat with (S idx + i)%nat in * by lia.
    replace (start + word_offset (n :: wl) (S i) + j)
      with ((start + n) + word_offset wl i + j)
      by (unfold word_offset; cbn [firstn fold_right]; lia).
    apply (IH row1 row' (start + n) (S idx) i j); auto; try lia.
    + simpl in Hst; lia.
    + simpl in Hi; lia.
    + unfold word_offset in *. cbn [firstn fold_right] in Htok. lia.
    + intros i' Hi'. replace (S idx + i')%nat with (idx + S i')%nat by lia.
      specialize (Hlater (S i') ltac:(simpl; lia)).
      replace (idx + S i')%nat with (idx + S i')%nat in Hlater by lia. exact Hlater.
Qed.

End AlignFacts.

Lemma nth_map_const {A B} (v d : B) (l : list A) (k : nat) :
  (k < length l)%nat -> nth k (map (fun _ => v) l) d = v.
Proof.
  revert k; induction l as [|a l IH]; intros k H; [simpl in H; lia|].
  destruct k; simpl; [reflexivity|]. apply IH. simpl in H; lia.
Qed.

Lemma fill_from_spec (n v : Z) (row : list Z) :
  0 <= n ->
  length (fill_from n v row) = length row /\
  forall t, 0 <= t < Z.of_nat (length row) ->
    nth (Z.to_nat t) (fill_from n v row) 0 = if t <? n then nth (Z.to_nat t) row 0 else v.
Proof.
  intro Hn. unfold fill_from, take, drop, slice_bound.
  destruct (Z.ltb_spec n 0); [lia|].
  split.
  - rewrite length_app, length_map, length_firstn, length_skipn. lia.
  - intros t Ht. destruct (Z.ltb_spec t n) as [Hlt|Hge].
    + rewrite app_nth1 by (rewrite length_firstn; lia).
      rewrite nth_firstn. destruct (Nat.ltb_spec (Z.to_nat t) (Z.to_nat n)); [reflexivity | lia].
    + rewrite app_nth2 by (rewrite length_firstn; lia).
      rewrite length_firstn.
      apply nth_map_const. rewrite length_skipn. lia.
Qed.

Lemma mapM_all_ok {A B} (f : A -> result B) (xs : list A) :
  (forall x, In x xs -> exists y, f x = Ok y) -> exists ys, mapM f xs = Ok ys.
Proof.
  induction xs as [|x xs IH]; intro H; [exists []; reflexivity|].
  destruct (H x (or_introl eq_refl)) as (y & Hy).
  destruct IH as (ys & Hys); [intros; apply H; now right|].
  exists (y :: ys). simpl. rewrite Hy, Hys. reflexivity.
Qed.

Section ExpandFacts.

Context {F : Type} (to_long : F -> Z) (discretize_time : Z -> Z) (self : Dataset).

Local Abbreviation expand_row := (expand_row to_long discretize_time self).
Local Abbreviation expand_text := (_expand_text_with_timestamps_and_word_lengths to_long discretize_time self).
Local Abbreviation frame_index := (frame_index discretize_time self).
Local Abbreviation aligned := (aligned discretize_time self).

(** One iteration of the loop over the batch. *)
Lemma expand_row_aligned (word_tokens : list (tensor1 F)) (word_lengths start_time_tokens : list (list Z))
      (features_lens : list Z) (max_length pad : Z) (b : nat)
      (wt : tensor1 F) (wl st : list Z) (fl : Z) :
  nth_error word_tokens b = Some wt ->
  nth_error word_lengths b = Some wl ->
  nth_error start_time_tokens b = Some st ->
  nth_error features_lens b = Some fl ->
  1 <= fl <= max_length ->
  (length wl <= length st)%nat ->
  Forall (fun n => 0 <= n) wl ->
  (forall i, (i < length wl)%nat -> 0 <= frame_index (nth i st 0)) ->
  exists row,
    expand_row word_tokens word_lengths start_time_tokens features_lens max_length pad b = Ok row /\
    aligned (as_long to_long wt) wl st fl max_length pad row.
Proof.
  intros Hwt Hwl Hst Hfl Hrange Hlen Hpos Hfr.
  expose expand_row. unfold full, nth_or_raise.
  destruct (Z.ltb_spec max_length 0); [lia|]. cbn [bind].
  rewrite Hfl, Hwl, Hwt. cbn [bind]. cbn zeta.
  rewrite (nth_error_nth _ _ [] Hst).
  destruct (@expand_words_ok discretize_time self (as_long to_long wt) st max_length wl
              (repeat pad (Z.to_nat max_length)) 0 0%nat) as (row & E & L & N).
  { rewrite repeat_length. lia. }
  { simpl. lia. }
  { intros i Hi. now apply Hfr. }
  rewrite E. cbn [bind]. eexists; split; [reflexivity|].
  rewrite repeat_length in L.
  destruct (@fill_from_spec (fl - 1) (text_pad_id self) row) as (Lf & Nf); [lia|].
  split; [lia|]. split; [|split].
  - intros t Ht. rewrite Nf by lia. destruct (Z.ltb_spec t (fl - 1)); [lia | reflexivity].
  - intros t Ht Hun. rewrite Nf by lia. destruct (Z.ltb_spec t (fl - 1)); [|lia].
    rewrite N; [|lia|exact Hun].
    apply nth_repeat_lt. lia.
  - intros i j Hi Hj t Ht Htok Hlater. subst t. rewrite Nf.
    + destruct (Z.ltb_spec (frame_index (nth i st 0) + j) (fl - 1)); [|lia].
      pose proof (@expand_words_word discretize_time self (as_long to_long wt) st max_length wl
                    (repeat pad (Z.to_nat max_length)) row 0 0%nat i j) as W.
      cbn [Nat.add] in W. rewrite Z.add_0_l in W. apply W; auto; try lia.
      rewrite repeat_length. lia.
    + specialize (Hfr i Hi). lia.
Qed.

(** Every row of the batch is aligned, whenever each example has its
    end-marker frame, a start token for every word, and frame indices
    that are not negative. *)
Lemma expand_text_rows (word_tokens : list (tensor1 F))
      (word_lengths start_time_tokens : list (list Z)) (features_lens : list Z) (pad : Z) :
  word_tokens <> [] ->
  length word_lengths = length word_tokens ->
  length start_time_tokens = length word_tokens ->
  length features_lens = length word_tokens ->
  Forall (fun fl => 1 <= fl) features_lens ->
  (forall b wl st,
      nth_error word_lengths b = Some wl -> nth_error start_time_tokens b = Some st ->
      (length wl <= length st)%nat /\ Forall (fun n => 0 <= n) wl /\
      forall i, (i < length wl)%nat -> 0 <= frame_index (nth i st 0)) ->
  exists texts max_length,
    py_max features_lens = Ok max_length /\
    expand_text word_tokens word_lengths start_time_tokens features_lens pad = Ok texts /\
    length texts = length word_tokens /\
    forall b wt wl st fl row,
      nth_error word_tokens b = Some wt -> nth_error word_lengths b = Some wl ->
      nth_error start_time_tokens b = Some st -> nth_error features_lens b = Some fl ->
      nth_error texts b = Some row ->
      aligned (as_long to_long wt) wl st fl max_length pad row.
Proof.
  intros Hne Hlw Hls Hlf Hfl Hwf.
  expose expand_text.
  destruct (py_max features_lens) as [max_length|e] eqn:Emax.
  2:{ destruct features_lens; [|discriminate]. destruct word_tokens; [congruence | discriminate]. }
  cbn [bind].
  assert (Hrow : forall b, (b < length word_tokens)%nat ->
            exists wt wl st fl row,
              nth_error word_tokens b = Some wt /\ nth_error word_lengths b = Some wl /\
              nth_error start_time_tokens b = Some st /\ nth_error features_lens b = Some fl /\
              expand_row word_tokens word_lengths start_time_tokens features_lens max_length pad b
              = Ok row /\
              aligned (as_long to_long wt) wl st fl max_length pad row).
  { intros b Hb.
    destruct (nth_error word_tokens b) as [wt|] eqn:Ewt; [|apply nth_error_None in Ewt; lia].
    destruct (nth_error word_lengths b) as [wl|] eqn:Ewl; [|apply nth_error_None in Ewl; lia].
    destruct (nth_error start_time_tokens b) as [st|] eqn:Est; [|apply nth_error_None in Est; lia].
    destruct (nth_error features_lens b) as [fl|] eqn:Efl; [|apply nth_error_None in Efl; lia].
    destruct (Hwf b wl st Ewl Est) as (H1 & H2 & H3).
    assert (Hfl1 : 1 <= fl)
      by (rewrite Forall_forall in Hfl; apply Hfl; eapply nth_error_In; eauto).
    assert (Hfl2 : fl <= max_length)
      by (eapply py_max_ge; [exact Emax | eapply nth_error_In; eauto]).
    destruct (@expand_row_aligned word_tokens word_lengths start_time_tokens features_lens
                max_length pad b wt wl st fl Ewt Ewl Est Efl) as (row & Er & Ha); auto.
    exists wt, wl, st, fl, row. auto 10. }
  destruct (mapM_all_ok
              (expand_row word_tokens word_lengths start_time_tokens features_lens max_length pad)
              (seq 0 (length word_tokens))) as (texts & Etexts).
  { intros b Hb. apply in_seq in Hb.
    destruct (Hrow b) as (? & ? & ? & ? & row & _ & _ & _ & _ & Er & _); [lia|]. eauto. }
  exists texts, max_length. split; [reflexivity|]. split; [exact Etexts|].
  split; [rewrite (mapM_length _ _ Etexts); apply length_seq|].
  intros b wt wl st fl row Ewt Ewl Est Efl Erow.
  assert (Hb : (b < length word_tokens)%nat) by (apply nth_error_Some; congruence).
  destruct (Hrow b Hb) as (wt' & wl' & st' & fl' & row' & Ewt' & Ewl' & Est' & Efl' & Er & Ha).
  destruct (mapM_nth _ _ b Etexts (x := b)) as (row'' & Erow'' & Er'').
  { rewrite nth_error_seq. destruct (Nat.ltb_spec b (length word_tokens)); [reflexivity | lia]. }
  congruence.
Qed.

(** The example of the specification: two words, of one and of two
    tokens, starting at frames 0 and 2. *)
Lemma expand_text_two_words (a b1 b2 s0 s1 fl pad : Z) :
  frame_index s0 = 0 -> frame_index s1 = 2 -> 5 <= fl ->
  exists row,
    expand_text [TLong F [a; b1; b2]] [[1; 2]] [[s0; s1]] [fl] pad = Ok [row] /\
    Z.of_nat (length row) = fl /\
    nth 0 row 0 = a /\
    nth 1 row 0 = pad /\
    nth 2 row 0 = b1 /\
    nth 3 row 0 = b2 /\
    (forall t, 4 <= t < fl - 1 -> nth (Z.to_nat t) row 0 = pad) /\
    nth (Z.to_nat (fl - 1)) row 0 = text_pad_id self.
Proof.
  intros H0 H1 Hfl.
  destruct (@expand_text_rows [TLong F [a; b1; b2]] [[1; 2]] [[s0; s1]] [fl] pad)
    as (texts & max_length & Emax & E & Hlen & Hrows); try reflexivity; try discriminate.
  { constructor; [lia | constructor]. }
  { intros [|b] wl st Hwl Hst; [|destruct b; discriminate].
    cbn in Hwl, Hst. injection Hwl as <-. injection Hst as <-.
    split; [simpl; lia|]. split; [repeat constructor; lia|].
    intros [|[|i]] Hi; cbn [nth]; [lia | lia | simpl in Hi; lia]. }
  cbn in Emax. injection Emax as <-.
  destruct texts as [|row [|? ?]]; try discriminate.
  exists row. split; [exact E|].
  destruct (Hrows 0%nat _ _ _ _ _ eq_refl eq_refl eq_refl eq_refl eq_refl)
    as (HL & Hpad & Hfree & Hword).
  assert (Hc0 : forall t, covers discretize_time self [1; 2] [s0; s1] 0 t <-> 0 <= t < 1)
    by (intro t; unfold covers; cbn [nth]; fold (frame_index s0); rewrite H0; lia).
  assert (Hc1 : forall t, covers discretize_time self [1; 2] [s0; s1] 1 t <-> 2 <= t < 4)
    by (intro t; unfold covers; cbn [nth]; fold (frame_index s1); rewrite H1; lia).
  assert (Hfree' : forall t, 0 <= t < fl - 1 -> ~ 0 <= t < 1 -> ~ 2 <= t < 4 ->
                             nth (Z.to_nat t) row 0 = pad).
  { intros t Ht N0 N1. apply Hfree; [exact Ht|].
    intros [|[|i]] Hi; [rewrite Hc0 | rewrite Hc1 | simpl in Hi; lia]; assumption. }
  split; [exact HL|].
  split.
  { pose proof (Hword 0%nat 0) as W. cbn [nth length] in W. cbn zeta in W.
    fold (frame_index s0) in W. rewrite H0 in W. apply W; try lia.
    - unfold word_offset. simpl. lia.
    - intros [|[|i]] Hi; [lia | rewrite Hc1; lia | simpl in Hi; lia]. }
  split; [apply (Hfree' 1); lia|].
  split.
  { pose proof (Hword 1%nat 0) as W. cbn [nth length] in W. cbn zeta in W.
    fold (frame_index s1) in W. rewrite H1 in W.
    apply W; try lia; unfold word_offset; simpl; lia. }
  split.
  { pose proof (Hword 1%nat 1) as W. cbn [nth length] in W. cbn zeta in W.
    fold (frame_index s1) in W. rewrite H1 in W.
    apply W; try lia; unfold word_offset; simpl; lia. }
  split; [intros t Ht; apply Hfree'; lia|].
  apply Hpad. lia.
Qed.


End ExpandFacts.


(** ** The loss mask *)

Lemma nth_error_zip_with {A B C} (f : A -> B -> C) (xs : list A) (ys : list B) (i : nat) :
  nth_error (zip_with f xs ys) i =
  match nth_error xs i, nth_error ys i with
  | Some x, Some y => Some (f x y)
  | _, _ => None
  end.
Proof.
  revert ys i; induction xs as [|x xs IH]; intros ys i.
  - destruct i; reflexivity.
  - destruct ys as [|y ys]; [destruct i; simpl; [|destruct (nth_error xs i)]; reflexivity|].
    destruct i; simpl; [reflexivity | apply IH].
Qed.

Lemma nth_error_map_prefix {A} (f : A -> A) (k t : nat) (ex : list A) :
  nth_error (map f (firstn k ex) ++ skipn k ex) t =
  if (t <? k)%nat then option_map f (nth_error ex t) else nth_error ex t.
Proof.
  revert k t; induction ex as [|a ex IH]; intros k t.
  - rewrite firstn_nil, skipn_nil. destruct (t <? k)%nat, t; reflexivity.
  - destruct k as [|k]; [reflexivity|]. destruct t as [|t]; [reflexivity|].
    cbn [firstn skipn map app nth_error]. rewrite IH. reflexivity.
Qed.

Lemma on_prefix_nth_error {A} (n : Z) (f : A -> A) (ex : list A) (t : nat) :
  0 <= n ->
  nth_error (on_prefix n f ex) t =
  if Z.of_nat t <? n then option_map f (nth_error ex t) else nth_error ex t.
Proof.
  intro Hn. unfold on_prefix, take, drop, slice_bound.
  destruct (Z.ltb_spec n 0); [lia|]. rewrite nth_error_map_prefix.
  destruct (Nat.ltb_spec t (Z.to_nat n)), (Z.ltb_spec (Z.of_nat t) n); auto; lia.
Qed.

Lemma step_map {A B} (g : list A -> list B) (x : list (list A)) (i t : nat) :
  step (map g x) i t = match nth_error x i with Some ex => nth_error (g ex) t | None => None end.
Proof.
  unfold step. rewrite nth_error_map. destruct (nth_error x i); reflexivity.
Qed.

Lemma step_map_map {A B} (g : A -> B) (x : list (list A)) (i t : nat) :
  step (map (map g) x) i t = option_map g (step x i t).
Proof.
  rewrite step_map. unfold step. destruct (nth_error x i) as [ex|]; [|reflexivity].
  apply nth_error_map.
Qed.

Lemma step_drop_first {A} (x : list (list A)) (i t : nat) :
  step (drop_first_step x) i t = step x i (S t).
Proof.
  unfold drop_first_step. rewrite step_map. unfold step.
  destruct (nth_error x i); [apply nth_error_tl | reflexivity].
Qed.

Lemma entry_step {A} (x : list (list (list A))) (i t c : nat) :
  entry x i t c = match step x i t with Some r => nth_error r c | None => None end.
Proof. unfold entry, step. destruct (nth_error x i); reflexivity. Qed.

Lemma mask_row_idem (a b : bool) (r : list bool) :
  mask_row b (mask_row a r) = mask_row (a || b) r.
Proof.
  destruct a, b; simpl; auto. now rewrite map_map.
Qed.

Lemma mask_prefix_step (itl : Z) (m : list (list (list bool))) (i t : nat) :
  0 <= itl ->
  step (mask_prefix itl m) i t = option_map (mask_row (Z.of_nat t <? itl)) (step m i t).
Proof.
  intro H. unfold mask_prefix. rewrite step_map. unfold step.
  destruct (nth_error m i) as [ex|]; [|reflexivity].
  rewrite on_prefix_nth_error by exact H.
  destruct (Z.of_nat t <? itl), (nth_error ex t); reflexivity.
Qed.

Lemma mask_instructions_step (itls : list Z) (m : list (list (list bool))) (i t : nat) :
  Forall (fun itl => 0 <= itl) itls ->
  step (mask_instructions itls m) i t = option_map (mask_row (masked itls t)) (step m i t).
Proof.
  unfold mask_instructions. revert m; induction itls as [|itl itls IH]; intros m H.
  - simpl. destruct (step m i t); reflexivity.
  - apply Forall_cons_iff in H as (H0 & H). cbn [fold_left].
    rewrite IH by exact H. rewrite mask_prefix_step by exact H0.
    destruct (step m i t) as [r|]; [|reflexivity]. cbn [option_map].
    rewrite mask_row_idem. reflexivity.
Qed.

Lemma mask_row_false (off : bool) (r : list bool) (c : nat) (v : bool) :
  nth_error (mask_row off r) c = Some v -> (off = true \/ nth_error r c = Some false) -> v = false.
Proof.
  destruct off; simpl; intros H [E|E]; try discriminate; try congruence.
  - rewrite nth_error_map in H. destruct (nth_error r c); simpl in H; congruence.
  - rewrite nth_error_map in H. destruct (nth_error r c); simpl in H; congruence.
Qed.

Lemma mask_row_nth_error (off : bool) (r : list bool) (c : nat) :
  nth_error (mask_row off r) c = option_map (fun v => negb off && v) (nth_error r c).
Proof.
  destruct off; simpl; [rewrite nth_error_map|]; destruct (nth_error r c); reflexivity.
Qed.

Section MaskFacts.

Context (self : Dataset).

Local Abbreviation context_off := (context_off self).

Lemma mask_context_step (itls : list Z) (m : list (list (list bool))) (i t : nat) :
  Forall (fun itl => 0 <= itl) itls ->
  step (mask_context self itls m) i t = option_map (mask_row (context_off itls t)) (step m i t).
Proof.
  intro H. unfold mask_context. expose context_off.
  destruct (negb (t5_style self)); cbn [andb].
  - now apply mask_instructions_step.
  - destruct (step m i t); reflexivity.
Qed.

(** The mask of the [s2s] branch, one time step at a time. *)
Lemma s2s_mask_step (itls : list Z) (tokens_ : list (list (list Z)))
      (lm : list (list (list bool))) (i t : nat) :
  Forall (fun itl => 0 <= itl) itls ->
  cat_dim2 (mask_context self itls (text_ne (text_pad_id self) tokens_))
           (mask_context self itls (speech_ne (speech_pad_id self) tokens_)) = Ok lm ->
  step lm i t = option_map (s2s_mask_row self (context_off itls t)) (step tokens_ i t).
Proof.
  intros Hitls H. unfold cat_dim2 in H.
  destruct (_ && _); [|discriminate]. inv_ok H.
  unfold step at 1. rewrite nth_error_zip_with.
  pose proof (@mask_context_step itls (text_ne (text_pad_id self) tokens_) i t Hitls) as Ht.
  pose proof (@mask_context_step itls (speech_ne (speech_pad_id self) tokens_) i t Hitls) as Hs.
  unfold text_ne, speech_ne in *. rewrite step_map_map in Ht, Hs.
  unfold step at 1 in Ht. unfold step at 1 in Hs.
  destruct (nth_error (mask_context self itls _) i) as [a|];
    destruct (nth_error (mask_context self itls
               (map (map (fun row => map (fun v => negb (v =? speech_pad_id self)) (tl row)))
                    tokens_)) i) as [b|].
  - rewrite nth_error_zip_with, Ht, Hs. destruct (step tokens_ i t); reflexivity.
  - destruct (step tokens_ i t); [discriminate | reflexivity].
  - destruct (step tokens_ i t); [discriminate | reflexivity].
  - destruct (step tokens_ i t); [discriminate | reflexivity].
Qed.

(** The mask of the [s2s_align] branch, one time step at a time. *)
Lemma align_mask_step (itls : list Z) (tokens_ : list (list (list Z))) (i t : nat) :
  Forall (fun itl => 0 <= itl) itls ->
  step (mask_context self itls
          (map (map (fun s => firstn 1 s ++ s)) (speech_ne (speech_pad_id self) tokens_))) i t
  = option_map (align_mask_row self (context_off itls t)) (step tokens_ i t).
Proof.
  intro H. rewrite mask_context_step by exact H. unfold speech_ne.
  rewrite !step_map_map. destruct (step tokens_ i t); reflexivity.
Qed.

(** A speech column that holds the speech pad id is off. *)
Lemma s2s_mask_row_speech (off : bool) (r : list Z) (c : nat) :
  (1 <= c)%nat -> nth_error r c = Some (speech_pad_id self) ->
  nth_error (s2s_mask_row self off r) c = Some false.
Proof.
  intros Hc Hr. unfold s2s_mask_row.
  destruct r as [|v r]; [destruct c; discriminate|].
  destruct c as [|c]; [lia|]. cbn [nth_error] in Hr.
  assert (Hl : length (mask_row off (map (fun v => negb (v =? text_pad_id self)) (firstn 1 (v :: r))))
               = 1%nat) by (destruct off; reflexivity).
  rewrite nth_error_app2 by lia. rewrite Hl.
  replace (S c - 1)%nat with c by lia. cbn [tl].
  rewrite mask_row_nth_error, nth_error_map, Hr. cbn [option_map].
  rewrite Z.eqb_refl. now rewrite andb_false_r.
Qed.

(** A text column that holds the text pad id is off. *)
Lemma s2s_mask_row_text (off : bool) (r : list Z) :
  nth_error r 0 = Some (text_pad_id self) ->
  nth_error (s2s_mask_row self off r) 0 = Some false.
Proof.
  intro Hr. destruct r as [|v r]; [discriminate|]. cbn in Hr. injection Hr as ->.
  unfold s2s_mask_row. cbn [firstn map]. rewrite Z.eqb_refl.
  destruct off; reflexivity.
Qed.

Lemma s2s_mask_row_off (r : list Z) (c : nat) (m : bool) :
  nth_error (s2s_mask_row self true r) c = Some m -> m = false.
Proof.
  unfold s2s_mask_row, mask_row. rewrite <- map_app, nth_error_map.
  destruct (nth_error _ c); cbn; congruence.
Qed.

Lemma align_mask_row_speech (off : bool) (r : list Z) (c : nat) :
  (1 <= c)%nat -> nth_error r c = Some (speech_pad_id self) ->
  nth_error (align_mask_row self off r) c = Some false.
Proof.
  intros Hc Hr. unfold align_mask_row. cbn zeta. rewrite mask_row_nth_error.
  destruct r as [|v r]; [destruct c; discriminate|].
  destruct c as [|c]; [lia|]. cbn [nth_error] in Hr. cbn [tl].
  set (ne := fun v => negb (v =? speech_pad_id self)).
  assert (E : nth_error (firstn 1 (map ne r) ++ map ne r) (S c) = nth_error (map ne r) c).
  { destruct r as [|w r]; [destruct c; discriminate | reflexivity]. }
  rewrite E, nth_error_map, Hr. cbn [option_map]. unfold ne.
  rewrite Z.eqb_refl. now rewrite andb_false_r.
Qed.

Lemma align_mask_row_off (r : list Z) (c : nat) (m : bool) :
  nth_error (align_mask_row self true r) c = Some m -> m = false.
Proof.
  unfold align_mask_row, mask_row. cbn zeta. rewrite nth_error_map.
  destruct (nth_error _ c); cbn; congruence.
Qed.

(** In the aligned branch the text column of the mask copies the first
    speech column: it is off when that column holds the speech pad id. *)
Lemma align_mask_row_text (off : bool) (r : list Z) (m : bool) :
  (forall c v, (1 <= c)%nat -> nth_error r c = Some v -> v = speech_pad_id self) ->
  nth_error (align_mask_row self off r) 0 = Some m -> m = false.
Proof.
  intros Hr. unfold align_mask_row. cbn zeta. rewrite mask_row_nth_error.
  destruct r as [|v [|w r]]; cbn; try discriminate.
  rewrite (Hr 1%nat w) by (auto; reflexivity). rewrite Z.eqb_refl.
  rewrite andb_false_r. congruence.
Qed.

End MaskFacts.

(** ** The rows of the assembled sequence *)

Lemma nth_error_combine {A B} (xs : list A) (ys : list B) (i : nat) :
  nth_error (combine xs ys) i =
  match nth_error xs i, nth_error ys i with
  | Some x, Some y => Some (x, y)
  | _, _ => None
  end.
Proof.
  revert ys i; induction xs as [|x xs IH]; intros ys i.
  - destruct i; reflexivity.
  - destruct ys as [|y ys]; [destruct i; simpl; [|destruct (nth_error xs i)]; reflexivity|].
    destruct i; simpl; [reflexivity | apply IH].
Qed.

Lemma set_nth_nth_error_other {A} (i t : nat) (v : A) (xs : list A) :
  t <> i -> nth_error (set_nth i v xs) t = nth_error xs t.
Proof.
  revert i t; induction xs as [|x xs IH]; intros i t H; [destruct i; reflexivity|].
  destruct i as [|i], t as [|t]; simpl; auto. congruence.
Qed.

Lemma set_item_inv {A} (xs : list A) (i : Z) (v : A) (ys : list A) :
  set_item xs i v = Ok ys -> 0 <= i ->
  i < Z.of_nat (length xs) /\ ys = set_nth (Z.to_nat i) v xs.
Proof.
  unfold set_item. intros H Hi.
  destruct (Z.leb_spec 0 i); [|lia].
  destruct (Z.ltb_spec i (Z.of_nat (length xs))); cbn [andb] in H.
  - inv_ok H. auto.
  - destruct (Z.ltb_spec i 0); [lia|]. rewrite andb_false_r in H. discriminate.
Qed.

Lemma set_item_shape {A} (P : A -> Prop) (xs : list A) (i : Z) (v : A) (ys : list A) :
  set_item xs i v = Ok ys ->
  length ys = length xs /\ (Forall P xs -> P v -> Forall P ys).
Proof.
  assert (Hset : forall k, Forall P xs -> P v -> Forall P (set_nth k v xs)).
  { intros k Hxs Hv. revert k. induction Hxs; intros [|k]; simpl; constructor; auto. }
  unfold set_item. intro H.
  destruct (_ && _); [inv_ok H; split; [apply set_nth_length | auto]|].
  destruct (_ && _); [inv_ok H; split; [apply set_nth_length | auto]|discriminate].
Qed.

Section RowFacts.

Context (discretize_time : Z -> Z) (self : Dataset).

(** *** The placeholder codec frames *)

Lemma fill_codec_inv (ex : list (list Z)) (fl : Z) (e : list (list Z)) :
  fill_codec self ex fl = Ok e ->
  0 <= fl /\ length e = length ex /\
  forall j, (Z.to_nat fl < j)%nat -> nth_error e j = nth_error ex j.
Proof.
  unfold fill_codec. intro H. inv_bind H. inv_bind H.
  apply full_ok in E0 as (Hfl & ->). rewrite repeat_length, Z2Nat.id in H by exact Hfl.
  apply set_item_inv in H as (Hlt & ->); [|exact Hfl].
  split; [exact Hfl|]. split; [now rewrite set_nth_length, !on_prefix_length|].
  intros j Hj. rewrite set_nth_nth_error_other by lia.
  rewrite !on_prefix_nth_error by exact Hfl.
  destruct (Z.ltb_spec (Z.of_nat j) fl); [lia | reflexivity].
Qed.

Lemma fill_codecs_nth (exs : list (list (list Z))) (fls : list Z) (r : list (list (list Z)))
      (i : nat) (e : list (list Z)) :
  fill_codecs self exs fls = Ok r -> nth_error r i = Some e ->
  exists ex fl, nth_error exs i = Some ex /\ nth_error fls i = Some fl /\
                fill_codec self ex fl = Ok e.
Proof.
  revert fls r i; induction exs as [|ex exs IH]; intros fls r i H Hi.
  - simpl in H. inv_ok H. destruct i; discriminate.
  - destruct fls as [|fl fls]; [simpl in H; inv_ok H; destruct i; discriminate|].
    cbn [fill_codecs] in H. inv_bind H. inv_bind H. inv_ok H.
    destruct i as [|i]; cbn [nth_error] in *.
    + inv_ok Hi. eauto.
    + eauto.
Qed.

(** *** The expanded instructions *)

Lemma fill_text_inv (ex : list (list Z)) (txt : list Z) (tl_ : Z) (e : list (list Z)) :
  fill_text self ex txt tl_ = Ok e -> 0 <= tl_ < Z.of_nat (length e).
Proof.
  unfold fill_text. intro H. inv_bind H.
  destruct (Z.leb_spec 0 tl_); [|discriminate].
  destruct (Z.ltb_spec tl_ (Z.of_nat (length (on_prefix tl_ (set_speech (speech_unk_id self)) x))));
    [|discriminate].
  cbn [andb] in H. inv_ok H. rewrite set_nth_length. lia.
Qed.

Lemma fill_texts_nth (exs : list (list (list Z))) (txts : list (list Z)) (lens : list Z)
      (r : list (list (list Z))) (i : nat) (e : list (list Z)) :
  fill_texts self exs txts lens = Ok r -> nth_error r i = Some e ->
  exists tl_, nth_error lens i = Some tl_ /\ 0 <= tl_ < Z.of_nat (length e).
Proof.
  revert txts lens r i; induction exs as [|ex exs IH]; intros txts lens r i H Hi.
  - simpl in H. inv_ok H. destruct i; discriminate.
  - destruct txts as [|txt txts]; [simpl in H; inv_ok H; destruct i; discriminate|].
    destruct lens as [|tl_ lens]; [simpl in H; inv_ok H; destruct i; discriminate|].
    cbn [fill_texts] in H. inv_bind H. inv_bind H. inv_ok H.
    destruct i as [|i]; cbn [nth_error] in *.
    + inv_ok Hi. exists tl_. split; [reflexivity|]. eapply fill_text_inv; eauto.
    + eauto.
Qed.

(** *** The frame-aligned text never holds the pad id before the end
    marker *)

Lemma write_tokens_shape (P : Z -> Prop) (row : list Z) (s e : Z) (toks row' : list Z) :
  write_tokens row s e toks = Ok row' ->
  length row' = length row /\ (Forall P row -> Forall P toks -> Forall P row').
Proof.
  unfold write_tokens. generalize (seq 0 (Z.to_nat (e - s))). intro js.
  revert row; induction js as [|j js IH]; intros row H.
  - simpl in H. inv_ok H. auto.
  - cbn [fold_left bind] in H.
    destruct (Nat.ltb_spec j (length toks)) as [Hj|Hj].
    + destruct (set_item row (s + Z.of_nat j) (nth j toks 0)) as [row1|err] eqn:E1.
      * destruct (set_item_shape P _ _ _ E1) as (L1 & F1).
        destruct (IH row1 H) as (L & Fa). split; [congruence|].
        intros Hrow Htoks. apply Fa; auto. apply F1; auto.
        rewrite Forall_forall in Htoks. apply Htoks, nth_In. exact Hj.
      * exfalso. clear -H. induction js as [|k js IHjs]; [discriminate | exact (IHjs H)].
    + exact (IH row H).
Qed.

Lemma py_slice_incl {A} (i j : Z) (xs : list A) : incl (py_slice i j xs) xs.
Proof.
  unfold py_slice. intros x Hx.
  set (i' := slice_bound (length xs) i) in *. set (j' := slice_bound (length xs) j) in *.
  rewrite <- (firstn_skipn i' xs). apply in_or_app. right.
  rewrite <- (firstn_skipn (j' - i') (skipn i' xs)). apply in_or_app. now left.
Qed.

Lemma expand_words_shape (P : Z -> Prop) (wt st : list Z) (max_length : Z) (wl : list Z) :
  forall (row row' : list Z) (start : Z) (idx : nat),
    expand_words discretize_time self row wt st max_length start idx wl = Ok row' ->
    length row' = length row /\ (Forall P row -> Forall P wt -> Forall P row').
Proof.
  induction wl as [|n wl IH]; intros row row' start idx H.
  - simpl in H. inv_ok H. auto.
  - cbn [expand_words] in H. inv_bind H. cbn zeta in H. inv_bind H.
    destruct (write_tokens_shape P _ _ _ _ E0) as (L1 & F1).
    destruct (IH _ _ _ _ H) as (L & Fa). split; [congruence|].
    intros Hrow Hwt. apply Fa; auto. apply F1; auto.
    rewrite Forall_forall in *. intros v Hv. apply Hwt. eapply py_slice_incl; eauto.
Qed.

Lemma fill_from_nth_error_lt (n v : Z) (row : list Z) (j : nat) :
  0 <= n -> Z.of_nat j < n -> nth_error (fill_from n v row) j = nth_error row j.
Proof.
  intros Hn Hj. unfold fill_from, take, drop, slice_bound.
  destruct (Z.ltb_spec n 0); [lia|].
  assert (Hk : (j < Z.to_nat n)%nat) by lia. revert Hk. generalize (Z.to_nat n). clear.
  intro k. revert j k. induction row as [|a row IH]; intros j k Hk.
  - rewrite firstn_nil, skipn_nil. destruct j; reflexivity.
  - destruct k as [|k]; [lia|]. destruct j as [|j]; [reflexivity|].
    cbn [firstn skipn app nth_error]. apply IH. lia.
Qed.

End RowFacts.

Lemma In_removelast {A} (x : A) (l : list A) : In x (removelast l) -> In x l.
Proof.
  induction l as [|a l IH]; [auto|]. destruct l as [|b l]; [simpl; tauto|].
  intros [->|H]; [now left | right; now apply IH].
Qed.

Lemma length_drop_last {A} (l : list A) : length (removelast l) = pred (length l).
Proof.
  induction l as [|a l IH]; [reflexivity|]. destruct l as [|b l]; [reflexivity|].
  change (S (length (removelast (b :: l))) = S (length l)). rewrite IH. reflexivity.
Qed.

Lemma In_tl {A} (x : A) (l : list A) : In x (tl l) -> In x l.
Proof. destruct l; simpl; auto. Qed.

Lemma In_zip_with {A B C} (f : A -> B -> C) (xs : list A) (ys : list B) (z : C) :
  In z (zip_with f xs ys) -> exists x y, In x xs /\ In y ys /\ z = f x y.
Proof.
  revert ys; induction xs as [|x xs IH]; intros ys H; [destruct H|].
  destruct ys as [|y ys]; [destruct H|]. destruct H as [<-|H].
  - exists x, y. simpl; auto.
  - destruct (IH _ H) as (x' & y' & ? & ? & ->). exists x', y'. simpl; auto.
Qed.

Lemma as_long_as_tensor {F} (to_long : F -> Z) (l : list Z) :
  as_long to_long (as_tensor l) = l.
Proof. destruct l; reflexivity. Qed.

Section StageFacts.

Context {F : Type} (of_long : Z -> F) (to_long : F -> Z) (fzero fone : F).
Context (sort_by_duration : list (Cut F) -> list (Cut F)).
Context (re_findall_time : string -> list Z) (re_sub_time collapse_spaces : string -> string).
Context (split : string -> list string) (ceil_to_nearest : Z -> Z -> Z).
Context (discretize_time codec_frames : Z -> Z).
Context (self : Dataset).

Local Abbreviation tokenize_cut :=
  (@tokenize_cut F re_findall_time re_sub_time collapse_spaces split self).
Local Abbreviation tokenize_cuts :=
  (@tokenize_cuts F re_findall_time re_sub_time collapse_spaces split self).
Local Abbreviation build_target_codec :=
  (build_target_codec of_long to_long fzero codec_frames self).
Local Abbreviation convert_text := (_convert_text_to_3d_tensor of_long to_long ceil_to_nearest self).
Local Abbreviation expand_row := (expand_row to_long discretize_time self).

Local Abbreviation pad_free := (pad_free self).

Lemma tokenize_cut_target (c : Cut F) (ex : example F) :
  pad_free -> tokenize_cut c = Ok ex ->
  Forall (fun v => v <> text_pad_id self) (as_long to_long (ex_target_text ex)).
Proof.
  intros Hfree H. expose tokenize_cut in H.
  inv_bind H. inv_bind H. inv_bind H.
  destruct (speaker x1 =? "agent")%string; [|discriminate].
  destruct (s2s_align c); cbn [negb] in H.
  - unfold extract_text_and_time_tokens in H. cbn zeta in H. inv_ok H.
    cbn [ex_target_text]. rewrite as_long_as_tensor.
    apply Forall_forall. intros v Hv Heq. subst v.
    apply in_concat in Hv as (w & Hw & Hv).
    apply In_zip_with in Hw as (idx & word & _ & _ & ->).
    apply (Hfree EmptyString word).
    destruct (idx =? 0)%nat; [|apply In_tl in Hv]; exact Hv.
  - inv_ok H. cbn [ex_target_text]. rewrite as_long_as_tensor.
    apply Forall_forall. intros v Hv Heq. subst v.
    eapply Hfree. exact Hv.
Qed.

Lemma build_target_codec_inv (cuts : list (Cut F)) (cs : codec_stage F) :
  build_target_codec cuts = Ok cs ->
  (forall cut, last_cut cuts = Ok cut -> direct_s2s cut = false) /\
  decoder_reduction_factor self = 1 /\
  exists max_feat empty,
    py_max (cs_features_lens cs) = Ok max_feat /\
    get_3d_empty_tensor self (length cuts) (max_feat + 1)
                        (text_pad_id self) (speech_pad_id self) = Ok empty /\
    fill_codecs self empty (cs_features_lens cs) = Ok (cs_target_codec cs).
Proof.
  intro H. expose build_target_codec in H.
  inv_bind H. inv_bind H. inv_bind H. inv_bind H. inv_bind H. inv_bind H. inv_bind H.
  inv_bind H. inv_bind H. inv_bind H. inv_ok H. cbn [cs_features_lens cs_target_codec].
  apply py_assert_ok in E1, E2.
  split.
  - intros cut Hcut. rewrite E0 in Hcut. inv_ok Hcut. now destruct (direct_s2s cut).
  - split; [now apply Z.eqb_eq|]. eauto.
Qed.

(** An expanded instruction is at least as long as its instruction. *)
Lemma convert_text_no_eos_nth (texts : list (tensor1 F)) (ttg : Z) (t : tensor2 F)
      (lens : list Z) (e : list (list (list Z))) (i : nat) (it : list (list Z)) :
  convert_text texts false ttg = Ok (t, lens, e) ->
  nth_error e i = Some it ->
  exists itl, nth_error lens i = Some itl /\ 0 <= itl <= Z.of_nat (length it).
Proof.
  intros H Hi. destruct (convert_text_inv _ _ _ _ _ _ _ H) as (_ & ml & filled & _ & (empty & _ & Hf) & ->).
  unfold drop_last_step in Hi. rewrite nth_error_map in Hi.
  destruct (nth_error filled i) as [f|] eqn:Ef; [|discriminate]. cbn in Hi. inv_ok Hi.
  destruct (fill_texts_nth _ _ _ _ _ Hf Ef) as (itl & Hl & Hr).
  exists itl. split; [exact Hl|].
  rewrite length_drop_last. lia.
Qed.

Lemma convert_text_lengths_nonneg (texts : list (tensor1 F)) (inc : bool) (ttg : Z)
      (t : tensor2 F) (lens : list Z) (e : list (list (list Z))) :
  convert_text texts inc ttg = Ok (t, lens, e) -> Forall (fun n => 0 <= n) lens.
Proof.
  intro H. destruct (convert_text_inv _ _ _ _ _ _ _ H) as (-> & _).
  apply Forall_map, Forall_forall. intros; lia.
Qed.

(** Before its end-marker frame, the aligned text of an example holds
    the filler or tokens of the example. *)
Lemma expand_row_before_marker (P : Z -> Prop) (wts : list (tensor1 F))
      (wls sts : list (list Z)) (fls : list Z) (max_length pad : Z) (b : nat)
      (row : list Z) (wt : tensor1 F) (fl : Z) :
  expand_row wts wls sts fls max_length pad b = Ok row ->
  nth_error wts b = Some wt -> nth_error fls b = Some fl -> 1 <= fl ->
  P pad -> Forall P (as_long to_long wt) ->
  forall j v, Z.of_nat j < fl - 1 -> nth_error row j = Some v -> P v.
Proof.
  intros H Hwt Hfl Hfl1 Hpad Htoks j v Hj Hv.
  expose expand_row in H. inv_bind H. inv_bind H. inv_bind H. cbn zeta in H.
  inv_bind H. inv_bind H. inv_ok H.
  unfold nth_or_raise in E0, E2. rewrite Hfl in E0. rewrite Hwt in E2. inv_ok E0. inv_ok E2.
  apply full_ok in E as (_ & ->).
  destruct (expand_words_shape discretize_time self P _ _ _ _ _ _ _ E3) as (_ & HP).
  rewrite fill_from_nth_error_lt in Hv by lia.
  assert (HF : Forall P x3) by (apply HP; [apply Forall_forall; intros ? Hin; apply repeat_spec in Hin; now subst | exact Htoks]).
  rewrite Forall_forall in HF. apply HF. eapply nth_error_In; eauto.
Qed.

End StageFacts.

Lemma nth_error_repeat_inv {A} (a x : A) (n j : nat) :
  nth_error (repeat a n) j = Some x -> x = a.
Proof. intro H. apply nth_error_In in H. now apply repeat_spec in H. Qed.

Lemma mapM_Forall {A B} (f : A -> result B) (xs : list A) (ys : list B) :
  mapM f xs = Ok ys -> Forall (fun y => exists x, In x xs /\ f x = Ok y) ys.
Proof.
  revert ys; induction xs as [|x xs IH]; simpl; intros ys H.
  - inv_ok H. constructor.
  - inv_bind H. inv_bind H. inv_ok H. constructor; [eauto|].
    eapply Forall_impl; [|apply IH; exact E0].
    cbv beta. intros y (x' & ? & ?). eauto.
Qed.

Lemma mapM_seq_nth {B} (f : nat -> result B) (n : nat) (ys : list B) (i : nat) (y : B) :
  mapM f (seq 0 n) = Ok ys -> nth_error ys i = Some y -> f i = Ok y.
Proof.
  intros H Hy.
  assert (Hi : (i < n)%nat).
  { assert (Hl : length ys = n) by (rewrite (mapM_length _ _ H); apply length_seq).
    rewrite <- Hl. apply nth_error_Some. congruence. }
  destruct (mapM_nth f (seq 0 n) i H (x := i)) as (y' & Hy' & Hf).
  { rewrite nth_error_seq. destruct (Nat.ltb_spec i n); [reflexivity | lia]. }
  congruence.
Qed.

Section AlignRows.

Context {F : Type} (of_long : Z -> F) (to_long : F -> Z) (fzero fone : F).
Context (sort_by_duration : list (Cut F) -> list (Cut F)).
Context (re_findall_time : string -> list Z) (re_sub_time collapse_spaces : string -> string).
Context (split : string -> list string) (ceil_to_nearest : Z -> Z -> Z).
Context (discretize_time codec_frames : Z -> Z).
Context (self : Dataset).

Local Abbreviation prepare :=
  (prepare of_long to_long fzero sort_by_duration re_findall_time re_sub_time collapse_spaces
           split ceil_to_nearest discretize_time codec_frames self).
Local Abbreviation dispatched_mode := (dispatched_mode sort_by_duration).
Local Abbreviation assemble_s2s_align := (assemble_s2s_align to_long discretize_time self).
Local Abbreviation expand_text :=
  (_expand_text_with_timestamps_and_word_lengths to_long discretize_time self).

(** A step of codec frames, with its text replaced, keeps its speech
    columns. *)
Lemma set_text_pad_step (v : Z) (c : nat) (w : Z) :
  (1 <= c)%nat -> nth_error (set_text v (pad_step self)) c = Some w -> w = speech_pad_id self.
Proof.
  unfold pad_step. cbn [set_text]. destruct c as [|c]; [lia|]. cbn [nth_error].
  intros _ H. eapply nth_error_repeat_inv; eauto.
Qed.

Lemma pad_step_speech (c : nat) (w : Z) :
  (1 <= c)%nat -> nth_error (pad_step self) c = Some w -> w = speech_pad_id self.
Proof.
  unfold pad_step. destruct c as [|c]; [lia|]. cbn [nth_error].
  intros _ H. eapply nth_error_repeat_inv; eauto.
Qed.

(** The steps of one example of the [s2s_align] sequence, after the
    instruction and the bos step: aligned codec frames. *)
Lemma align_codec_rows (exs : list (example F)) (cuts : list (Cut F)) (cs : codec_stage F)
      (texts : list (list Z)) (i j : nat) (codec' : list (list Z)) (row : list Z) :
  pad_free self -> text_unk_id self <> text_pad_id self ->
  @tokenize_cuts F re_findall_time re_sub_time collapse_spaces split self cuts = Ok exs ->
  build_target_codec of_long to_long fzero codec_frames self cuts = Ok cs ->
  expand_text (map (@ex_target_text F) exs)
              (map (@ex_word_length F) (timestamped exs))
              (map (@ex_start_time_token F) (timestamped exs))
              (map (fun x => x + 1) (cs_features_lens cs)) (text_unk_id self) = Ok texts ->
  nth_error (zip_with (zip_with set_text) texts (cs_target_codec cs)) i = Some codec' ->
  nth_error codec' j = Some row ->
  exists fl, nth_error (cs_features_lens cs) i = Some fl /\ 0 <= fl /\
    ((forall v, nth_error row 0 = Some v -> v <> text_pad_id self)
     \/ Z.of_nat j = fl
     \/ (forall c v, (1 <= c)%nat -> nth_error row c = Some v -> v = speech_pad_id self)).
Proof.
  intros Hfree Hunk Htok Hcodec Htexts Hi Hj.
  rewrite nth_error_zip_with in Hi.
  destruct (nth_error texts i) as [texts_i|] eqn:Eti; [|discriminate].
  destruct (nth_error (cs_target_codec cs) i) as [codec_i|] eqn:Eci; [|discriminate].
  inv_ok Hi. rewrite nth_error_zip_with in Hj.
  destruct (nth_error texts_i j) as [v|] eqn:Ev; [|discriminate].
  destruct (nth_error codec_i j) as [crow|] eqn:Ec; [|discriminate].
  inv_ok Hj.
  apply build_target_codec_inv in Hcodec as (_ & _ & max_feat & empty & Emax & Eempty & Efill).
  pose proof Efill as Efill'.
  eapply fill_codecs_nth in Efill' as (empty_i & fl & Eei & Efl & Efc); [|exact Eci].
  pose proof Efc as Efc'.
  apply fill_codec_inv in Efc' as (Hfl & _ & Hafter).
  exists fl. split; [exact Efl|]. split; [exact Hfl|].
  destruct (Z.lt_trichotomy (Z.of_nat j) fl) as [Hlt|[Heq|Hgt]].
  - (* a frame before the end marker *)
    left. intros v' Hv'.
    assert (Hvv : v <> text_pad_id self).
    { expose expand_text in Htexts. inv_bind Htexts.
      pose proof (mapM_seq_nth _ _ _ Htexts Eti) as Erow.
      assert (Hi : (i < length exs)%nat).
      { assert (Hl : length texts = length exs)
          by (rewrite (mapM_length _ _ Htexts), length_seq; apply length_map).
        rewrite <- Hl. apply nth_error_Some. congruence. }
      destruct (nth_error exs i) as [ex_i|] eqn:Eex; [|apply nth_error_None in Eex; lia].
      pose proof (mapM_Forall _ _ Htok) as Hall. rewrite Forall_forall in Hall.
      destruct (Hall ex_i (nth_error_In _ _ Eex)) as (c & _ & Hc).
      eapply (@expand_row_before_marker F to_long discretize_time self
                (fun v => v <> text_pad_id self)); try exact Erow.
      - rewrite nth_error_map, Eex. reflexivity.
      - rewrite nth_error_map, Efl. reflexivity.
      - lia.
      - exact Hunk.
      - eapply tokenize_cut_target; eauto.
      - instantiate (1 := j). lia.
      - exact Ev. }
    destruct crow as [|c0 crow]; [discriminate|]. cbn in Hv'. congruence.
  - right. left. exact Heq.
  - (* a frame after the end marker: untouched padding *)
    right. right. intros c w Hc Hw.
    rewrite Hafter in Ec by lia.
    apply get_3d_empty_tensor_ok in Eempty as (_ & _ & ->).
    apply nth_error_repeat_inv in Eei. subst empty_i.
    apply nth_error_repeat_inv in Ec. subst crow.
    eapply set_text_pad_step; eauto.
Qed.

Lemma take_length_exact {A} (n : Z) (l : list A) :
  0 <= n <= Z.of_nat (length l) -> length (take n l) = Z.to_nat n.
Proof.
  intro H. unfold take, slice_bound. destruct (Z.ltb_spec n 0); [lia|].
  rewrite length_firstn. lia.
Qed.

(** Every step of an example of the [s2s_align] sequence is of one of
    four kinds: an instruction step, a step whose text is not the pad
    id, the end-marker step, or a step whose speech columns are all
    the speech pad id. *)
Lemma align_token_rows (cuts : list (Cut F)) (pb : pre_batch F) :
  prepare cuts = Ok pb ->
  dispatched_mode cuts = Some S2S_align ->
  text_bos_id self <> text_pad_id self ->
  text_unk_id self <> text_pad_id self ->
  pad_free self ->
  forall i r row,
    step (as_tokens (pb_assembled pb)) i r = Some row ->
    (t5_style self = false /\
     exists itl, nth_error (pb_instruction_lengths pb) i = Some itl /\ Z.of_nat r < itl)
    \/ (forall v, nth_error row 0 = Some v -> v <> text_pad_id self)
    \/ Z.of_nat r = end_marker_step self pb i
    \/ (forall c v, (1 <= c)%nat -> nth_error row c = Some v -> v = speech_pad_id self).
Proof.
  intros Hpb Hmode Hbos Hunk Hfree i r row Hrow.
  destruct (prepare_inv _ _ _ _ _ _ _ _ _ _ _ _ _ Hpb)
    as [exs cut ex ttl tte Htok _ Hcodec _ Hit Hcut _ Hasm _].
  expose dispatched_mode in Hmode. rewrite Hcut in Hmode.
  unfold assemble in Hasm. rewrite Hmode in Hasm.
  expose assemble_s2s_align in Hasm.
  inv_bind Hasm. inv_bind Hasm. destruct x0 as (tokens_ & lens_). inv_ok Hasm.
  rewrite <- Hasm in Hrow. cbn [as_tokens] in Hrow. clear Hasm.
  rename x into texts.
  apply collate_and_pad_2d_ok in E0 as (_ & _ & T & _ & _ & ->).
  unfold step in Hrow. rewrite nth_error_map in Hrow.
  match type of Hrow with context [nth_error ?l i] =>
    destruct (nth_error l i) as [src|] eqn:Esrc end; [|discriminate].
  cbn [option_map] in Hrow.
  destruct (Nat.ltb_spec r (length src)) as [Hin|Hout].
  2:{ rewrite nth_error_app2 in Hrow by exact Hout.
      apply nth_error_repeat_inv in Hrow. subst row.
      right. right. right. intros c v. apply pad_step_speech. }
  rewrite nth_error_app1 in Hrow by exact Hin.
  set (bos_row := text_bos_id self :: repeat (speech_bos_id self) (Z.to_nat (channels self))) in *.
  (* the steps from the bos step on *)
  assert (Htail : forall codec' k off,
             nth_error (zip_with (zip_with set_text) texts
                                 (cs_target_codec (pb_codec pb))) i = Some codec' ->
             nth_error (bos_row :: codec') k = Some row ->
             (forall v, nth_error row 0 = Some v -> v <> text_pad_id self)
             \/ off + Z.of_nat k = off + 1 + nth i (cs_features_lens (pb_codec pb)) 0
             \/ (forall c v, (1 <= c)%nat -> nth_error row c = Some v -> v = speech_pad_id self)).
  { intros codec' k off Hc Hk. destruct k as [|j]; cbn [nth_error] in Hk.
    - inv_ok Hk. left. intros v Hv. cbn in Hv. congruence.
    - destruct (@align_codec_rows exs (sort_by_duration cuts) (pb_codec pb) texts i j codec' row
                  Hfree Hunk Htok Hcodec E Hc Hk) as (fl & Efl & _ & [H|[H|H]]).
      + left. exact H.
      + right. left. rewrite (nth_error_nth _ _ 0 Efl). lia.
      + right. right. exact H. }
  unfold prepend_instructions in Esrc. unfold end_marker_step.
  destruct (t5_style self) eqn:Et5; cbn [negb] in Esrc.
  - rewrite nth_error_map in Esrc.
    destruct (nth_error (zip_with (zip_with set_text) texts (cs_target_codec (pb_codec pb))) i)
      as [codec'|] eqn:Ec; [|discriminate].
    cbn in Esrc. inv_ok Esrc.
    destruct (Htail codec' r 0 eq_refl Hrow) as [H|[H|H]]; auto.
  - rewrite nth_error_zip_with, nth_error_combine, nth_error_map in Esrc.
    destruct (nth_error (zip_with (zip_with set_text) texts (cs_target_codec (pb_codec pb))) i)
      as [codec'|] eqn:Ec; [|discriminate].
    cbn [option_map] in Esrc.
    destruct (nth_error (pb_instructions_expanded_no_eos pb) i) as [it|] eqn:Eit; [|discriminate].
    destruct (nth_error (pb_instruction_lengths pb) i) as [itl|] eqn:Eitl; [|discriminate].
    inv_ok Esrc.
    destruct (convert_text_no_eos_nth _ _ _ _ _ _ _ Hit Eit) as (itl' & Eitl' & Hitl).
    rewrite Eitl in Eitl'. inv_ok Eitl'.
    pose proof (take_length_exact _ Hitl) as Htake.
    rewrite (nth_error_nth _ _ 0 Eitl).
    destruct (Nat.ltb_spec r (Z.to_nat itl')) as [Hpre|Hpost].
    + left. split; [reflexivity|]. exists itl'. split; [reflexivity | lia].
    + right. rewrite nth_error_app2 in Hrow by lia. rewrite Htake in Hrow.
      destruct (Htail codec' (r - Z.to_nat itl')%nat itl' eq_refl Hrow) as [H|[H|H]]; auto.
      right. left. lia.
Qed.

(** The unshifted mask of the [s2s_align] branch, step by step. *)
Lemma align_mask_rows (cuts : list (Cut F)) (pb : pre_batch F) :
  prepare cuts = Ok pb ->
  dispatched_mode cuts = Some S2S_align ->
  forall i t,
    step (as_loss_mask (pb_assembled pb)) i t
    = option_map (align_mask_row self (context_off self (pb_instruction_lengths pb) t))
                 (step (as_tokens (pb_assembled pb)) i t).
Proof.
  intros Hpb Hmode i t.
  destruct (prepare_inv _ _ _ _ _ _ _ _ _ _ _ _ _ Hpb)
    as [exs cut ex ttl tte _ _ _ _ Hit Hcut _ Hasm _].
  expose dispatched_mode in Hmode. rewrite Hcut in Hmode.
  unfold assemble in Hasm. rewrite Hmode in Hasm.
  expose assemble_s2s_align in Hasm.
  inv_bind Hasm. inv_bind Hasm. destruct x0 as (tokens_ & lens_). inv_ok Hasm.
  rewrite <- Hasm. cbn [as_loss_mask as_tokens].
  apply align_mask_step. eapply convert_text_lengths_nonneg; eauto.
Qed.

(** The unshifted mask of the [s2s] branch, step by step. *)
Lemma s2s_mask_rows (cuts : list (Cut F)) (pb : pre_batch F) :
  prepare cuts = Ok pb ->
  dispatched_mode cuts = Some S2S ->
  forall i t,
    step (as_loss_mask (pb_assembled pb)) i t
    = option_map (s2s_mask_row self (context_off self (pb_instruction_lengths pb) t))
                 (step (as_tokens (pb_assembled pb)) i t).
Proof.
  intros Hpb Hmode i t.
  destruct (prepare_inv _ _ _ _ _ _ _ _ _ _ _ _ _ Hpb)
    as [exs cut ex ttl tte _ _ _ _ Hit Hcut _ Hasm _].
  expose dispatched_mode in Hmode. rewrite Hcut in Hmode.
  unfold assemble in Hasm. rewrite Hmode in Hasm.
  unfold assemble_s2s in Hasm.
  inv_bind Hasm. destruct x as (tokens_ & lens_). cbn zeta in Hasm. inv_bind Hasm. inv_ok Hasm.
  rewrite <- Hasm. cbn [as_loss_mask as_tokens].
  eapply s2s_mask_step; [|exact E0]. eapply convert_text_lengths_nonneg; eauto.
Qed.

(** A batch is returned in the [s2s] or in the [s2s_align] mode only. *)
Lemma returned_modes (cuts : list (Cut F)) (pb : pre_batch F) :
  prepare cuts = Ok pb ->
  dispatched_mode cuts = Some S2S \/ dispatched_mode cuts = Some S2S_align.
Proof.
  intro Hpb.
  destruct (prepare_inv _ _ _ _ _ _ _ _ _ _ _ _ _ Hpb)
    as [exs cut ex ttl tte _ _ Hcodec _ _ Hcut _ Hasm _].
  expose dispatched_mode. rewrite Hcut.
  apply build_target_codec_inv in Hcodec as (Hdirect & _).
  specialize (Hdirect _ Hcut).
  unfold assemble in Hasm.
  destruct (select_mode cut) as [[| | |]|] eqn:Em; auto.
  - unfold select_mode in Em. rewrite Hdirect in Em.
    destruct (s2s cut), (s2s_align cut), (s2t cut); discriminate.
  - destruct (assemble_s2t_raises self ttl tte (pb_instruction_lengths pb)
                (pb_instructions_expanded_no_eos pb) (ex_instruction_length ex)) as (e & He).
    rewrite He in Hasm. discriminate.
  - discriminate.
Qed.

End AlignRows.

(** ** The loss mask of a returned batch *)

Lemma entry_drop_first {A} (x : list (list (list A))) (i t c : nat) :
  entry (drop_first_step x) i t c = entry x i (S t) c.
Proof. now rewrite !entry_step, step_drop_first. Qed.

Lemma entry_inv {A} (x : list (list (list A))) (i t c : nat) (v : A) :
  entry x i t c = Some v -> exists r, step x i t = Some r /\ nth_error r c = Some v.
Proof.
  rewrite entry_step. destruct (step x i t) as [r|]; [eauto | discriminate].
Qed.

Lemma masked_in (itls : list Z) (itl : Z) (t : nat) :
  In itl itls -> Z.of_nat t < itl -> masked itls t = true.
Proof.
  intros Hin Ht. unfold masked. apply existsb_exists. exists itl.
  split; [exact Hin | now apply Z.ltb_lt].
Qed.

Section LossMaskFacts.

Context {F : Type} (of_long : Z -> F) (to_long : F -> Z) (fzero fone : F).
Context (sort_by_duration : list (Cut F) -> list (Cut F)).
Context (re_findall_time : string -> list Z) (re_sub_time collapse_spaces : string -> string).
Context (split : string -> list string) (ceil_to_nearest : Z -> Z -> Z).
Context (discretize_time codec_frames : Z -> Z).
Context (self : Dataset).

Local Abbreviation prepare :=
  (prepare of_long to_long fzero sort_by_duration re_findall_time re_sub_time collapse_spaces
           split ceil_to_nearest discretize_time codec_frames self).
Local Abbreviation getitem :=
  (getitem of_long to_long fzero fone sort_by_duration re_findall_time re_sub_time
           collapse_spaces split ceil_to_nearest discretize_time codec_frames self).
Local Abbreviation dispatched_mode := (dispatched_mode sort_by_duration).


End LossMaskFacts.

Lemma demo_pad_free (t5 answer_audio : bool) (reduction : Z) :
  pad_free (Demo.dataset t5 answer_audio reduction).
Proof.
  intros context output. unfold text_pad_id. cbn.
  rewrite removelast_last. unfold Demo.char_ids. rewrite in_map_iff.
  intros (c & Hc & _). lia.
Qed.


(** * Further properties of the padding primitive *)

Lemma list_max_ge (l : list nat) (x : nat) : In x l -> (x <= list_max l)%nat.
Proof.
  intro H. pose proof (proj1 (list_max_le l (list_max l)) (Nat.le_refl _)) as Hall.
  rewrite Forall_forall in Hall. auto.
Qed.

Lemma list_max_in (l : list nat) : l <> [] -> In (list_max l) l.
Proof.
  induction l as [|a l IH]; [congruence|]. intros _. cbn [list_max fold_right].
  fold (list_max l). destruct l as [|b l'].
  - left. cbn. lia.
  - destruct (Nat.max_spec a (list_max (b :: l'))) as [(_ & ->)|(_ & ->)].
    + right. apply IH. discriminate.
    + now left.
Qed.

Lemma fold_max_list_max (r : list nat) (a : nat) :
  fold_left Z.max (map Z.of_nat r) (Z.of_nat a) = Z.of_nat (Nat.max a (list_max r)).
Proof.
  revert a; induction r as [|b r IH]; intro a; cbn [map fold_left list_max fold_right].
  - f_equal. lia.
  - fold (list_max r). rewrite <- Nat2Z.inj_max, IH. f_equal. lia.
Qed.

(** [max] of Python on a non-empty list of lengths. *)
Lemma py_max_list_max (l : list nat) :
  l <> [] -> py_max (map Z.of_nat l) = Ok (Z.of_nat (list_max l)).
Proof.
  destruct l as [|a r]; [congruence|]. intros _. cbn [map py_max].
  now rewrite fold_max_list_max.
Qed.

Lemma map_pad_row_eq {A B} (g : A -> list B) (q : B) (n W : nat) (k : Z) (items : list A) :
  (forall t, In t items -> (length (g t) <= n)%nat) ->
  W = Z.to_nat (Z.max k (Z.of_nat n)) ->
  (if Z.of_nat n <? k
   then map (fun r => r ++ repeat q (Z.to_nat (k - Z.of_nat n)))
            (map (fun t => pad_row n q (g t)) items)
   else map (fun t => pad_row n q (g t)) items)
  = map (fun t => pad_row W q (g t)) items.
Proof.
  intros Hle ->. destruct (Z.ltb_spec (Z.of_nat n) k) as [Hlt|Hge].
  - rewrite map_map. apply map_ext_in. intros t Ht.
    rewrite pad_row_extend by auto. unfold pad_row. do 2 f_equal.
    specialize (Hle t Ht). lia.
  - replace (Z.to_nat (Z.max k (Z.of_nat n))) with n by lia. reflexivity.
Qed.

Section WidthFacts.

Context {F : Type} (of_long : Z -> F) (to_long : F -> Z).

Local Abbreviation cv := (collate_vectors of_long to_long).

Lemma longest_size (t0 : tensor1 F) (rest : list (tensor1 F)) :
  size1 (longest t0 rest) = list_max (map (@size1 F) (t0 :: rest)).
Proof.
  apply Nat.le_antisymm.
  - apply list_max_ge, in_map, longest_in.
  - apply list_max_le, Forall_forall. intros n Hn.
    apply in_map_iff in Hn as (t & <- & Ht). now apply longest_ge.
Qed.

Lemma long_rows_long (v : tensor2 F) :
  long_rows to_long (long to_long v) = long_rows to_long v.
Proof. reflexivity. Qed.

(** The rows and the width of what [collate_vectors] returns. *)
Lemma collate_vectors_rows_width (items : list (tensor1 F)) (max_length : Z) (p : pyscalar F) :
  match items with
  | [] => cv items max_length p = Raise ValueError
  | _ :: _ =>
    exists v, cv items max_length p = Ok v /\
      size2_0 v = length items /\
      Forall (fun r => length r = padded_width max_length (map (@size1 F) items))
             (long_rows to_long v)
  end.
Proof.
  destruct items as [|t0 rest]; [reflexivity|].
  destruct (collate_vectors_lhotse of_long to_long (t0 :: rest) p) as [v0|e] eqn:E0.
  2:{ exfalso. cbn in E0. destruct (longest t0 rest), p; discriminate. }
  destruct (collate_vectors_lhotse_shape _ _ _ _ E0)
    as (t0' & rest' & Heq & Hn & Hw & Hall).
  injection Heq as <- <-.
  expose cv. rewrite E0. cbn [bind]. eexists; split; [reflexivity|].
  rewrite Hw, longest_size. unfold padded_width.
  rewrite longest_size in Hall.
  set (n := list_max (map (@size1 F) (t0 :: rest))) in *.
  rewrite (size2_0_long_rows to_long) in Hn. rewrite (size2_0_long_rows to_long).
  assert (Hgoal : forall v, length (long_rows to_long v) = length (t0 :: rest) ->
            Forall (fun r => length r = Z.to_nat (Z.max max_length (Z.of_nat n)))
                   (long_rows to_long v) ->
            length (long_rows to_long (if (size1 t0 <? 1)%nat then long to_long v else v))
            = length (t0 :: rest) /\
            Forall (fun r => length r = Z.to_nat (Z.max max_length (Z.of_nat n)))
                   (long_rows to_long (if (size1 t0 <? 1)%nat then long to_long v else v))).
  { intros v H1 H2. destruct (size1 t0 <? 1)%nat; rewrite ?long_rows_long; auto. }
  destruct (Z.ltb_spec (Z.of_nat n) max_length) as [Hlt|Hge]; apply Hgoal.
  - rewrite (proj1 (extend_columns_rows of_long to_long v0 _ p Hall)). exact Hn.
  - destruct (extend_columns_rows of_long to_long v0
                (Z.to_nat (max_length - Z.of_nat n)) p Hall) as (_ & H2).
    eapply Forall_impl; [|exact H2]. cbv beta. intros r ->. lia.
  - exact Hn.
  - eapply Forall_impl; [|exact Hall]. cbv beta. intros r ->. lia.
Qed.

(** [X2]  The padding primitive fails on the empty list only, with the
    [ValueError] of [max()]; on every other input, whatever the dtypes
    of the items and of the pad value, it returns one row per item and
    every row has the width [max(max_length, longest item)]:
    [max_length] is a lower bound of the width and never truncates. *)
Theorem collate_vectors_width (items : list (tensor1 F)) (max_length : Z) (p : pyscalar F) :
  match items with
  | [] => cv items max_length p = Raise ValueError
  | _ :: _ =>
    exists v, cv items max_length p = Ok v /\
      size2_0 v = length items /\
      Forall (fun r => length r = padded_width max_length (map (@size1 F) items))
             (long_rows to_long v)
  end.
Proof. exact (collate_vectors_rows_width items max_length p). Qed.

Lemma as_tensor_size (ids : list Z) : size1 (@as_tensor F ids) = length ids.
Proof. destruct ids; reflexivity. Qed.

Lemma map_as_tensor_size (idss : list (list Z)) :
  map (@size1 F) (map (@as_tensor F) idss) = map (@length Z) idss.
Proof. rewrite map_map. apply map_ext, as_tensor_size. Qed.

Lemma as_tensor_long (t : tensor1 F) (ids : list Z) :
  t = as_tensor ids -> (0 < size1 t)%nat -> t = TLong F ids.
Proof. intros -> H. destruct ids; [cbn in H; lia | reflexivity]. Qed.

(** A batch of id lists; when every list is empty it is built as
    float32 and cast back, the pad value with it. *)
Lemma collate_vectors_ids (idss : list (list Z)) (L p : Z) :
  idss <> [] ->
  cv (map (@as_tensor F) idss) L (PyInt F p)
  = Ok (Long2 F (map (pad_row (padded_width L (map (@length Z) idss))
                              (if (0 <? list_max (map (@length Z) idss))%nat
                               then p else to_long (of_long p)))
                     idss)).
Proof.
  intro Hne. destruct idss as [|ids0 rest]; [congruence|]. clear Hne.
  set (idss := ids0 :: rest).
  pose proof (longest_size (as_tensor ids0) (map (@as_tensor F) rest)) as Hsize.
  change (as_tensor ids0 :: map (@as_tensor F) rest) with (map (@as_tensor F) idss) in Hsize.
  rewrite map_as_tensor_size in Hsize.
  pose proof (longest_in (as_tensor ids0) (map (@as_tensor F) rest)) as Hin.
  change (as_tensor ids0 :: map (@as_tensor F) rest) with (map (@as_tensor F) idss) in Hin.
  apply in_map_iff in Hin as (idsl & Hl & Hinl).
  set (n := list_max (map (@length Z) idss)) in *.
  assert (Hle : forall ids, In ids idss -> (length ids <= n)%nat).
  { intros ids Hi. apply list_max_ge. now apply in_map. }
  expose cv. expose (collate_vectors_lhotse of_long to_long).
  change (map (@as_tensor F) idss) with (as_tensor ids0 :: map (@as_tensor F) rest).
  cbv beta iota. unfold padded_width. fold idss. fold n.
  destruct (Nat.ltb_spec 0 n) as [Hpos|Hzero].
  - (* some list is not empty: the batch is int64 from the start *)
    rewrite (as_tensor_long idsl (eq_sym Hl)) by lia.
    assert (Hn : size1 (TLong F idsl) = n).
    { rewrite <- Hsize, <- Hl. now rewrite as_tensor_size. }
    rewrite Hn. cbn [bind size2_1]. rewrite width_map.
    rewrite pad_row_length
      by (rewrite as_long_as_tensor; apply Hle; now left).
    change (as_tensor ids0 :: map (@as_tensor F) rest) with (map (@as_tensor F) idss).
    rewrite map_map.
    rewrite (map_ext (fun x => pad_row n p (as_long to_long (as_tensor x)))
                     (fun x => pad_row n p x))
      by (intro x; now rewrite as_long_as_tensor).
    assert (Hrows :
              (if Z.of_nat n <? L
               then extend_columns of_long (Long2 F (map (fun x => pad_row n p x) idss))
                                   (Z.to_nat (L - Z.of_nat n)) (PyInt F p)
               else Long2 F (map (fun x => pad_row n p x) idss))
              = Long2 F (map (fun x => pad_row (Z.to_nat (Z.max L (Z.of_nat n))) p x) idss)).
    { rewrite <- (@map_pad_row_eq _ _ (fun x : list Z => x) p n _ L idss Hle eq_refl).
      destruct (Z.of_nat n <? L); reflexivity. }
    rewrite Hrows. destruct (size1 (as_tensor ids0) <? 1)%nat; reflexivity.
  - (* every list is empty: float32, then the cast *)
    assert (Hall : forall ids, In ids idss -> ids = []).
    { intros ids Hi. specialize (Hle ids Hi). destruct ids; [reflexivity | cbn [length] in Hle; lia]. }
    assert (Hn0 : n = 0%nat) by lia.
    assert (H0 : ids0 = []) by (apply Hall; now left).
    assert (Hlg : longest (as_tensor ids0) (map (@as_tensor F) rest) = TFloat []).
    { rewrite <- Hl. now rewrite (Hall idsl Hinl). }
    rewrite Hlg. cbn [bind size2_1 size1 length scalar_as_float].
    rewrite width_map. subst ids0. cbn [as_tensor as_float pad_row length app Nat.sub repeat].
    change (TFloat [] :: map (@as_tensor F) rest) with (map (@as_tensor F) idss).
    rewrite map_map.
    rewrite (map_ext_in (fun x => pad_row 0 (of_long p) (as_float of_long (as_tensor x)))
                        (fun _ => @nil F))
      by (intros x Hx; now rewrite (Hall x Hx)).
    rewrite Hn0. change (Z.of_nat 0) with 0.
    cbn [size1 length Nat.ltb Nat.leb].
    destruct (Z.ltb_spec 0 L) as [Hlt|Hge].
    + unfold long. cbn [extend_columns long_rows scalar_as_float]. f_equal. f_equal.
      rewrite !map_map. apply map_ext_in. intros x Hx. rewrite (Hall x Hx).
      cbn [app]. rewrite map_repeat. unfold pad_row. cbn [app length]. f_equal. lia.
    + unfold long. cbn [long_rows]. f_equal. f_equal.
      rewrite !map_map. apply map_ext_in. intros x Hx. rewrite (Hall x Hx).
      replace (Z.to_nat (Z.max L 0)) with 0%nat by lia. reflexivity.
Qed.

(** [X1]  On token-id lists that went through [torch.as_tensor], where
    an empty list comes out as an empty float32 tensor, the padding
    primitive returns an int64 tensor whatever the lists: each row is
    its list followed by the pad id, up to the width
    [max(max_length, longest list)].  The pad id is one that float32
    represents exactly. *)
Theorem collate_vectors_token_ids (idss : list (list Z)) (max_length pad : Z) :
  idss <> [] ->
  to_long (of_long pad) = pad ->
  cv (map (@as_tensor F) idss) max_length (PyInt F pad)
  = Ok (Long2 F (map (fun ids =>
                        ids ++ repeat pad (padded_width max_length (map (@length Z) idss)
                                           - length ids))
                     idss)).
Proof.
  intros Hne Hpad. rewrite collate_vectors_ids by exact Hne.
  rewrite Hpad. now destruct (0 <? _)%nat.
Qed.

Lemma collate_vectors_floats (rows : list (list F)) (L : Z) (f : F) :
  rows <> [] ->
  cv (map (@TFloat F) rows) L (PyFloat f)
  = Ok (let v := Float2 (map (pad_row (padded_width L (map (@length F) rows)) f) rows) in
        if (length (hd [] rows) <? 1)%nat then long to_long v else v).
Proof.
  intro Hne. destruct rows as [|r0 rest]; [congruence|]. clear Hne.
  set (rows := r0 :: rest).
  pose proof (longest_size (TFloat r0) (map (@TFloat F) rest)) as Hsize.
  change (TFloat r0 :: map (@TFloat F) rest) with (map (@TFloat F) rows) in Hsize.
  rewrite map_map in Hsize. cbn [size1] in Hsize.
  set (n := list_max (map (@length F) rows)) in *.
  assert (Hle : forall r, In r rows -> (length r <= n)%nat).
  { intros r Hi. apply list_max_ge. now apply in_map. }
  pose proof (longest_in (TFloat r0) (map (@TFloat F) rest)) as Hin.
  change (TFloat r0 :: map (@TFloat F) rest) with (map (@TFloat F) rows) in Hin.
  apply in_map_iff in Hin as (rl & Hl & _).
  expose cv. expose (collate_vectors_lhotse of_long to_long).
  change (map (@TFloat F) rows) with (TFloat r0 :: map (@TFloat F) rest).
  cbv beta iota. rewrite <- Hl. rewrite <- Hl in Hsize. cbn [size1] in Hsize.
  cbn [bind size2_1 scalar_as_float size1 hd]. rewrite width_map.
  rewrite Hsize. cbn [as_float]. rewrite pad_row_length by (apply Hle; now left).
  change (TFloat r0 :: map (@TFloat F) rest) with (map (@TFloat F) rows).
  rewrite map_map. cbn [as_float].
  assert (Hrows :
            (if Z.of_nat n <? L
             then extend_columns of_long (Float2 (map (fun x => pad_row n f x) rows))
                                 (Z.to_nat (L - Z.of_nat n)) (PyFloat f)
             else Float2 (map (fun x => pad_row n f x) rows))
            = Float2 (map (fun x => pad_row (Z.to_nat (Z.max L (Z.of_nat n))) f x) rows)).
  { rewrite <- (@map_pad_row_eq _ _ (fun x : list F => x) f n _ L rows Hle eq_refl).
    destruct (Z.of_nat n <? L); reflexivity. }
  rewrite Hrows. reflexivity.
Qed.

End WidthFacts.

(** Three id lists, one of them empty, padded to width 4. *)
Lemma collate_vectors_token_ids_witness :
  collate_vectors Binary32.of_long Binary32.to_long
    (map (@as_tensor Binary32.float32) [[]; [7; 8; 9]; [5]]) 4 (PyInt _ 0)
  = Ok (Long2 _ [[0; 0; 0; 0]; [7; 8; 9; 0]; [5; 0; 0; 0]]).
Proof.
  apply (@collate_vectors_token_ids _ Binary32.of_long Binary32.to_long
           [[]; [7; 8; 9]; [5]] 4 0); [discriminate | reflexivity].
Defined.

(** * The layout of the expanded texts and of the placeholder codec *)

Lemma take_app_exact {A} (l r : list A) : take (Z.of_nat (length l)) (l ++ r) = l.
Proof.
  unfold take, slice_bound. destruct (Z.ltb_spec (Z.of_nat (length l)) 0); [lia|].
  rewrite Nat2Z.id, firstn_app, Nat.sub_diag, firstn_all. cbn. apply app_nil_r.
Qed.

Lemma drop_app_exact {A} (l r : list A) : drop (Z.of_nat (length l)) (l ++ r) = r.
Proof.
  unfold drop, slice_bound. destruct (Z.ltb_spec (Z.of_nat (length l)) 0); [lia|].
  rewrite Nat2Z.id, skipn_app, Nat.sub_diag, skipn_all. reflexivity.
Qed.

Lemma take_prefix {A} (k : nat) (l r : list A) :
  length l = k -> take (Z.of_nat k) (l ++ r) = l.
Proof. intros <-. apply take_app_exact. Qed.

Lemma drop_prefix {A} (k : nat) (l r : list A) :
  length l = k -> drop (Z.of_nat k) (l ++ r) = r.
Proof. intros <-. apply drop_app_exact. Qed.

Lemma repeat_split {A} (a : A) (k n : nat) :
  (k <= n)%nat -> repeat a n = repeat a k ++ repeat a (n - k).
Proof. intro H. rewrite <- repeat_app. f_equal. lia. Qed.

Lemma zip_with_repeat_r {A B C} (f : A -> B -> C) (b : B) (l : list A) :
  zip_with f l (repeat b (length l)) = map (fun x => f x b) l.
Proof. induction l as [|x l IH]; simpl; [reflexivity | now rewrite IH]. Qed.

Lemma set_nth_app {A} (l1 l2 : list A) (x v : A) :
  set_nth (length l1) v (l1 ++ x :: l2) = l1 ++ v :: l2.
Proof. induction l1 as [|y l1 IH]; simpl; [reflexivity | now rewrite IH]. Qed.

Lemma on_prefix_app {A} (k : nat) (f : A -> A) (l r : list A) :
  length l = k -> on_prefix (Z.of_nat k) f (l ++ r) = map f l ++ r.
Proof. intro H. unfold on_prefix. now rewrite take_prefix, drop_prefix. Qed.

Lemma removelast_app1 {A} (l : list A) (x : A) : removelast (l ++ [x]) = l.
Proof. apply removelast_last. Qed.

Section LayoutFacts.

Context {F : Type} (of_long : Z -> F) (to_long : F -> Z).
Context (ceil_to_nearest : Z -> Z -> Z).
Context (self : Dataset).

Local Abbreviation K := (Z.to_nat (channels self)).
Local Abbreviation convert := (_convert_text_to_3d_tensor of_long to_long ceil_to_nearest self).

Lemma set_text_pad_step_eq (v : Z) :
  set_text v (pad_step self) = v :: repeat (speech_pad_id self) K.
Proof. reflexivity. Qed.

Lemma set_speech_cons (v w : Z) (n : nat) (s : Z) :
  set_speech v (w :: repeat s n) = w :: repeat v n.
Proof. cbn [set_speech]. now rewrite map_const_repeat, repeat_length. Qed.

(** One iteration of the loop of [_convert_text_to_3d_tensor] on an
    empty example of [n] steps. *)
Lemma fill_text_steps (ids pads : list Z) (n : nat) :
  (length ids < n)%nat ->
  fill_text self (repeat (pad_step self) n) (ids ++ pads) (Z.of_nat (length ids))
  = Ok (text_steps self ids n).
Proof.
  intro Hlt.
  unfold fill_text, assign_text_prefix.
  rewrite take_app_exact.
  rewrite (@repeat_split _ (pad_step self) (length ids) n) by lia.
  rewrite take_prefix, drop_prefix by apply repeat_length.
  rewrite repeat_length, Nat.eqb_refl. cbn [bind].
  rewrite zip_with_repeat_r.
  rewrite on_prefix_app by (now rewrite length_map).
  rewrite map_map.
  rewrite length_app, length_map, repeat_length.
  destruct (Z.leb_spec 0 (Z.of_nat (length ids))); [|lia].
  destruct (Z.ltb_spec (Z.of_nat (length ids)) (Z.of_nat (length ids + (n - length ids)))); [|lia].
  cbn [andb]. f_equal. rewrite Nat2Z.id.
  replace (n - length ids)%nat with (S (n - S (length ids))) by lia. cbn [repeat].
  set (g := fun x => set_speech (speech_unk_id self) (set_text x (pad_step self))).
  replace (length ids) with (length (map g ids)) at 1 by (now rewrite length_map).
  rewrite set_nth_app. unfold text_steps. f_equal.
  apply map_ext. intro v. unfold g. rewrite set_text_pad_step_eq. apply set_speech_cons.
Qed.

Lemma fill_text_length (ex : list (list Z)) (txt : list Z) (tl_ : Z) (e : list (list Z)) :
  fill_text self ex txt tl_ = Ok e -> length e = length ex.
Proof.
  unfold fill_text. intro H. inv_bind H.
  destruct ((0 <=? tl_) && (tl_ <? _)); [|discriminate].
  inv_ok H. rewrite set_nth_length, on_prefix_length.
  unfold assign_text_prefix in E.
  destruct (Nat.eqb_spec (length (take tl_ txt)) (length (take tl_ ex))) as [Heq|Hne].
  - inv_ok E. rewrite length_app, zip_with_length, Heq, Nat.min_id.
    unfold take, drop. rewrite <- length_app, firstn_skipn. reflexivity.
  - destruct (take tl_ txt) as [|v [|]]; try discriminate.
    inv_ok E. apply on_prefix_length.
Qed.

Lemma fill_texts_steps (idss : list (list Z)) (W n : nat) (p : Z) :
  Forall (fun ids => (length ids < n)%nat) idss ->
  fill_texts self (repeat (repeat (pad_step self) n) (length idss))
             (map (pad_row W p) idss) (map (fun ids => Z.of_nat (length ids)) idss)
  = Ok (map (fun ids => text_steps self ids n) idss).
Proof.
  induction 1 as [|ids idss Hlt _ IH]; [reflexivity|].
  cbn [length repeat map fill_texts]. unfold pad_row at 1.
  rewrite fill_text_steps by exact Hlt. cbn [bind]. rewrite IH. reflexivity.
Qed.

Lemma fill_texts_bound (exs : list (list (list Z))) (idss : list (list Z)) (n : nat)
      (txts : list (list Z)) (r : list (list (list Z))) :
  Forall (fun ex => length ex = n) exs -> length exs = length idss -> length txts = length idss ->
  fill_texts self exs txts (map (fun ids => Z.of_nat (length ids)) idss) = Ok r ->
  Forall (fun ids => (length ids < n)%nat) idss.
Proof.
  revert idss txts r; induction exs as [|ex exs IH]; intros idss txts r Hn Hl Ht H.
  - destruct idss; [constructor | discriminate].
  - destruct idss as [|ids idss]; [discriminate|].
    destruct txts as [|txt txts]; [discriminate|].
    cbn [map fill_texts] in H. inv_bind H. inv_bind H. inv_ok H.
    apply Forall_cons_iff in Hn as (Hn0 & Hn').
    constructor.
    + pose proof (fill_text_inv _ _ _ _ E) as Hb. apply fill_text_length in E. lia.
    + cbn [length] in Hl, Ht. eapply (IH idss txts x0); [exact Hn' | lia | lia | exact E0].
Qed.

Lemma text_steps_length (ids : list Z) (n : nat) :
  (length ids < n)%nat -> length (text_steps self ids n) = n.
Proof.
  intro H. unfold text_steps. rewrite !length_app, length_map, repeat_length. cbn [length]. lia.
Qed.

(** [_convert_text_to_3d_tensor] on token-id lists, in closed form. *)
Lemma convert_text_ids (idss : list (list Z)) (inc : bool) (ttg : Z)
      (t : tensor2 F) (lens : list Z) (e : list (list (list Z))) :
  convert (map (@as_tensor F) idss) inc ttg = Ok (t, lens, e) ->
  let ls := map (@length Z) idss in
  let W := padded_width (text_max_length ceil_to_nearest self ls) ls in
  let n := Z.to_nat (Z.of_nat W + 1 + ttg) in
  idss <> [] /\ 0 <= channels self /\ 0 <= Z.of_nat W + 1 + ttg /\
  Forall (fun ids => (length ids < n)%nat) idss /\
  lens = map (fun ids => Z.of_nat (length ids)) idss /\
  t = Long2 F (map (pad_row W (if (0 <? list_max ls)%nat then text_pad_id self
                               else to_long (of_long (text_pad_id self)))) idss) /\
  e = map (fun ids => if inc then text_steps self ids n else removelast (text_steps self ids n))
          idss.
Proof.
  intros H ls W n. expose convert in H. inv_bind H. destruct x as (texts & text_lengths).
  cbn zeta in H. unfold collate_and_pad_1d in E. inv_bind E. inv_bind E. inv_ok E.
  assert (Hsz : map (fun s : tensor1 F => Z.of_nat (size1 s)) (map (@as_tensor F) idss)
                = map Z.of_nat ls).
  { unfold ls. rewrite !map_map. apply map_ext. intro ids. now rewrite as_tensor_size. }
  rewrite Hsz in E0, H.
  assert (Hne : idss <> []) by (intros ->; discriminate E0).
  assert (Hls : ls <> []) by (unfold ls; destruct idss; [congruence | discriminate]).
  rewrite py_max_list_max in E0 by exact Hls. injection E0 as <-.
  change (if pad_to_max_length self then max_seq_length self
          else Z.min (max_seq_length self) (ceil_to_nearest (Z.of_nat (list_max ls)) 8))
    with (text_max_length ceil_to_nearest self ls) in E1.
  rewrite collate_vectors_ids in E1 by exact Hne. fold ls in E1. fold W in E1.
  injection E1 as <-.
  set (p := if (0 <? list_max ls)%nat then text_pad_id self
            else to_long (of_long (text_pad_id self))) in *.
  assert (HW : forall ids, In ids idss -> (length ids <= W)%nat).
  { intros ids Hin. unfold W, padded_width.
    pose proof (@list_max_ge ls (length ids) (in_map _ _ _ Hin)). lia. }
  assert (Hwidth : width (map (pad_row W p) idss) = W).
  { destruct idss as [|ids0 rest]; [congruence|]. rewrite width_map.
    apply pad_row_length, HW. now left. }
  cbn [size2_0 size2_1 long_rows] in H. rewrite length_map, Hwidth in H.
  inv_bind H. inv_bind H. injection H as <- <- <-.
  apply get_3d_empty_tensor_ok in E as (Hch & Hn & ->). fold n in E0.
  assert (Hlt : Forall (fun ids => (length ids < n)%nat) idss).
  { eapply (@fill_texts_bound _ idss n (map (pad_row W p) idss)); [| | |].
    4:{ unfold ls in E0. rewrite map_map in E0. exact E0. }
    - apply Forall_forall. intros ex Hex. apply repeat_spec in Hex. subst ex.
      apply repeat_length.
    - apply repeat_length.
    - apply length_map. }
  unfold ls in E0. rewrite map_map in E0.
  change (text_pad_id self :: repeat (speech_pad_id self) K) with (pad_step self) in E0.
  rewrite fill_texts_steps in E0 by exact Hlt. injection E0 as <-.
  repeat split; auto.
  - unfold ls. now rewrite map_map.
  - destruct inc; [reflexivity|]. unfold drop_last_step. now rewrite map_map.
Qed.

(** [X3]  [_convert_text_to_3d_tensor] on a non-empty batch of token-id
    lists, with a non-negative number of speech columns and of tokens
    to generate, returns; the lengths are those of the lists, and the
    expanded example of a list holds one step per token (the token in
    the text column, the unknown speech id in the others), then the
    end marker (text eos, speech bos), then padding, over
    [width + 1 + tokens_to_generate] steps; without the eos the last
    step is dropped, which is the end marker itself only for a list
    that fills the whole width. *)
Theorem convert_text_to_3d_tensor_layout (idss : list (list Z)) (include_eos : bool) (ttg : Z) :
  idss <> [] -> 0 <= channels self -> 0 <= ttg ->
  let ls := map (@length Z) idss in
  let W := padded_width (text_max_length ceil_to_nearest self ls) ls in
  let n := Z.to_nat (Z.of_nat W + 1 + ttg) in
  exists texts,
    convert (map (@as_tensor F) idss) include_eos ttg
    = Ok (texts, map (fun ids => Z.of_nat (length ids)) idss,
          map (fun ids => if include_eos then text_steps self ids n
                          else removelast (text_steps self ids n)) idss) /\
    size2_0 texts = length idss /\ size2_1 texts = W.
Proof.
  intros Hne Hch Httg ls W n.
  assert (Hsz : map (fun s : tensor1 F => Z.of_nat (size1 s)) (map (@as_tensor F) idss)
                = map Z.of_nat ls).
  { unfold ls. rewrite !map_map. apply map_ext. intro ids. now rewrite as_tensor_size. }
  assert (Hls : ls <> []) by (unfold ls; destruct idss; [congruence | discriminate]).
  set (p := if (0 <? list_max ls)%nat then text_pad_id self
            else to_long (of_long (text_pad_id self))).
  assert (HW : forall ids, In ids idss -> (length ids <= W)%nat).
  { intros ids Hin. unfold W, padded_width.
    pose proof (@list_max_ge ls (length ids) (in_map _ _ _ Hin)). lia. }
  assert (Hwidth : width (map (pad_row W p) idss) = W).
  { destruct idss as [|ids0 rest]; [congruence|]. rewrite width_map.
    apply pad_row_length, HW. now left. }
  exists (Long2 F (map (pad_row W p) idss)).
  split; [|split; [cbn [size2_0]; apply length_map | exact Hwidth]].
  expose convert. unfold collate_and_pad_1d. rewrite Hsz.
  rewrite py_max_list_max by exact Hls. cbn [bind].
  change (if pad_to_max_length self then max_seq_length self
          else Z.min (max_seq_length self) (ceil_to_nearest (Z.of_nat (list_max ls)) 8))
    with (text_max_length ceil_to_nearest self ls).
  rewrite collate_vectors_ids by exact Hne. fold ls. fold W. fold p. cbn [bind].
  cbn [size2_0 size2_1 long_rows]. rewrite length_map, Hwidth.
  unfold get_3d_empty_tensor, full.
  destruct (Z.ltb_spec (channels self) 0); [lia|]. cbn [bind].
  destruct (Z.ltb_spec (Z.of_nat W + 1 + ttg) 0); [lia|]. cbn [bind]. fold n.
  change (text_pad_id self :: repeat (speech_pad_id self) K) with (pad_step self).
  unfold ls. rewrite map_map.
  rewrite fill_texts_steps.
  - cbn [bind]. destruct include_eos; [reflexivity|].
    unfold drop_last_step. now rewrite map_map.
  - apply Forall_forall. intros ids Hin. specialize (HW ids Hin). lia.
Qed.

End LayoutFacts.

(** *** The placeholder codec *)

Section CodecFacts.

Context {F : Type} (of_long : Z -> F) (to_long : F -> Z) (fzero : F).
Context (codec_frames : Z -> Z).
Context (self : Dataset).

Local Abbreviation K := (Z.to_nat (channels self)).
Local Abbreviation codec := (build_target_codec of_long to_long fzero codec_frames self).

Lemma fill_codec_bound (ex : list (list Z)) (fl : Z) (e : list (list Z)) :
  fill_codec self ex fl = Ok e -> 0 <= channels self /\ 0 <= fl < Z.of_nat (length ex).
Proof.
  unfold fill_codec. intro H. inv_bind H. inv_bind H.
  apply full_ok in E as (Hch & _).
  apply full_ok in E0 as (Hfl & ->). rewrite repeat_length, Z2Nat.id in H by exact Hfl.
  apply set_item_inv in H as (Hlt & _); [|exact Hfl].
  rewrite !on_prefix_length in Hlt. lia.
Qed.

Lemma fill_codec_steps (fl : Z) (n : nat) :
  0 <= channels self -> 0 <= fl -> (Z.to_nat fl < n)%nat ->
  fill_codec self (repeat (pad_step self) n) fl = Ok (codec_steps self fl n).
Proof.
  intros Hch Hfl Hlt. unfold fill_codec, full.
  destruct (Z.ltb_spec (channels self) 0); [lia|]. cbn [bind].
  destruct (Z.ltb_spec fl 0); [lia|]. cbn [bind]. rewrite repeat_length.
  set (k := Z.to_nat fl) in *.
  replace fl with (Z.of_nat k) by (unfold k; lia).
  rewrite (@repeat_split _ (pad_step self) k n) by lia.
  rewrite on_prefix_app by apply repeat_length.
  rewrite on_prefix_app by (now rewrite length_map, repeat_length).
  rewrite map_map, map_repeat.
  rewrite set_item_ok
    by (rewrite length_app, !repeat_length; lia).
  f_equal. rewrite Nat2Z.id.
  replace (n - k)%nat with (S (n - S k)) by lia. cbn [repeat].
  set (frame := set_speech (speech_pad_id self - 1) (set_text (text_unk_id self) (pad_step self))).
  replace k with (length (repeat frame k)) at 1 by apply repeat_length.
  rewrite set_nth_app. unfold codec_steps. rewrite Nat2Z.id. f_equal. f_equal.
  unfold frame. rewrite set_text_pad_step_eq. apply set_speech_cons.
Qed.

Lemma fill_codecs_steps (fls : list Z) (n : nat) :
  0 <= channels self ->
  Forall (fun fl => 0 <= fl /\ (Z.to_nat fl < n)%nat) fls ->
  fill_codecs self (repeat (repeat (pad_step self) n) (length fls)) fls
  = Ok (map (fun fl => codec_steps self fl n) fls).
Proof.
  intro Hch. induction 1 as [|fl fls (H0 & Hlt) _ IH]; [reflexivity|].
  cbn [length repeat map fill_codecs].
  rewrite fill_codec_steps by assumption. cbn [bind]. rewrite IH. reflexivity.
Qed.

Lemma fill_codecs_bound (exs : list (list (list Z))) (fls : list Z) (n : nat)
      (r : list (list (list Z))) :
  Forall (fun ex => length ex = n) exs -> length exs = length fls ->
  fill_codecs self exs fls = Ok r ->
  Forall (fun fl => 0 <= fl /\ (Z.to_nat fl < n)%nat) fls.
Proof.
  revert fls r; induction exs as [|ex exs IH]; intros fls r Hn Hl H.
  - destruct fls; [constructor | discriminate].
  - destruct fls as [|fl fls]; [discriminate|].
    cbn [fill_codecs] in H. inv_bind H. inv_bind H. inv_ok H.
    apply Forall_cons_iff in Hn as (Hn0 & Hn').
    constructor.
    + apply fill_codec_bound in E. lia.
    + cbn [length] in Hl. eapply (IH fls x0); [exact Hn' | lia | exact E0].
Qed.

Lemma mapM_target_audio (cuts : list (Cut F)) (auds : list (list F)) :
  mapM (fun cut => match target_audio cut with
                   | Some a => Ok a
                   | None => Raise AttributeError
                   end) cuts = Ok auds ->
  map (@target_audio F) cuts = map (@Some (list F)) auds.
Proof.
  revert auds; induction cuts as [|c cuts IH]; intros auds H.
  - cbn in H. injection H as <-. reflexivity.
  - cbn [mapM] in H. inv_bind H. inv_bind H. injection H as <-.
    destruct (target_audio c) as [a|] eqn:Ea; [|discriminate]. injection E as <-.
    cbn [map]. rewrite Ea. f_equal. now apply IH.
Qed.

Lemma answer_samples_of_cuts (cuts : list (Cut F)) (auds : list (list F)) :
  map (@target_audio F) cuts = map (@Some (list F)) auds ->
  auds = map (@answer_samples F) cuts.
Proof.
  revert auds; induction cuts as [|c cuts IH]; intros [|a auds] H; try discriminate.
  - reflexivity.
  - cbn [map] in *. injection H as Ha Hr. unfold answer_samples at 1. rewrite Ha.
    f_equal. now apply IH.
Qed.

(** The answer-audio block of lines 336-363, in closed form. *)
Lemma build_target_codec_layout (cuts : list (Cut F)) (cs : codec_stage F) :
  codec cuts = Ok cs ->
  let auds := map (@answer_samples F) cuts in
  cuts <> [] /\ 0 <= channels self /\
  Forall (fun cut => target_audio cut <> None) cuts /\
  cs_answer_audio_lens cs = map (fun a => Z.of_nat (length a)) auds /\
  cs_answer_audios cs = float_rows of_long (padded_samples to_long fzero auds) /\
  cs_features_lens cs = map (features_len codec_frames) cuts /\
  exists max_feat,
    py_max (cs_features_lens cs) = Ok max_feat /\
    Forall (fun fl => 0 <= fl <= max_feat) (cs_features_lens cs) /\
    cs_target_codec cs
    = map (fun cut => codec_steps self (features_len codec_frames cut) (Z.to_nat (max_feat + 1)))
          cuts.
Proof.
  intros H auds. expose codec in H.
  inv_bind H. inv_bind H. inv_bind H. inv_bind H. inv_bind H. inv_bind H. inv_bind H.
  inv_bind H. inv_bind H. inv_bind H. injection H as <-.
  cbn [cs_features_lens cs_target_codec cs_answer_audio_lens cs_answer_audios].
  apply mapM_target_audio in E3 as Haud.
  pose proof (@answer_samples_of_cuts cuts x3 Haud) as Hx. fold auds in Hx. subst x3.
  assert (Hne : cuts <> []) by (intros ->; discriminate E0).
  assert (Hane : auds <> []) by (unfold auds; destruct cuts; [congruence | discriminate]).
  assert (Hfl : map codec_frames (map (fun a => Z.of_nat (length a)) auds)
                = map (features_len codec_frames) cuts).
  { unfold auds. rewrite !map_map. reflexivity. }
  rewrite Hfl in *.
  apply get_3d_empty_tensor_ok in E7 as (Hch & Hn & ->).
  change (text_pad_id self :: repeat (speech_pad_id self) K) with (pad_step self) in E8.
  assert (Hlen : length cuts = length (map (features_len codec_frames) cuts))
    by (now rewrite length_map).
  assert (Hb : Forall (fun fl => 0 <= fl /\ (Z.to_nat fl < Z.to_nat (x6 + 1))%nat)
                      (map (features_len codec_frames) cuts)).
  { eapply fill_codecs_bound; [| |exact E8].
    - apply Forall_forall. intros ex Hex. apply repeat_spec in Hex. subst ex.
      apply repeat_length.
    - rewrite repeat_length. exact Hlen. }
  rewrite Hlen in E8. rewrite fill_codecs_steps in E8 by assumption.
  injection E8 as <-.
  split; [exact Hne|]. split; [exact Hch|]. split.
  { apply Forall_forall. intros c Hc Hnone.
    assert (Hin : In None (map (@target_audio F) cuts)) by (rewrite <- Hnone; now apply in_map).
    rewrite Haud in Hin. apply in_map_iff in Hin as (a & Ha & _). discriminate. }
  split; [reflexivity|]. split.
  { replace (map (fun a => Z.of_nat (length a)) auds)
      with (map Z.of_nat (map (@length F) auds)) in E4 by (now rewrite map_map).
    rewrite py_max_list_max in E4
      by (destruct auds; [congruence | discriminate]).
    injection E4 as <-.
    rewrite collate_vectors_floats in E5 by exact Hane. injection E5 as <-.
    unfold padded_samples, padded_width.
    now replace (Z.to_nat (Z.max (Z.of_nat (list_max (map (@length F) auds)))
                                 (Z.of_nat (list_max (map (@length F) auds)))))
      with (list_max (map (@length F) auds)) by lia. }
  split; [reflexivity|].
  exists x6. split; [exact E6|]. split.
  - apply Forall_forall. intros fl Hin.
    pose proof (py_max_ge _ E6 _ Hin).
    rewrite Forall_forall in Hb. specialize (Hb fl Hin). lia.
  - now rewrite map_map.
Qed.

(** [X4]  When the answer-audio block (lines 336-363) succeeds, the
    frame count of a cut is [ceil(len(target_audio) / downsampling)],
    never negative, and its placeholder codec holds that many frames
    with the unknown text id and [speech_pad_id - 1] in the speech
    columns, then the end marker (unknown text id, speech eos), then
    padding, over [max(frames) + 1] steps. *)
Theorem target_codec_placeholder (cuts : list (Cut F)) (cs : codec_stage F) :
  codec cuts = Ok cs ->
  cs_features_lens cs = map (features_len codec_frames) cuts /\
  Forall (fun fl => 0 <= fl) (cs_features_lens cs) /\
  exists max_feat,
    py_max (cs_features_lens cs) = Ok max_feat /\
    cs_target_codec cs
    = map (fun cut => codec_steps self (features_len codec_frames cut) (Z.to_nat (max_feat + 1)))
          cuts.
Proof.
  intro H.
  destruct (@build_target_codec_layout cuts cs H) as (_ & _ & _ & _ & _ & Hfl & mf & Hmax & Hb & Hc).
  split; [exact Hfl|]. split.
  - eapply Forall_impl; [|exact Hb]. cbv beta. tauto.
  - eauto.
Qed.

End CodecFacts.

(** Two instructions of two and one tokens, with the end marker. *)
Lemma convert_text_to_3d_tensor_layout_witness :
  exists texts,
    _convert_text_to_3d_tensor Binary32.of_long Binary32.to_long Demo.ceil_to_nearest
      (Demo.dataset false true 1) (map (@as_tensor Binary32.float32) [[5; 6]; [7]]) true 0
    = Ok (texts, [2; 1],
          [text_steps (Demo.dataset false true 1) [5; 6] 9;
           text_steps (Demo.dataset false true 1) [7] 9]) /\
    size2_0 texts = 2%nat /\ size2_1 texts = 8%nat.
Proof.
  apply (@convert_text_to_3d_tensor_layout _ Binary32.of_long Binary32.to_long
           Demo.ceil_to_nearest (Demo.dataset false true 1) [[5; 6]; [7]] true 0);
    [discriminate | vm_compute; discriminate | lia].
Defined.

(** Answer audios of six and three samples at two samples a frame. *)
Lemma target_codec_placeholder_witness :
  exists cs,
    build_target_codec Binary32.of_long Binary32.to_long Binary32.fzero
      (Binary32.codec_frames Demo.downsampling) (Demo.dataset false true 1)
      (Demo.two_cuts S2S) = Ok cs /\
    cs_features_lens cs = [3; 2] /\
    cs_target_codec cs
    = [codec_steps (Demo.dataset false true 1) 3 4; codec_steps (Demo.dataset false true 1) 2 4].
Proof.
  destruct (build_target_codec Binary32.of_long Binary32.to_long Binary32.fzero
              (Binary32.codec_frames Demo.downsampling) (Demo.dataset false true 1)
              (Demo.two_cuts S2S)) as [cs|e] eqn:E; [|vm_compute in E; discriminate].
  destruct (target_codec_placeholder _ _ _ _ _ _ E) as (Hfl & _ & max_feat & Hmax & Hcodec).
  exists cs. split; [reflexivity|]. split; [rewrite Hfl; reflexivity|].
  rewrite Hcodec. rewrite Hfl in Hmax. vm_compute in Hmax. injection Hmax as <-.
  reflexivity.
Defined.

(** * The fields of a returned batch *)

Lemma mapM_map_eq {A B C} (f : A -> result B) (g : B -> C) (h : A -> C)
      (xs : list A) (ys : list B) :
  mapM f xs = Ok ys -> (forall x y, f x = Ok y -> g y = h x) -> map g ys = map h xs.
Proof.
  revert ys; induction xs as [|x xs IH]; intros ys H Hgh.
  - cbn in H. injection H as <-. reflexivity.
  - cbn [mapM] in H. inv_bind H. inv_bind H. injection H as <-.
    cbn [map]. f_equal; auto.
Qed.

Lemma zip_with_map_map {A B C D} (f : B -> C -> D) (g : A -> B) (h : A -> C) (l : list A) :
  zip_with f (map g l) (map h l) = map (fun x => f (g x) (h x)) l.
Proof. induction l as [|x l IH]; cbn; [reflexivity | now rewrite IH]. Qed.

Lemma combine_map_map {A B C} (g : A -> B) (h : A -> C) (l : list A) :
  combine (map g l) (map h l) = map (fun x => (g x, h x)) l.
Proof. induction l as [|x l IH]; cbn; [reflexivity | now rewrite IH]. Qed.

Lemma last_cut_map {A B} (g : A -> B) (l : list A) (c : A) :
  last_cut l = Ok c -> last_cut (map g l) = Ok (g c).
Proof.
  unfold last_cut. rewrite <- map_rev. destruct (rev l); [discriminate|].
  intro H. injection H as <-. reflexivity.
Qed.

Section BatchFacts.

Context {F : Type} (of_long : Z -> F) (to_long : F -> Z) (fzero fone : F).
Context (sort_by_duration : list (Cut F) -> list (Cut F)).
Context (re_findall_time : string -> list Z) (re_sub_time collapse_spaces : string -> string).
Context (split : string -> list string) (ceil_to_nearest : Z -> Z -> Z).
Context (discretize_time codec_frames : Z -> Z).
Context (self : Dataset).

Local Abbreviation K := (Z.to_nat (channels self)).
Local Abbreviation tok := (@tokenize_cut F re_findall_time re_sub_time collapse_spaces split self).
Local Abbreviation toks := (@tokenize_cuts F re_findall_time re_sub_time collapse_spaces split self).
Local Abbreviation prep :=
  (prepare of_long to_long fzero sort_by_duration re_findall_time re_sub_time collapse_spaces
           split ceil_to_nearest discretize_time codec_frames self).
Local Abbreviation get :=
  (getitem of_long to_long fzero fone sort_by_duration re_findall_time re_sub_time
           collapse_spaces split ceil_to_nearest discretize_time codec_frames self).
Local Abbreviation mode_of := (dispatched_mode sort_by_duration).
Local Abbreviation iids := (@instruction_ids F self).
Local Abbreviation tids := (@target_ids F re_findall_time re_sub_time collapse_spaces split self).
Local Abbreviation flen := (@features_len F codec_frames).
Local Abbreviation wmax := (text_max_length ceil_to_nearest self).

Lemma tokenize_cut_ids (c : Cut F) (ex : example F) :
  tok c = Ok ex ->
  ex_instruction ex = as_tensor (iids c) /\ ex_target_text ex = as_tensor (tids c) /\
  ex_use_timestamp ex = s2s_align c.
Proof.
  expose tok. unfold nth_or_raise, instruction_ids, target_ids. intro H.
  destruct (supervisions c) as [|s0 [|s1 r]]; cbn [nth_error bind] in H; try discriminate.
  - destruct (speaker s0 =? "user")%string; discriminate.
  - destruct (speaker s0 =? "user")%string; [|discriminate]. cbn [bind] in H.
    destruct (speaker s1 =? "agent")%string; [|discriminate].
    destruct (s2s_align c); cbn [negb] in H.
    + destruct (extract_text_and_time_tokens re_findall_time re_sub_time split self (text s1))
        as ((tt_ & st) & wl).
      injection H as <-. cbn. auto.
    + injection H as <-. cbn. auto.
Qed.

Lemma tokenize_cuts_ids (cuts : list (Cut F)) (exs : list (example F)) :
  toks cuts = Ok exs ->
  map (@ex_instruction F) exs = map (@as_tensor F) (map iids cuts) /\
  map (@ex_target_text F) exs = map (@as_tensor F) (map tids cuts).
Proof.
  intro H. rewrite !map_map. split.
  - eapply mapM_map_eq; [exact H|]. intros c ex Hc. now apply tokenize_cut_ids in Hc.
  - eapply mapM_map_eq; [exact H|]. intros c ex Hc. now apply tokenize_cut_ids in Hc.
Qed.

(** The stages of a successful [prepare], each in closed form on the
    sorted cuts. *)
Lemma prepare_layout (cuts : list (Cut F)) (pb : pre_batch F) :
  prep cuts = Ok pb ->
  let sorted := sort_by_duration cuts in
  let ils := map (@length Z) (map iids sorted) in
  let tls := map (@length Z) (map tids sorted) in
  let Wi := padded_width (wmax ils) ils in
  let Wt := padded_width (wmax tls) tls in
  let ni := Z.to_nat (Z.of_nat Wi + 1 + tokens_to_generate self) in
  let nt := Z.to_nat (Z.of_nat Wt + 1 + 0) in
  sorted <> [] /\ 0 <= channels self /\
  pb_cuts pb = sorted /\
  pb_audio pb = padded_samples to_long fzero (map (@audio F) sorted) /\
  pb_audio_lens pb = map (fun c => Z.of_nat (length (audio c))) sorted /\
  cs_answer_audio_lens (pb_codec pb)
  = map (fun c => Z.of_nat (length (answer_samples c))) sorted /\
  cs_answer_audios (pb_codec pb)
  = float_rows of_long (padded_samples to_long fzero (map (@answer_samples F) sorted)) /\
  cs_features_lens (pb_codec pb) = map flen sorted /\
  Forall (fun c => 0 <= flen c) sorted /\
  Forall (fun ids => (length ids < ni)%nat) (map iids sorted) /\
  Forall (fun ids => (length ids < nt)%nat) (map tids sorted) /\
  pb_instruction_lengths pb = map (fun c => Z.of_nat (length (iids c))) sorted /\
  pb_instructions pb
  = Long2 F (map (fun c => pad_row Wi (if (0 <? list_max ils)%nat then text_pad_id self
                                       else to_long (of_long (text_pad_id self))) (iids c))
                 sorted) /\
  pb_target_texts pb
  = Long2 F (map (fun c => pad_row Wt (if (0 <? list_max tls)%nat then text_pad_id self
                                       else to_long (of_long (text_pad_id self))) (tids c))
                 sorted) /\
  pb_instructions_expanded_no_eos pb
  = map (fun c => removelast (text_steps self (iids c) ni)) sorted /\
  exists cut ex exs max_feat,
    last_cut sorted = Ok cut /\ toks sorted = Ok exs /\ last_cut exs = Ok ex /\
    py_max (map flen sorted) = Ok max_feat /\
    Forall (fun c => flen c <= max_feat) sorted /\
    cs_target_codec (pb_codec pb)
    = map (fun c => codec_steps self (flen c) (Z.to_nat (max_feat + 1))) sorted /\
    assemble to_long discretize_time self exs
             (map (fun c => codec_steps self (flen c) (Z.to_nat (max_feat + 1))) sorted)
             (map flen sorted)
             (map (fun c => Z.of_nat (length (tids c))) sorted)
             (map (fun c => text_steps self (tids c) nt) sorted)
             (map (fun c => Z.of_nat (length (iids c))) sorted)
             (map (fun c => removelast (text_steps self (iids c) ni)) sorted)
             (ex_instruction_length ex) cut
    = Ok (pb_assembled pb).
Proof.
  intros Hpb sorted ils tls Wi Wt ni nt.
  destruct (prepare_inv _ _ _ _ _ _ _ _ _ _ _ _ _ Hpb)
    as [exs cut ex ttl tte Htok Haud Hcodec Htt Hit Hcut Hex Hasm Hcuts].
  fold sorted in Htok, Haud, Hcodec, Hcut, Hcuts.
  destruct (tokenize_cuts_ids _ Htok) as (Hi & Ht).
  rewrite Ht in Htt. rewrite Hi in Hit.
  apply convert_text_ids in Htt as (_ & Hch & _ & Htlt & -> & Htexts & ->).
  apply convert_text_ids in Hit as (_ & _ & _ & Hilt & Hils & Hinstr & Hiexp).
  fold ils Wi ni in Hilt, Hils, Hinstr, Hiexp. fold tls Wt nt in Htlt, Htexts, Hasm.
  destruct (@build_target_codec_layout _ of_long to_long fzero codec_frames self sorted _ Hcodec)
    as (Hne & _ & _ & Hal & Haa & Hfl & mf & Hmax & Hb & Hc).
  rewrite Hfl in Hmax, Hb. rewrite Hc, Hfl, Hils, Hiexp in Hasm. rewrite !map_map in Hasm.
  assert (Hsrc : pb_audio pb = padded_samples to_long fzero (map (@audio F) sorted) /\
                 pb_audio_lens pb = map (fun c => Z.of_nat (length (audio c))) sorted).
  { expose (load_source_audio of_long to_long fzero) in Haud.
    inv_bind Haud. inv_bind Haud. injection Haud as <- <-.
    split; [|now rewrite map_map].
    assert (Hane : map (@audio F) sorted <> [])
      by (destruct sorted; [congruence | discriminate]).
    rewrite <- (map_map (@length F) Z.of_nat) in E.
    rewrite py_max_list_max in E by (destruct (map (@audio F) sorted); [congruence | discriminate]).
    injection E as <-.
    rewrite collate_vectors_floats in E0 by exact Hane. injection E0 as <-.
    unfold padded_samples, padded_width.
    now replace (Z.to_nat (Z.max (Z.of_nat (list_max (map (@length F) (map (@audio F) sorted))))
                                 (Z.of_nat (list_max (map (@length F) (map (@audio F) sorted))))))
      with (list_max (map (@length F) (map (@audio F) sorted))) by lia. }
  destruct Hsrc as (Hsrc & Hsrcl).
  split; [exact Hne|]. split; [exact Hch|]. split; [exact Hcuts|].
  split; [exact Hsrc|]. split; [exact Hsrcl|].
  split; [now rewrite Hal, map_map|]. split; [exact Haa|]. split; [exact Hfl|].
  split.
  { apply Forall_forall. intros c Hin. rewrite Forall_forall in Hb.
    specialize (Hb (flen c) (in_map _ _ _ Hin)). lia. }
  split; [exact Hilt|]. split; [exact Htlt|].
  split; [now rewrite Hils, map_map|].
  split; [now rewrite Hinstr, map_map|].
  split; [now rewrite Htexts, map_map|].
  split; [now rewrite Hiexp, map_map|].
  exists cut, ex, exs, mf.
  split; [exact Hcut|]. split; [exact Htok|]. split; [exact Hex|]. split; [exact Hmax|].
  split.
  { apply Forall_forall. intros c Hin. rewrite Forall_forall in Hb.
    specialize (Hb (flen c) (in_map _ _ _ Hin)). lia. }
  split; [exact Hc|].
  exact Hasm.
Qed.

Lemma take_text_steps (ids : list Z) (n : nat) :
  take (Z.of_nat (length ids) + 1) (text_steps self ids n)
  = map (token_step self) ids ++ [text_end_marker self].
Proof.
  unfold text_steps. rewrite app_assoc.
  replace (Z.of_nat (length ids) + 1) with (Z.of_nat (S (length ids))) by lia.
  apply take_prefix. rewrite length_app, length_map. cbn [length]. lia.
Qed.

Lemma take_codec_steps (fl : Z) (n : nat) :
  0 <= fl ->
  take (fl + 1) (codec_steps self fl n)
  = repeat (codec_frame self) (Z.to_nat fl) ++ [codec_end_marker self].
Proof.
  intro Hfl. unfold codec_steps. rewrite app_assoc.
  replace (fl + 1) with (Z.of_nat (S (Z.to_nat fl))) by lia.
  apply take_prefix. rewrite length_app, repeat_length. cbn [length]. lia.
Qed.

Lemma removelast_text_steps (ids : list Z) (n : nat) :
  (length ids < n)%nat ->
  removelast (text_steps self ids n)
  = map (token_step self) ids
    ++ match (n - S (length ids))%nat with
       | O => []
       | S k => text_end_marker self :: repeat (pad_step self) k
       end.
Proof.
  intro Hlt. unfold text_steps.
  destruct (n - S (length ids))%nat as [|k] eqn:Ek.
  - cbn [repeat]. rewrite !app_nil_r. apply removelast_last.
  - rewrite removelast_app by (cbn; discriminate). f_equal.
    change ([text_end_marker self] ++ repeat (pad_step self) (S k))
      with (text_end_marker self :: repeat (pad_step self) (S k)).
    replace (repeat (pad_step self) (S k)) with (repeat (pad_step self) k ++ [pad_step self])
      by (rewrite <- repeat_cons; reflexivity).
    rewrite app_comm_cons. apply removelast_last.
Qed.

Lemma take_removelast_text_steps (ids : list Z) (n : nat) :
  (length ids < n)%nat ->
  take (Z.of_nat (length ids)) (removelast (text_steps self ids n))
  = map (token_step self) ids.
Proof.
  intro Hlt. rewrite removelast_text_steps by exact Hlt.
  apply take_prefix. apply length_map.
Qed.

Lemma collate_and_pad_2d_rows (inputs tokens_ : list (list (list Z))) (lens : list Z) :
  collate_and_pad_2d self inputs = Ok (tokens_, lens) ->
  inputs <> [] /\ 0 <= channels self /\
  tokens_ = map (pad_row (list_max (map (@length (list Z)) inputs)) (pad_step self)) inputs /\
  lens = map (fun s => Z.of_nat (length s)) inputs.
Proof.
  intro H. destruct (collate_and_pad_2d_ok _ _ H) as (Hne & Hch & T & Hle & (ex & Hin & Hex) & ->).
  split; [exact Hne|]. split; [exact Hch|]. split.
  - assert (HT : T = list_max (map (@length (list Z)) inputs)).
    { apply Nat.le_antisymm.
      - rewrite <- Hex. apply list_max_ge. now apply in_map.
      - apply list_max_le, Forall_forall. intros n Hn.
        apply in_map_iff in Hn as (e & <- & He). now apply Hle. }
    rewrite <- HT. reflexivity.
  - unfold collate_and_pad_2d in H. inv_bind H. inv_bind H. now injection H as _ <-.
Qed.

Lemma s2s_sequence_steps (c : Cut F) :
  Forall (fun r => length r = S K)
         (s2s_sequence re_findall_time re_sub_time collapse_spaces split codec_frames self c).
Proof.
  unfold s2s_sequence. rewrite !Forall_app. repeat split.
  - destruct (t5_style self); [constructor|].
    apply Forall_forall. intros r Hr. apply in_map_iff in Hr as (v & <- & _).
    cbn. now rewrite repeat_length.
  - apply Forall_forall. intros r Hr. apply in_map_iff in Hr as (v & <- & _).
    cbn. now rewrite repeat_length.
  - constructor; [|constructor]. cbn. now rewrite repeat_length.
  - apply Forall_forall. intros r Hr. apply repeat_spec in Hr. subst r.
    cbn. now rewrite repeat_length.
  - constructor; [|constructor]. cbn. now rewrite repeat_length.
Qed.

(** The [s2s] branch on the closed forms of its inputs. *)
Lemma s2s_assembled (cuts : list (Cut F)) (pb : pre_batch F) :
  prep cuts = Ok pb -> mode_of cuts = Some S2S ->
  let sorted := sort_by_duration cuts in
  let seqs := map (s2s_sequence re_findall_time re_sub_time collapse_spaces split
                                codec_frames self) sorted in
  as_tokens (pb_assembled pb)
  = map (pad_row (list_max (map (@length (list Z)) seqs)) (pad_step self)) seqs /\
  as_full_lengths (pb_assembled pb)
  = map (fun c => Z.of_nat (length (tids c)) + 1 + flen c + 1 + Z.of_nat (length (iids c)))
        sorted /\
  as_target_text_lengths (pb_assembled pb)
  = map (fun c => Z.of_nat (length (tids c))) sorted.
Proof.
  intros Hpb Hmode sorted seqs.
  destruct (@prepare_layout cuts pb Hpb)
    as (Hne & Hch & _ & _ & _ & _ & _ & _ & Hfl0 & Hilt & Htlt & _ & _ & _ & _
        & cut & ex & exs & mf & Hcut & _ & _ & _ & _ & _ & Hasm).
  fold sorted in Hne, Hfl0, Hilt, Htlt, Hcut, Hasm.
  expose mode_of in Hmode. fold sorted in Hmode. rewrite Hcut in Hmode.
  unfold assemble in Hasm. rewrite Hmode in Hasm. unfold assemble_s2s in Hasm.
  rewrite !combine_map_map, zip_with_map_map in Hasm.
  assert (Hlist :
    prepend_instructions self
      (map (fun x => take (Z.of_nat (length (tids x)) + 1)
                          (text_steps self (tids x)
                             (Z.to_nat (Z.of_nat (padded_width
                                (wmax (map (@length Z) (map tids sorted)))
                                (map (@length Z) (map tids sorted))) + 1 + 0)))
                     ++ take (flen x + 1)
                          (codec_steps self (flen x) (Z.to_nat (mf + 1)))) sorted)
      (map (fun c => removelast (text_steps self (iids c)
                        (Z.to_nat (Z.of_nat (padded_width
                           (wmax (map (@length Z) (map iids sorted)))
                           (map (@length Z) (map iids sorted))) + 1
                           + tokens_to_generate self)))) sorted)
      (map (fun c => Z.of_nat (length (iids c))) sorted)
    = seqs).
  { unfold prepend_instructions, seqs, s2s_sequence.
    destruct (t5_style self); cbn [negb].
    - apply map_ext_in. intros c Hc. cbn [app].
      rewrite take_text_steps, take_codec_steps.
      + now rewrite <- app_assoc.
      + rewrite Forall_forall in Hfl0. now apply Hfl0.
    - rewrite combine_map_map, zip_with_map_map.
      apply map_ext_in. intros c Hc.
      rewrite take_removelast_text_steps, take_text_steps, take_codec_steps.
      + now rewrite <- !app_assoc.
      + rewrite Forall_forall in Hfl0. now apply Hfl0.
      + rewrite Forall_forall in Hilt. apply Hilt. now apply in_map. }
  cbv zeta in Hasm. rewrite Hlist in Hasm.
  inv_bind Hasm. destruct x as (tokens_ & lens_). cbn zeta in Hasm. inv_bind Hasm.
  injection Hasm as <-. cbn [as_tokens as_full_lengths as_target_text_lengths].
  apply collate_and_pad_2d_rows in E as (_ & _ & -> & _).
  split; [reflexivity|]. split; [|reflexivity].
  rewrite map_map, zip_with_map_map, map_map, zip_with_map_map. reflexivity.
Qed.

Lemma Forall_take {A} (P : A -> Prop) (n : Z) (l : list A) :
  Forall P l -> Forall P (take n l).
Proof.
  intro H. unfold take. rewrite <- (firstn_skipn (slice_bound (length l) n) l) in H.
  now apply Forall_app in H.
Qed.

Lemma prepend_instructions_shape (n : nat) (token_list ite : list (list (list Z)))
      (itl : list Z) :
  length ite = length token_list -> length itl = length token_list ->
  steps_have n token_list -> steps_have n ite ->
  length (prepend_instructions self token_list ite itl) = length token_list /\
  steps_have n (prepend_instructions self token_list ite itl).
Proof.
  intros Hl1 Hl2 Ht Hi. unfold prepend_instructions.
  destruct (t5_style self); cbn [negb]; [auto|].
  split.
  - rewrite zip_with_length, length_combine. lia.
  - apply Forall_forall. intros ex Hex.
    apply In_zip_with in Hex as ((tt_ & it) & l & Hin & _ & ->).
    apply Forall_app. split.
    + apply Forall_take. unfold steps_have in Hi. rewrite Forall_forall in Hi.
      apply Hi. eapply in_combine_r; eauto.
    + unfold steps_have in Ht. rewrite Forall_forall in Ht.
      apply Ht. eapply in_combine_l; eauto.
Qed.

Lemma text_steps_rows (ids : list Z) (n : nat) :
  Forall (fun r => length r = S K) (text_steps self ids n).
Proof.
  unfold text_steps. rewrite !Forall_app. repeat split.
  - apply Forall_forall. intros r Hr. apply in_map_iff in Hr as (v & <- & _).
    cbn. now rewrite repeat_length.
  - constructor; [|constructor]. cbn. now rewrite repeat_length.
  - apply Forall_forall. intros r Hr. apply repeat_spec in Hr. subst r.
    cbn. now rewrite repeat_length.
Qed.

Lemma codec_steps_rows (fl : Z) (n : nat) :
  Forall (fun r => length r = S K) (codec_steps self fl n).
Proof.
  unfold codec_steps. rewrite !Forall_app. repeat split.
  - apply Forall_forall. intros r Hr. apply repeat_spec in Hr. subst r.
    cbn. now rewrite repeat_length.
  - constructor; [|constructor]. cbn. now rewrite repeat_length.
  - apply Forall_forall. intros r Hr. apply repeat_spec in Hr. subst r.
    cbn. now rewrite repeat_length.
Qed.

Lemma Forall_removelast {A} (P : A -> Prop) (l : list A) :
  Forall P l -> Forall P (removelast l).
Proof.
  rewrite !Forall_forall. intros H x Hx. apply H. now apply In_removelast.
Qed.

Lemma Forall_tl {A} (P : A -> Prop) (l : list A) : Forall P l -> Forall P (tl l).
Proof.
  rewrite !Forall_forall. intros H x Hx. apply H. now apply In_tl.
Qed.

Lemma set_text_length (v : Z) (r : list Z) : length (set_text v r) = length r.
Proof. now destruct r. Qed.

(** The assembled sequence of a prepared batch, in either mode: one
    row per cut, padded to the longest, every step of [1 + K] ids. *)
Lemma assembled_rows (cuts : list (Cut F)) (pb : pre_batch F) :
  prep cuts = Ok pb ->
  exists seqs,
    as_tokens (pb_assembled pb)
    = map (pad_row (list_max (map (@length (list Z)) seqs)) (pad_step self)) seqs /\
    length seqs = length (sort_by_duration cuts) /\
    steps_have (S K) seqs /\
    length (as_full_lengths (pb_assembled pb)) = length (sort_by_duration cuts).
Proof.
  intro Hpb. destruct (returned_modes _ _ _ _ _ _ _ _ _ _ _ _ _ Hpb) as [Hm|Hm].
  - destruct (@s2s_assembled cuts pb Hpb Hm) as (Ht & Hf & _).
    eexists. split; [exact Ht|]. split; [apply length_map|].
    split; [|rewrite Hf; apply length_map].
    apply Forall_forall. intros s Hs. apply in_map_iff in Hs as (c & <- & _).
    apply s2s_sequence_steps.
  - destruct (@prepare_layout cuts pb Hpb)
      as (Hne & Hch & _ & _ & _ & _ & _ & _ & Hfl0 & Hilt & Htlt & _ & _ & _ & _
          & cut & ex & exs & mf & Hcut & Htok & _ & _ & _ & _ & Hasm).
    set (sorted := sort_by_duration cuts) in *.
    expose mode_of in Hm. fold sorted in Hm. rewrite Hcut in Hm.
    unfold assemble in Hasm. rewrite Hm in Hasm. unfold assemble_s2s_align in Hasm.
    inv_bind Hasm. cbv zeta in Hasm. inv_bind Hasm. destruct x0 as (tokens_ & lens_).
    cbn zeta in Hasm. injection Hasm as <-. cbn [as_tokens as_full_lengths].
    apply collate_and_pad_2d_rows in E0 as (_ & _ & -> & _).
    eexists. split; [reflexivity|].
    match goal with
    | |- ?A /\ ?B /\ ?C =>
      cut (A /\ B); [intros (HA & HB); split; [exact HA | split; [exact HB|]]|]
    end.
    { rewrite zip_with_length, !length_map. lia. }
    assert (Hlen : length x = length sorted).
    { unfold _expand_text_with_timestamps_and_word_lengths in E. inv_bind E.
      apply mapM_length in E. rewrite E, length_seq, length_map.
      now apply tokenize_cuts_length in Htok. }
    match goal with
    | |- context [prepend_instructions self ?a ?b ?c] =>
      destruct (@prepend_instructions_shape (S K) a b c) as (H1 & H2)
    end.
    + rewrite !length_map, zip_with_length, length_map. lia.
    + rewrite !length_map, zip_with_length, length_map. lia.
    + apply Forall_forall. intros s Hs. apply in_map_iff in Hs as (codec' & <- & Hc).
      constructor; [cbn; now rewrite repeat_length|].
      apply In_zip_with in Hc as (row & tc & _ & Htc & ->).
      apply in_map_iff in Htc as (c & <- & _).
      apply Forall_forall. intros r Hr.
      apply In_zip_with in Hr as (v & r0 & _ & Hr0 & ->).
      rewrite set_text_length.
      pose proof (codec_steps_rows (flen c) (Z.to_nat (mf + 1))) as Hrows.
      rewrite Forall_forall in Hrows. now apply Hrows.
    + apply Forall_forall. intros s Hs. apply in_map_iff in Hs as (c & <- & _).
      apply Forall_removelast, text_steps_rows.
    + split; [|exact H2]. rewrite H1, !length_map, zip_with_length, length_map. lia.
Qed.

Lemma width_pad_rows {A} (T : nat) (p : A) (seqs : list (list A)) :
  seqs <> [] -> T = list_max (map (@length A) seqs) ->
  width (map (pad_row T p) seqs) = T /\
  Forall (fun ex => length ex = T) (map (pad_row T p) seqs).
Proof.
  intros Hne ->. split.
  - destruct seqs as [|s0 r]; [congruence|]. rewrite width_map.
    apply pad_row_length, list_max_ge. now left.
  - apply Forall_forall. intros ex Hex. apply in_map_iff in Hex as (s0 & <- & Hs).
    apply pad_row_length, list_max_ge. now apply in_map.
Qed.

Lemma s2s_sequence_length (c : Cut F) :
  0 <= flen c ->
  Z.of_nat (length (s2s_sequence re_findall_time re_sub_time collapse_spaces split
                                 codec_frames self c))
  = (if t5_style self then 0 else Z.of_nat (length (iids c)))
    + Z.of_nat (length (tids c)) + 1 + flen c + 1.
Proof.
  intro Hfl. unfold s2s_sequence. rewrite !length_app, length_map, repeat_length.
  cbn [length]. destruct (t5_style self); cbn [length]; rewrite ?length_map; lia.
Qed.

(** [X5]  The layout of an [s2s] batch.  The sequence of a cut is its
    instruction (unless t5-style), its target text, the end marker of
    the text, the placeholder frames of its answer audio, and the end
    marker of the codec; the sequences are padded to the longest with
    pad steps, [tokens] drops the last step of each and [labels] the
    first.  [target_text_lengths] counts the target tokens, and when
    the instruction is part of the sequence [tokens_length] is the
    length of the sequence less one: the clamp to the padded length
    changes nothing. *)
Theorem s2s_batch_layout (cuts : list (Cut F)) (b : batch F) :
  get cuts = Ok b -> mode_of cuts = Some S2S ->
  let sorted := sort_by_duration cuts in
  let seqs := map (s2s_sequence re_findall_time re_sub_time collapse_spaces split
                                codec_frames self) sorted in
  let T := list_max (map (@length (list Z)) seqs) in
  tokens b = map (fun s => removelast (pad_row T (pad_step self) s)) seqs /\
  labels b = map (fun s => tl (pad_row T (pad_step self) s)) seqs /\
  target_text_lengths b = map (fun c => Z.of_nat (length (tids c))) sorted /\
  (t5_style self = false ->
   tokens_length b = map (fun s => Z.of_nat (length s) - 1) seqs).
Proof.
  intros Hb Hmode sorted seqs T.
  destruct (getitem_ok _ _ _ _ _ _ _ _ _ _ _ _ _ _ Hb) as (pb & Hpb & ->).
  destruct (@s2s_assembled cuts pb Hpb Hmode) as (Ht & Hf & Hl).
  fold sorted in Ht, Hf, Hl. fold seqs in Ht. fold T in Ht.
  destruct (@prepare_layout cuts pb Hpb)
    as (Hne & _ & _ & _ & _ & _ & _ & _ & Hfl0 & _).
  fold sorted in Hne, Hfl0.
  cbn [tokens labels target_text_lengths tokens_length return_batch].
  rewrite Ht, Hf, Hl. unfold drop_last_step, drop_first_step. rewrite !map_map.
  split; [reflexivity|]. split; [reflexivity|]. split; [reflexivity|].
  intro Ht5.
  assert (Hseqs : seqs <> []) by (unfold seqs; destruct sorted; [congruence | discriminate]).
  destruct (@width_pad_rows _ T (pad_step self) seqs Hseqs eq_refl) as (Hw & _).
  rewrite Hw. unfold seqs at 1. rewrite map_map. apply map_ext_in. intros c Hc.
  rewrite Forall_forall in Hfl0. rewrite s2s_sequence_length by (now apply Hfl0).
  rewrite Ht5.
  assert (Hle : (length (s2s_sequence re_findall_time re_sub_time collapse_spaces split
                                      codec_frames self c) <= T)%nat).
  { apply list_max_ge. unfold seqs. rewrite map_map.
    apply (in_map (fun x => length (s2s_sequence re_findall_time re_sub_time collapse_spaces
                                                 split codec_frames self x))). exact Hc. }
  pose proof (@s2s_sequence_length c (Hfl0 c Hc)) as Hlen. rewrite Ht5 in Hlen. lia.
Qed.

(** [X6]  The shape of a returned batch, in either mode: [tokens] and
    [labels] are [B, T, 1 + K] tensors for the [B] sorted cuts and the
    [K] speech columns, no entry of [tokens_length] exceeds [T], and
    [loss_mask] has a step exactly where [labels] has one. *)
Theorem batch_shapes (cuts : list (Cut F)) (b : batch F) :
  get cuts = Ok b ->
  exists T : nat,
    has_shape (length (sort_by_duration cuts)) T (S K) (tokens b) /\
    has_shape (length (sort_by_duration cuts)) T (S K) (labels b) /\
    length (tokens_length b) = length (sort_by_duration cuts) /\
    Forall (fun n => n <= Z.of_nat T) (tokens_length b) /\
    forall i t, step (loss_mask b) i t = None <-> step (labels b) i t = None.
Proof.
  intro Hb.
  destruct (getitem_ok _ _ _ _ _ _ _ _ _ _ _ _ _ _ Hb) as (pb & Hpb & ->).
  destruct (@assembled_rows cuts pb Hpb) as (seqs & Ht & Hlen & Hsteps & Hfull).
  destruct (@prepare_layout cuts pb Hpb) as (Hne & _).
  assert (Hseqs : seqs <> []).
  { intros ->. apply Hne. now destruct (sort_by_duration cuts). }
  set (T := list_max (map (@length (list Z)) seqs)) in *.
  destruct (@width_pad_rows _ T (pad_step self) seqs Hseqs eq_refl) as (Hw & Hrows).
  assert (Hpad : steps_have (S K) (map (pad_row T (pad_step self)) seqs)).
  { apply Forall_forall. intros ex Hex. apply in_map_iff in Hex as (s0 & <- & Hs).
    unfold pad_row. apply Forall_app. split.
    - unfold steps_have in Hsteps. rewrite Forall_forall in Hsteps. now apply Hsteps.
    - apply Forall_forall. intros r Hr. apply repeat_spec in Hr. subst r.
      cbn. now rewrite repeat_length. }
  exists (pred T).
  cbn [tokens labels tokens_length loss_mask return_batch]. rewrite Ht.
  split; [|split; [|split; [|split]]].
  - unfold has_shape, drop_last_step, steps_have. rewrite length_map, length_map.
    split; [exact Hlen|]. split.
    + apply Forall_forall. intros ex Hex. apply in_map_iff in Hex as (e & <- & He).
      rewrite length_drop_last. rewrite Forall_forall in Hrows. now rewrite (Hrows e He).
    + apply Forall_forall. intros ex Hex. apply in_map_iff in Hex as (e & <- & He).
      apply Forall_removelast. unfold steps_have in Hpad.
      rewrite Forall_forall in Hpad. now apply Hpad.
  - unfold has_shape, drop_first_step, steps_have. rewrite length_map, length_map.
    split; [exact Hlen|]. split.
    + apply Forall_forall. intros ex Hex. apply in_map_iff in Hex as (e & <- & He).
      rewrite Forall_forall in Hrows. specialize (Hrows e He).
      destruct e; cbn [tl length] in *; lia.
    + apply Forall_forall. intros ex Hex. apply in_map_iff in Hex as (e & <- & He).
      apply Forall_tl. unfold steps_have in Hpad.
      rewrite Forall_forall in Hpad. now apply Hpad.
  - now rewrite !length_map.
  - rewrite Hw. apply Forall_forall. intros n Hn.
    apply in_map_iff in Hn as (m & <- & Hm). apply in_map_iff in Hm as (f & <- & _). lia.
  - intros i t. rewrite !step_drop_first. rewrite <- Ht.
    destruct (returned_modes _ _ _ _ _ _ _ _ _ _ _ _ _ Hpb) as [Hm|Hm].
    + rewrite (@s2s_mask_rows _ of_long to_long fzero sort_by_duration re_findall_time
                 re_sub_time collapse_spaces split ceil_to_nearest discretize_time
                 codec_frames self cuts pb Hpb Hm).
      destruct (step (as_tokens (pb_assembled pb)) i (S t)); cbn; split; congruence.
    + rewrite (@align_mask_rows _ of_long to_long fzero sort_by_duration re_findall_time
                 re_sub_time collapse_spaces split ceil_to_nearest discretize_time
                 codec_frames self cuts pb Hpb Hm).
      destruct (step (as_tokens (pb_assembled pb)) i (S t)); cbn; split; congruence.
Qed.

Lemma s2s_mask_row_nth (off : bool) (r : list Z) (c : nat) :
  nth_error (s2s_mask_row self off r) c
  = option_map (fun v => negb off && negb (v =? column_pad_id self c)) (nth_error r c).
Proof.
  unfold s2s_mask_row. destruct r as [|v rest].
  - destruct off, c; reflexivity.
  - cbn [firstn tl map]. destruct c as [|c].
    + destruct off; reflexivity.
    + replace (nth_error (mask_row off [negb (v =? text_pad_id self)]
                          ++ mask_row off (map (fun v0 => negb (v0 =? speech_pad_id self)) rest))
                         (S c))
        with (nth_error (mask_row off (map (fun v0 => negb (v0 =? speech_pad_id self)) rest)) c)
        by (destruct off; reflexivity).
      rewrite mask_row_nth_error, nth_error_map. cbn [nth_error column_pad_id].
      now destruct (nth_error rest c).
Qed.

(** [X7]  The loss mask of an [s2s] batch, entry by entry: the mask of
    a label is True exactly when the label is not the pad id of its
    column (the text pad id in column 0, the speech pad id in the
    others) and its step lies beyond every instruction length of the
    batch (the latter for the causal layout only). *)
Theorem s2s_loss_mask_formula (cuts : list (Cut F)) (b : batch F) :
  get cuts = Ok b -> mode_of cuts = Some S2S ->
  forall i t c,
    entry (loss_mask b) i t c
    = option_map (fun v => negb (context_off self (context_lengths b) (S t))
                           && negb (v =? column_pad_id self c))
                 (entry (labels b) i t c).
Proof.
  intros Hb Hmode i t c.
  destruct (getitem_ok _ _ _ _ _ _ _ _ _ _ _ _ _ _ Hb) as (pb & Hpb & ->).
  cbn [loss_mask labels context_lengths return_batch].
  rewrite !entry_drop_first, !entry_step.
  rewrite (@s2s_mask_rows _ of_long to_long fzero sort_by_duration re_findall_time
             re_sub_time collapse_spaces split ceil_to_nearest discretize_time
             codec_frames self cuts pb Hpb Hmode).
  destruct (step (as_tokens (pb_assembled pb)) i (S t)) as [r|]; [|reflexivity].
  cbn [option_map]. apply s2s_mask_row_nth.
Qed.

(** [X8]  With the causal layout the loop over the instruction lengths
    masks the same prefix in every example: a label is off, in every
    column and in every example, as soon as its step lies within the
    instruction of some example of the batch, so that the first target
    labels of an example with a shorter instruction are off too. *)
Theorem loss_mask_off_on_longest_instruction (cuts : list (Cut F)) (b : batch F) :
  get cuts = Ok b -> t5_style self = false ->
  forall i j itl t c m,
    nth_error (context_lengths b) j = Some itl ->
    Z.of_nat (S t) < itl ->
    entry (loss_mask b) i t c = Some m -> m = false.
Proof.
  intros Hb Ht5 i j itl t c m Hitl Hlt Hm.
  destruct (getitem_ok _ _ _ _ _ _ _ _ _ _ _ _ _ _ Hb) as (pb & Hpb & ->).
  cbn [loss_mask context_lengths return_batch] in Hitl, Hm.
  rewrite entry_drop_first, entry_step in Hm.
  assert (Hoff : context_off self (pb_instruction_lengths pb) (S t) = true).
  { unfold context_off. rewrite Ht5. cbn [negb andb].
    eapply masked_in; [eapply nth_error_In; exact Hitl | exact Hlt]. }
  destruct (returned_modes _ _ _ _ _ _ _ _ _ _ _ _ _ Hpb) as [Hmode|Hmode].
  - rewrite (@s2s_mask_rows _ of_long to_long fzero sort_by_duration re_findall_time
               re_sub_time collapse_spaces split ceil_to_nearest discretize_time
               codec_frames self cuts pb Hpb Hmode) in Hm.
    destruct (step (as_tokens (pb_assembled pb)) i (S t)) as [r|]; [|discriminate].
    cbn [option_map] in Hm. rewrite Hoff in Hm. eapply s2s_mask_row_off; eauto.
  - rewrite (@align_mask_rows _ of_long to_long fzero sort_by_duration re_findall_time
               re_sub_time collapse_spaces split ceil_to_nearest discretize_time
               codec_frames self cuts pb Hpb Hmode) in Hm.
    destruct (step (as_tokens (pb_assembled pb)) i (S t)) as [r|]; [|discriminate].
    cbn [option_map] in Hm. rewrite Hoff in Hm. eapply align_mask_row_off; eauto.
Qed.


(** [X10]  The text fields of a returned batch, for the cuts in sorted
    order: [context_lengths] counts the instruction tokens without the
    end marker, [instructions] and [target_texts] hold the tokens of
    each cut followed by the text pad id (a pad id that float32
    represents exactly) up to the padded width, which is never less
    than the longest text, and [contexts] holds the expanded
    instruction of each cut less its last step. *)
Theorem batch_text_fields (cuts : list (Cut F)) (b : batch F) :
  get cuts = Ok b ->
  to_long (of_long (text_pad_id self)) = text_pad_id self ->
  let sorted := sort_by_duration cuts in
  let ils := map (@length Z) (map iids sorted) in
  let tls := map (@length Z) (map tids sorted) in
  let Wi := padded_width (wmax ils) ils in
  let Wt := padded_width (wmax tls) tls in
  context_lengths b = map (fun c => Z.of_nat (length (iids c))) sorted /\
  instructions b = Long2 F (map (fun c => pad_row Wi (text_pad_id self) (iids c)) sorted) /\
  target_texts b = Long2 F (map (fun c => pad_row Wt (text_pad_id self) (tids c)) sorted) /\
  contexts b
  = map (fun c => removelast
                    (text_steps self (iids c)
                                (Z.to_nat (Z.of_nat Wi + 1 + tokens_to_generate self))))
        sorted /\
  Forall (fun c => (length (iids c) <= Wi)%nat /\ (length (tids c) <= Wt)%nat) sorted.
Proof.
  intros Hb Hpad sorted ils tls Wi Wt.
  destruct (getitem_ok _ _ _ _ _ _ _ _ _ _ _ _ _ _ Hb) as (pb & Hpb & ->).
  destruct (@prepare_layout cuts pb Hpb)
    as (_ & _ & _ & _ & _ & _ & _ & _ & _ & _ & _ & Hil & Hi & Ht & Hc & _).
  fold sorted in Hil, Hi, Ht, Hc. fold ils in Hi, Hc. fold tls in Ht. fold Wi in Hi, Hc.
  fold Wt in Ht.
  cbn [context_lengths instructions target_texts contexts return_batch].
  rewrite Hpad in Hi, Ht.
  split; [exact Hil|]. split; [rewrite Hi; now destruct (0 <? list_max ils)%nat|].
  split; [rewrite Ht; now destruct (0 <? list_max tls)%nat|].
  split; [exact Hc|].
  apply Forall_forall. intros c Hin. unfold Wi, Wt, padded_width. split.
  - pose proof (@list_max_ge ils (length (iids c))) as H.
    assert (In (length (iids c)) ils).
    { unfold ils. rewrite map_map.
      apply (in_map (fun x => length (iids x))). exact Hin. }
    specialize (H H0). lia.
  - pose proof (@list_max_ge tls (length (tids c))) as H.
    assert (In (length (tids c)) tls).
    { unfold tls. rewrite map_map.
      apply (in_map (fun x => length (tids x))). exact Hin. }
    specialize (H H0). lia.
Qed.

(** [X11]  A returned batch holds every cut it was given exactly once,
    in the order of [sort_by_duration] and not in the given order:
    [sample_ids] is a permutation of the given ids, [metadata] names
    the file of each sample id, and every per-example field has one
    entry per cut. *)
Theorem batch_holds_every_cut (cuts : list (Cut F)) (b : batch F) :
  (forall l, Permutation (sort_by_duration l) l) ->
  get cuts = Ok b ->
  sample_ids b = map (@cut_id F) (sort_by_duration cuts) /\
  Permutation (sample_ids b) (map (@cut_id F) cuts) /\
  metadata b = map (fun id => (id ++ ".wav")%string) (sample_ids b) /\
  audio_ratio b = repeat fone (length cuts) /\
  length (audio_signal_length b) = length cuts /\
  length (context_lengths b) = length cuts /\
  length (tokens_length b) = length cuts /\
  length (tokens b) = length cuts /\
  length (labels b) = length cuts.
Proof.
  intros Hperm Hb.
  destruct (getitem_ok _ _ _ _ _ _ _ _ _ _ _ _ _ _ Hb) as (pb & Hpb & ->).
  destruct (@assembled_rows cuts pb Hpb) as (seqs & Ht & Hlen & _ & Hfull).
  destruct (@prepare_layout cuts pb Hpb)
    as (_ & _ & Hcuts & _ & Hal & _ & _ & _ & _ & _ & _ & Hil & _).
  pose proof (Permutation_length (Hperm cuts)) as HB.
  cbn [sample_ids metadata audio_ratio audio_signal_length context_lengths tokens_length
       tokens labels return_batch].
  rewrite Hcuts, Hal, Hil, Ht.
  unfold drop_last_step, drop_first_step. rewrite !length_map, Hfull, Hlen, HB.
  repeat split; auto.
  - apply Permutation_map, Hperm.
  - now rewrite map_map.
  - rewrite map_const_repeat. now rewrite HB.
Qed.

(** [X12]  No batch is returned for the empty list of cuts:
    [max(audio_lens)] raises [ValueError]. *)
Theorem getitem_empty_batch_raises :
  sort_by_duration [] = [] -> get [] = Raise ValueError.
Proof.
  intro H. expose get. expose prep. rewrite H. reflexivity.
Qed.

(** [X13]  A batch is returned only when the last cut in sorted order
    selects the [s2s] or the [s2s_align] branch, and does not carry
    the [direct_s2s] flag: the [direct_s2s] and [s2t] branches (lines
    455-494) never produce a batch, and a batch whose last cut carries
    no flag raises. *)
Theorem getitem_returns_only_s2s_modes (cuts : list (Cut F)) (b : batch F) :
  get cuts = Ok b ->
  exists cut,
    last_cut (sort_by_duration cuts) = Ok cut /\
    direct_s2s cut = false /\
    (s2s cut = true \/ s2s_align cut = true) /\
    (mode_of cuts = Some S2S \/ mode_of cuts = Some S2S_align).
Proof.
  intro Hb.
  destruct (getitem_ok _ _ _ _ _ _ _ _ _ _ _ _ _ _ Hb) as (pb & Hpb & ->).
  pose proof (returned_modes _ _ _ _ _ _ _ _ _ _ _ _ _ Hpb) as Hm.
  destruct (prepare_inv _ _ _ _ _ _ _ _ _ _ _ _ _ Hpb)
    as [exs cut ex ttl tte _ _ Hcodec _ _ Hcut _ _ _].
  apply build_target_codec_inv in Hcodec as (Hdirect & _).
  exists cut. split; [exact Hcut|]. split; [now apply Hdirect|]. split; [|exact Hm].
  expose mode_of in Hm. rewrite Hcut in Hm. unfold select_mode in Hm.
  destruct (s2s cut); [now left|]. destruct (s2s_align cut); [now right|].
  destruct (direct_s2s cut), (s2t cut); destruct Hm; discriminate.
Qed.

End BatchFacts.

(** The two cuts of the concrete dataset in [s2s] mode; sorted, the
    cut [q2] comes first. *)
Lemma s2s_batch_layout_witness :
  exists b,
    Demo.getitem (Demo.dataset false true 1) (Demo.two_cuts S2S) = Ok b /\
    dispatched_mode Demo.sort_by_duration (Demo.two_cuts S2S) = Some S2S /\
    target_text_lengths b = [1; 5] /\
    tokens_length b = [6; 10].
Proof.
  destruct (Demo.getitem (Demo.dataset false true 1) (Demo.two_cuts S2S)) as [b|e] eqn:E;
    [|vm_compute in E; discriminate].
  assert (Hm : dispatched_mode Demo.sort_by_duration (Demo.two_cuts S2S) = Some S2S)
    by (vm_compute; reflexivity).
  destruct (s2s_batch_layout _ _ _ _ _ _ _ _ _ _ _ _ _ _ E Hm) as (_ & _ & Hl & Ht).
  exists b. split; [reflexivity|]. split; [exact Hm|].
  split; [rewrite Hl; vm_compute; reflexivity|].
  rewrite (Ht eq_refl). vm_compute. reflexivity.
Defined.

Lemma batch_shapes_witness :
  exists b,
    Demo.getitem (Demo.dataset false true 1) (Demo.two_cuts S2S_align) = Ok b /\
    exists T : nat,
      has_shape 2 T 3 (tokens b) /\ has_shape 2 T 3 (labels b) /\
      length (tokens_length b) = 2%nat /\
      Forall (fun n => n <= Z.of_nat T) (tokens_length b) /\
      forall i t, step (loss_mask b) i t = None <-> step (labels b) i t = None.
Proof.
  destruct (Demo.getitem (Demo.dataset false true 1) (Demo.two_cuts S2S_align))
    as [b|e] eqn:E; [|vm_compute in E; discriminate].
  exists b. split; [reflexivity|].
  exact (batch_shapes _ _ _ _ _ _ _ _ _ _ _ _ _ _ E).
Defined.

(** In the second example (cut [q1]) the label at step 4 is a target
    token and counts, the label at step 11 is padding and does not. *)
Lemma s2s_loss_mask_formula_witness :
  exists b,
    Demo.getitem (Demo.dataset false true 1) (Demo.two_cuts S2S) = Ok b /\
    dispatched_mode Demo.sort_by_duration (Demo.two_cuts S2S) = Some S2S /\
    entry (loss_mask b) 1 4 0 = Some true /\
    entry (loss_mask b) 0 8 1 = Some false.
Proof.
  destruct (Demo.getitem (Demo.dataset false true 1) (Demo.two_cuts S2S)) as [b|e] eqn:E;
    [|vm_compute in E; discriminate].
  assert (Hm : dispatched_mode Demo.sort_by_duration (Demo.two_cuts S2S) = Some S2S)
    by (vm_compute; reflexivity).
  pose proof (s2s_loss_mask_formula _ _ _ _ _ _ _ _ _ _ _ _ _ _ E Hm) as H.
  assert (Eb := E). vm_compute in Eb. injection Eb as Eb.
  exists b. split; [reflexivity|]. split; [exact Hm|].
  rewrite !H. rewrite <- Eb. split; vm_compute; reflexivity.
Defined.

(** The instruction of [q2] has two tokens and that of [q1] one: the
    first label of [q1], the first token [h] of its target, is off. *)
Lemma loss_mask_off_on_longest_instruction_witness :
  exists b,
    Demo.getitem (Demo.dataset false true 1) (Demo.two_cuts S2S) = Ok b /\
    t5_style (Demo.dataset false true 1) = false /\
    context_lengths b = [2; 1] /\
    entry (labels b) 1 0 0 = Some 108 /\
    forall c m, entry (loss_mask b) 1 0 c = Some m -> m = false.
Proof.
  destruct (Demo.getitem (Demo.dataset false true 1) (Demo.two_cuts S2S)) as [b|e] eqn:E;
    [|vm_compute in E; discriminate].
  pose proof (@loss_mask_off_on_longest_instruction _ _ _ _ _ _ _ _ _ _ _ _ _ _ _ b E eq_refl)
    as H.
  assert (Eb := E). vm_compute in Eb. injection Eb as Eb.
  assert (Hc : context_lengths b = [2; 1]) by (rewrite <- Eb; reflexivity).
  exists b. split; [reflexivity|]. split; [reflexivity|]. split; [exact Hc|].
  split; [rewrite <- Eb; reflexivity|].
  intros c m. apply (H 1%nat 0%nat 2 0%nat c m).
  - rewrite Hc. reflexivity.
  - simpl. lia.
Defined.


Lemma batch_text_fields_witness :
  exists b,
    Demo.getitem (Demo.dataset false true 1) (Demo.two_cuts S2S) = Ok b /\
    Binary32.to_long (Binary32.of_long (text_pad_id (Demo.dataset false true 1)))
    = text_pad_id (Demo.dataset false true 1) /\
    context_lengths b = [2; 1] /\
    instructions b = Long2 _ [[85; 67; 0; 0; 0; 0; 0; 0]; [85; 0; 0; 0; 0; 0; 0; 0]].
Proof.
  destruct (Demo.getitem (Demo.dataset false true 1) (Demo.two_cuts S2S)) as [b|e] eqn:E;
    [|vm_compute in E; discriminate].
  destruct (batch_text_fields _ _ _ _ _ _ _ _ _ _ _ _ _ _ E eq_refl) as (H1 & H2 & _).
  exists b. split; [reflexivity|]. split; [reflexivity|].
  rewrite H1, H2. split; vm_compute; reflexivity.
Defined.

Lemma batch_holds_every_cut_witness :
  exists b,
    (forall l, Permutation (Demo.sort_by_duration l) l) /\
    Demo.getitem (Demo.dataset false true 1) (Demo.two_cuts S2S) = Ok b /\
    sample_ids b = ["q2"; "q1"]%string /\
    Permutation (sample_ids b) ["q1"; "q2"]%string /\
    length (tokens b) = 2%nat.
Proof.
  destruct (Demo.getitem (Demo.dataset false true 1) (Demo.two_cuts S2S)) as [b|e] eqn:E;
    [|vm_compute in E; discriminate].
  destruct (batch_holds_every_cut _ _ _ _ _ _ _ _ _ _ _ _ _ _ demo_sort_by_duration_perm E)
    as (H1 & H2 & _ & _ & _ & _ & _ & H3 & _).
  exists b. split; [exact demo_sort_by_duration_perm|]. split; [reflexivity|].
  split; [rewrite H1; reflexivity|]. split; [exact H2 | exact H3].
Defined.

Lemma getitem_empty_batch_raises_witness :
  Demo.sort_by_duration [] = [] /\
  Demo.getitem (Demo.dataset false true 1) [] = Raise ValueError.
Proof.
  split; [reflexivity|].
  apply (getitem_empty_batch_raises Binary32.of_long Binary32.to_long Binary32.fzero
           Binary32.fone Demo.sort_by_duration Demo.re_findall_time Demo.re_sub_time
           Demo.collapse_spaces Demo.split Demo.ceil_to_nearest
           (Binary32.discretize_time Demo.frame_rate Demo.timestamp_resolution)
           (Binary32.codec_frames Demo.downsampling) (Demo.dataset false true 1)).
  reflexivity.
Defined.

Lemma getitem_returns_only_s2s_modes_witness :
  exists b cut,
    Demo.getitem (Demo.dataset false true 1) (Demo.two_cuts S2S_align) = Ok b /\
    last_cut (Demo.sort_by_duration (Demo.two_cuts S2S_align)) = Ok cut /\
    direct_s2s cut = false /\ s2s_align cut = true.
Proof.
  destruct (Demo.getitem (Demo.dataset false true 1) (Demo.two_cuts S2S_align))
    as [b|e] eqn:E; [|vm_compute in E; discriminate].
  destruct (getitem_returns_only_s2s_modes _ _ _ _ _ _ _ _ _ _ _ _ _ _ E)
    as (cut & Hcut & Hd & _ & _).
  exists b, cut. split; [reflexivity|]. split; [exact Hcut|]. split; [exact Hd|].
  vm_compute in Hcut. injection Hcut as <-. reflexivity.
Defined.

(** * Time-stamped targets and the constructor *)

Lemma every_other_two {A} (x y : A) (r : list A) :
  every_other (x :: y :: r) = x :: every_other r.
Proof. reflexivity. Qed.

Lemma every_other_spec {A} (d : A) (n : nat) :
  forall l : list A, (length l <= n)%nat ->
    length (every_other l) = Nat.div2 (S (length l)) /\
    forall i, nth i (every_other l) d = nth (2 * i) l d.
Proof.
  induction n as [|n IH]; intros l Hl.
  - destruct l; [|cbn in Hl; lia]. split; [reflexivity|]. intros [|i]; reflexivity.
  - destruct l as [|x [|y r]].
    + split; [reflexivity|]. intros [|i]; reflexivity.
    + split; [reflexivity|]. intros [|[|i]]; reflexivity.
    + rewrite every_other_two. destruct (IH r) as (Hlen & Hnth); [cbn in Hl; lia|].
      split.
      * cbn [length]. rewrite Hlen. reflexivity.
      * intros [|i]; [reflexivity|].
        replace (2 * S i)%nat with (S (S (2 * i))) by lia. cbn [nth]. apply Hnth.
Qed.

Lemma concat_lengths (pw : list (list Z)) :
  fold_right Z.add 0 (map (fun t => Z.of_nat (length t)) pw) = Z.of_nat (length (concat pw)).
Proof.
  induction pw as [|w pw IH]; [reflexivity|].
  cbn [map fold_right concat]. rewrite length_app, IH. lia.
Qed.

(** Slicing the concatenation by the lengths gives back each part. *)
Lemma concat_slice (pw : list (list Z)) (i : nat) :
  (i < length pw)%nat ->
  let wls := map (fun t => Z.of_nat (length t)) pw in
  py_slice (word_offset wls i) (word_offset wls i + nth i wls 0) (concat pw) = nth i pw [].
Proof.
  revert i; induction pw as [|w pw IH]; intros i Hi wls; [cbn in Hi; lia|].
  assert (Hoff : forall k, 0 <= word_offset (map (fun t => Z.of_nat (length t)) pw) k).
  { intro k. unfold word_offset. rewrite firstn_map, concat_lengths. lia. }
  destruct i as [|i].
  - unfold wls, word_offset. cbn [firstn fold_right map nth concat].
    rewrite py_slice_nonneg by lia. rewrite Nat2Z.id. cbn [skipn Z.to_nat].
    rewrite firstn_app, Nat.sub_diag, firstn_all. cbn. apply app_nil_r.
  - unfold wls. cbn [map nth concat].
    assert (Hw : word_offset (Z.of_nat (length w) :: map (fun t => Z.of_nat (length t)) pw) (S i)
                 = Z.of_nat (length w) + word_offset (map (fun t => Z.of_nat (length t)) pw) i)
      by reflexivity.
    rewrite Hw. cbn [length] in Hi.
    specialize (IH i ltac:(lia)). cbv zeta in IH.
    set (off := word_offset (map (fun t => Z.of_nat (length t)) pw) i) in *.
    set (wl := nth i (map (fun t => Z.of_nat (length t)) pw) 0) in *.
    assert (Hwl : 0 <= wl).
    { unfold wl. destruct (nth_in_or_default i (map (fun t => Z.of_nat (length t)) pw) 0)
        as [Hin|Heq]; [|rewrite Heq; lia].
      apply in_map_iff in Hin as (t & Ht & _). rewrite <- Ht. lia. }
    assert (Ho : 0 <= off) by apply Hoff.
    rewrite py_slice_nonneg in IH by lia.
    rewrite py_slice_nonneg by lia.
    replace (Z.to_nat (Z.of_nat (length w) + off)) with (length w + Z.to_nat off)%nat by lia.
    rewrite skipn_app.
    replace (length w + Z.to_nat off - length w)%nat with (Z.to_nat off) by lia.
    rewrite skipn_all2 by lia. cbn [app]. exact IH.
Qed.

Section TimeStampFacts.

Context (re_findall_time : string -> list Z) (re_sub_time : string -> string).
Context (split : string -> list string).
Context (self : Dataset).

Local Abbreviation extract :=
  (extract_text_and_time_tokens re_findall_time re_sub_time split self).

(** [X14]  What [extract_text_and_time_tokens] returns for a target
    with time tokens: one length per word of the text without its time
    tokens, never negative; the lengths add up to the number of
    tokens, and slicing the tokens by the lengths as the expansion
    does gives the tokens of each word (all of them for the first
    word, all but the first for the others); the start tokens are the
    time tokens of even rank. *)
Theorem extract_text_and_time_tokens_lengths (input_sequence : string) :
  let words := split (re_sub_time input_sequence) in
  let time_tokens := re_findall_time input_sequence in
  let '(tokens_, start_time_token, word_length) := extract input_sequence in
  length word_length = length words /\
  Forall (fun n => 0 <= n) word_length /\
  fold_right Z.add 0 word_length = Z.of_nat (length tokens_) /\
  (forall i word, nth_error words i = Some word ->
     py_slice (word_offset word_length i) (word_offset word_length i + nth i word_length 0)
              tokens_
     = let ids := removelast (answer_ids (process_example (text_processor self)
                                                          EmptyString word)) in
       if (i =? 0)%nat then ids else tl ids) /\
  length start_time_token = Nat.div2 (S (length time_tokens)) /\
  (forall i, nth i start_time_token 0 = nth (2 * i) time_tokens 0).
Proof.
  intros words time_tokens. expose extract. fold words time_tokens. cbv zeta.
  set (tokenize := fun (idx : nat) (word : string) =>
         if (idx =? 0)%nat
         then removelast (answer_ids (process_example (text_processor self) EmptyString word))
         else tl (removelast (answer_ids (process_example (text_processor self)
                                                          EmptyString word)))).
  set (pw := zip_with tokenize (seq 0 (length words)) words).
  assert (Hlen : length pw = length words).
  { unfold pw. rewrite zip_with_length, length_seq. lia. }
  split; [now rewrite length_map|]. split.
  { apply Forall_forall. intros n Hn. apply in_map_iff in Hn as (t & <- & _). lia. }
  split; [apply concat_lengths|]. split.
  { intros i word Hw.
    assert (Hi : (i < length words)%nat) by (apply nth_error_Some; congruence).
    rewrite concat_slice by lia.
    assert (Hnth : nth_error pw i = Some (tokenize i word)).
    { unfold pw. rewrite nth_error_zip_with, Hw.
      rewrite nth_error_nth' with (d := 0%nat) by (rewrite length_seq; lia).
      rewrite seq_nth by lia. reflexivity. }
    rewrite (nth_error_nth _ _ _ Hnth). unfold tokenize. now destruct (i =? 0)%nat. }
  destruct (@every_other_spec Z 0 (length time_tokens) time_tokens (Nat.le_refl _))
    as (H1 & H2).
  split; [exact H1 | exact H2].
Qed.

End TimeStampFacts.

Section ConstructorFacts.

Context {F : Type} (of_long : Z -> F) (to_long : F -> Z) (fzero fone : F).
Context (sort_by_duration : list (Cut F) -> list (Cut F)).
Context (re_findall_time : string -> list Z) (re_sub_time collapse_spaces : string -> string).
Context (split : string -> list string) (ceil_to_nearest : Z -> Z -> Z).
Context (discretize_time codec_frames : Z -> Z).

Local Abbreviation get :=
  (getitem of_long to_long fzero fone sort_by_duration re_findall_time re_sub_time
           collapse_spaces split ceil_to_nearest discretize_time codec_frames).

(** [X15]  The number of speech columns of a dataset is fixed by the
    [vocab_sizes] given to the constructor.  A single non-positive
    size (the default [[-1]]) is replaced by the vocabulary size of
    the tokenizer and leaves no speech codebook; with an empty list no
    batch is ever returned; and whenever a batch is returned there is
    one speech column per codebook, [len(vocab_sizes) - 1] of them. *)
Theorem init_speech_codebooks (tp : TextProcessing) (vocab ttg : Z) (p2m : bool) (msl : Z)
        (vs : list Z) (drf pad unk bos eos sr : Z) (t5 laa : bool) :
  let self := __init__ tp vocab ttg p2m msl vs drf pad unk bos eos sr t5 laa in
  (forall v, vs = [v] -> v <= 0 -> vocab_sizes self = [vocab] /\ n_speech_codebooks self = 0) /\
  (vs = [] -> forall cuts, exists e, get self cuts = Raise e) /\
  (forall cuts b, get self cuts = Ok b ->
     vs <> [] /\ channels self = Z.of_nat (length vs) - 1).
Proof.
  intro self.
  assert (Hlen : length (vocab_sizes self) = length vs).
  { unfold self, __init__. cbn [vocab_sizes].
    destruct (Nat.eqb_spec (length vs) 1) as [H1|H1]; cbn [andb]; [|reflexivity].
    destruct (nth 0 vs 0 <=? 0); [now rewrite H1 | reflexivity]. }
  assert (Hret : forall cuts b, get self cuts = Ok b ->
                   vs <> [] /\ channels self = Z.of_nat (length vs) - 1).
  { intros cuts b Hb.
    destruct (getitem_ok _ _ _ _ _ _ _ _ _ _ _ _ _ _ Hb) as (pb & Hpb & _).
    pose proof Hpb as Hlay. apply prepare_layout in Hlay. destruct Hlay as (_ & Hch & _).
    destruct (prepare_inv _ _ _ _ _ _ _ _ _ _ _ _ _ Hpb)
      as [exs cut ex ttl tte _ _ Hcodec _ _ _ _ _ _].
    apply build_target_codec_inv in Hcodec as (_ & Hdrf & _).
    unfold channels, n_speech_codebooks in *. rewrite Hdrf, Hlen in *.
    split; [|lia]. intros ->. cbn in Hch. lia. }
  split; [|split].
  - intros v -> Hv. unfold self, __init__, n_speech_codebooks. cbn.
    destruct (Z.leb_spec v 0); [|lia]. cbn. auto.
  - intros -> cuts. destruct (get self cuts) as [b|e] eqn:E; [|eauto].
    exfalso. destruct (Hret cuts b E) as (Hne & _). congruence.
  - exact Hret.
Qed.

End ConstructorFacts.

(** * The context of a cut and text-only collation *)

Lemma dict_get_set_same {V} (d : dict V) (k : string) (v : V) :
  dict_get (dict_set d k v) k = Some v.
Proof.
  induction d as [|[k' v'] r IH]; cbn.
  - now rewrite String.eqb_refl.
  - destruct (k' =? k)%string eqn:E; cbn.
    + now rewrite String.eqb_refl.
    + now rewrite E.
Qed.

Lemma dict_get_set_other {V} (d : dict V) (k k2 : string) (v : V) :
  k2 <> k -> dict_get (dict_set d k v) k2 = dict_get d k2.
Proof.
  intro Hne. induction d as [|[k' v'] r IH]; cbn.
  - destruct (String.eqb_spec k k2); [congruence | reflexivity].
  - destruct (String.eqb_spec k' k) as [->|Hk]; cbn.
    + destruct (String.eqb_spec k k2); [congruence | reflexivity].
    + destruct (k' =? k2)%string; [reflexivity | exact IH].
Qed.

Lemma dict_set_twice {V} (d : dict V) (k : string) (v : V) :
  dict_set (dict_set d k v) k v = dict_set d k v.
Proof.
  induction d as [|[k' v'] r IH]; cbn.
  - now rewrite String.eqb_refl.
  - destruct (k' =? k)%string eqn:E; cbn.
    + now rewrite String.eqb_refl.
    + now rewrite E, IH.
Qed.

(** [X16]  The loop that sets [cut.context]: afterwards the attribute
    is there and holds the attribute named by [context_key] when the
    cut has it, else the one named by [default_context_key], else the
    default context; no other attribute and no supervision changes;
    and running the loop again changes nothing. *)
Theorem assign_context_resolves (context_key default_context_key default_context : string)
        (cut : TextCut) :
  let cut' := assign_context context_key default_context_key default_context cut in
  getattr cut' "context"
  = Ok (match dict_get (attrs cut) context_key, dict_get (attrs cut) default_context_key with
        | Some v, _ => v
        | None, Some v => v
        | None, None => default_context
        end) /\
  (forall k, k <> "context"%string -> dict_get (attrs cut') k = dict_get (attrs cut) k) /\
  texts cut' = texts cut /\
  assign_context context_key default_context_key default_context cut' = cut'.
Proof.
  intro cut'. unfold cut', assign_context, getattr. cbn [attrs texts].
  set (ctx := match dict_get (attrs cut) context_key with
              | Some v => v
              | None => match dict_get (attrs cut) default_context_key with
                        | Some v => v
                        | None => default_context
                        end
              end).
  split; [|split; [|split]].
  - rewrite dict_get_set_same. unfold ctx.
    destruct (dict_get (attrs cut) context_key), (dict_get (attrs cut) default_context_key);
      reflexivity.
  - intros k Hk. now apply dict_get_set_other.
  - reflexivity.
  - assert (Hctx : match dict_get (dict_set (attrs cut) "context" ctx) context_key with
                   | Some v => v
                   | None =>
                     match dict_get (dict_set (attrs cut) "context" ctx) default_context_key with
                     | Some v => v
                     | None => default_context
                     end
                   end = ctx).
    { destruct (String.eqb_spec context_key "context") as [->|Hck].
      { now rewrite dict_get_set_same. }
      rewrite (dict_get_set_other _ _ Hck).
      destruct (dict_get (attrs cut) context_key) eqn:E1;
        [unfold ctx; rewrite ?E1; reflexivity|].
      destruct (String.eqb_spec default_context_key "context") as [->|Hdk].
      { now rewrite dict_get_set_same. }
      rewrite (dict_get_set_other _ _ Hdk). unfold ctx. rewrite ?E1. reflexivity. }
    rewrite Hctx, dict_set_twice. reflexivity.
Qed.

Section TextFacts.

Context {F : Type} (of_long : Z -> F) (to_long : F -> Z).
Context (ceil_to_nearest : Z -> Z -> Z).
Context (build_loss_mask : tensors F -> list F).

Local Abbreviation collate :=
  (collate_text_data of_long to_long ceil_to_nearest build_loss_mask).
Local Abbreviation cv := (collate_vectors of_long to_long).

Lemma text_example_inv (tp : TextProcessing) (cut : TextCut) (e : tensors F) :
  text_example F tp cut = Ok e ->
  hasattr cut "context" = true /\ texts cut <> [] /\ e = tensorize F (processed_text tp cut).
Proof.
  unfold text_example, getattr, hasattr, nth_or_raise, processed_text.
  destruct (dict_get (attrs cut) "context") as [ctx|]; cbn; [|discriminate].
  destruct (texts cut) as [|t r]; cbn; [discriminate|].
  intro H. inv_ok H. repeat split. discriminate.
Qed.

Lemma text_example_raises (tp : TextProcessing) (cut : TextCut) (e : pyerror) :
  text_example F tp cut = @Raise (tensors F) e ->
  (e = AttributeError /\ hasattr cut "context" = false) \/
  (e = IndexError /\ texts cut = []).
Proof.
  unfold text_example, getattr, hasattr, nth_or_raise.
  destruct (dict_get (attrs cut) "context") as [ctx|]; cbn.
  - destruct (texts cut) as [|t r]; cbn; [|discriminate].
    intro H. injection H as <-. right. auto.
  - intro H. injection H as <-. left. auto.
Qed.

Lemma text_examples_ok (tp : TextProcessing) (cuts : list TextCut) (exs : list (tensors F)) :
  mapM (text_example F tp) cuts = Ok exs ->
  exs = map (fun c => tensorize F (processed_text tp c)) cuts /\
  Forall (fun c => hasattr c "context" = true /\ texts c <> []) cuts.
Proof.
  revert exs; induction cuts as [|c cuts IH]; intros exs H; cbn in H.
  - inv_ok H. split; [reflexivity | constructor].
  - inv_bind H. inv_bind H. inv_ok H.
    match goal with E : text_example F tp c = Ok _ |- _ =>
      apply text_example_inv in E as (Ha & Ht & ->) end.
    match goal with E : mapM _ cuts = Ok _ |- _ => destruct (IH _ E) as (-> & Hall) end.
    split; [reflexivity | constructor; auto].
Qed.

Lemma text_examples_raise (tp : TextProcessing) (cuts : list TextCut) (e : pyerror) :
  mapM (text_example F tp) cuts = @Raise (list (tensors F)) e ->
  (e = AttributeError /\ Exists (fun c => hasattr c "context" = false) cuts) \/
  (e = IndexError /\ Exists (fun c => texts c = []) cuts).
Proof.
  induction cuts as [|c cuts IH]; cbn; [discriminate|].
  destruct (text_example F tp c) as [x|e'] eqn:E; cbn.
  - destruct (mapM (text_example F tp) cuts) as [xs|e''] eqn:E2; cbn; [discriminate|].
    intro H. injection H as <-.
    destruct (IH eq_refl) as [(-> & Hex)|(-> & Hex)]; [left | right]; split; auto.
  - intro H. injection H as <-.
    apply text_example_raises in E as [(-> & Hc)|(-> & Hc)]; [left | right]; split; auto.
Qed.

Lemma get_max_len_ids (idss : list (list Z)) :
  idss <> [] ->
  get_max_len (map (@as_tensor F) idss) = Ok (Z.of_nat (list_max (map (@length Z) idss))).
Proof.
  intro Hne. unfold get_max_len. rewrite map_map.
  rewrite (map_ext _ (fun ids => Z.of_nat (length ids)))
    by (intro ids; now rewrite as_tensor_size).
  rewrite <- (map_map (@length Z) Z.of_nat). apply py_max_list_max.
  destruct idss; [congruence | discriminate].
Qed.

Lemma collated_max_length_le (ps : list processed) (ttg : Z) (p2m : bool) (msl : Z) :
  collated_max_length ceil_to_nearest ps ttg p2m msl <= msl.
Proof. unfold collated_max_length. destruct p2m; lia. Qed.

(** The pad value of a batch of id lists: cast to float32 and back
    when every list is empty. *)
Local Abbreviation pad_of idss p :=
  (if (0 <? list_max (map (@length Z) idss))%nat then p%Z else to_long (of_long p%Z)).

Lemma collate_text_data_cases (cuts : list TextCut) (dc : string) (tp : TextProcessing)
      (ttg : Z) (p2m : bool) (msl : Z) :
  let ps := map (processed_text tp) cuts in
  let L := collated_max_length ceil_to_nearest ps ttg p2m msl in
  let rows f := map (pad_row (padded_width L (map (@length Z) (map f ps)))
                             (pad_of (map f ps) (pad_id tp))) (map f ps) in
  (cuts = [] /\ collate cuts dc tp ttg p2m msl = Raise IndexError) \/
  (exists e, collate cuts dc tp ttg p2m msl = Raise e /\
     ((e = AttributeError /\ Exists (fun c => hasattr c "context" = false) cuts) \/
      (e = IndexError /\ Exists (fun c => texts c = []) cuts))) \/
  (cuts <> [] /\ Forall (fun c => hasattr c "context" = true /\ texts c <> []) cuts /\
   ((L < 0 /\ collate cuts dc tp ttg p2m msl = Raise RuntimeError) \/
    (0 <= L /\ exists b, collate cuts dc tp ttg p2m msl = Ok b /\
       tb_tokens b = Long2 F (map (@removelast Z) (rows input_ids)) /\
       tb_labels b = Long2 F (map (@tl Z) (rows input_ids)) /\
       tb_tokens_length b = map (fun p => Z.of_nat (length (input_ids p)) - 1) ps /\
       tb_contexts b = Long2 F (rows context_ids) /\
       tb_context_lengths b = map (fun p => Z.of_nat (length (context_ids p))) ps /\
       tb_answers b = Long2 F (rows answer_ids) /\
       tb_position_ids b = repeat (map Z.of_nat (seq 0 (Z.to_nat L))) (length cuts) /\
       tb_max_length b = repeat L (length cuts) /\
       tb_context_ids b = map (fun p => as_tensor (context_ids p)) ps /\
       exists mask, cv (map (fun c => TFloat (build_loss_mask (tensorize F (processed_text tp c))))
                            cuts) L (PyInt F 0) = Ok mask /\
                    tb_loss_mask b = drop_first_column mask))).
Proof.
  intros ps L rows.
  destruct cuts as [|c0 cuts0]; [left; split; reflexivity|].
  set (cuts := c0 :: cuts0) in *.
  right. unfold collate_text_data.
  destruct (mapM (text_example F tp) cuts) as [exs|e] eqn:Eex; cbn [bind].
  2:{ left. exists e. split; [reflexivity|]. now apply text_examples_raise with (tp := tp). }
  right. apply text_examples_ok in Eex as (-> & Hall).
  split; [discriminate|]. split; [exact Hall|].
  assert (Hne : forall f : processed -> list Z, map f ps <> []) by (intro f; discriminate).
  assert (Hin : map (@t_input_ids F) (map (fun c => tensorize F (processed_text tp c)) cuts)
                = map (@as_tensor F) (map input_ids ps)).
  { unfold ps. rewrite !map_map. reflexivity. }
  assert (Hcx : map (@t_context_ids F) (map (fun c => tensorize F (processed_text tp c)) cuts)
                = map (@as_tensor F) (map context_ids ps)).
  { unfold ps. rewrite !map_map. reflexivity. }
  assert (Han : map (@t_answer_ids F) (map (fun c => tensorize F (processed_text tp c)) cuts)
                = map (@as_tensor F) (map answer_ids ps)).
  { unfold ps. rewrite !map_map. reflexivity. }
  change (as_dict (map (fun c => tensorize F (processed_text tp c)) cuts))
    with (Ok {| f_input_ids := map (@t_input_ids F)
                                   (map (fun c => tensorize F (processed_text tp c)) cuts);
                f_context_ids := map (@t_context_ids F)
                                     (map (fun c => tensorize F (processed_text tp c)) cuts);
                f_answer_ids := map (@t_answer_ids F)
                                    (map (fun c => tensorize F (processed_text tp c)) cuts) |}).
  cbn [bind f_input_ids f_context_ids f_answer_ids].
  rewrite Hin, Hcx, Han.
  rewrite !get_max_len_ids by apply Hne. cbn [bind].
  assert (HL : (if p2m then msl
                else Z.min msl
                       (ceil_to_nearest
                          (ttg + Z.max (Z.max (Z.of_nat (list_max (map (@length Z) (map input_ids ps))))
                                              (Z.of_nat (list_max (map (@length Z) (map context_ids ps)))))
                                       (Z.of_nat (list_max (map (@length Z) (map answer_ids ps))))) 8))
               = L).
  { unfold L, collated_max_length. rewrite !map_map. reflexivity. }
  rewrite HL.
  rewrite !(collate_vectors_ids of_long to_long L (pad_id tp) (Hne _)). cbn [bind].
  pose proof (collated_max_length_le ps ttg p2m msl) as Hle. fold L in Hle.
  destruct (Z.leb_spec L msl) as [_|]; [|lia]. cbn [py_assert bind].
  rewrite (map_map (fun c => tensorize F (processed_text tp c))
                   (fun item => TFloat (build_loss_mask item)) cuts).
  assert (Hmask : exists mask,
             cv (map (fun c => TFloat (build_loss_mask (tensorize F (processed_text tp c))))
                     cuts) L (PyInt F 0) = Ok mask).
  { pose proof (collate_vectors_rows_width of_long to_long
                  (map (fun c => TFloat (build_loss_mask (tensorize F (processed_text tp c))))
                       cuts) L (PyInt F 0)) as H.
    unfold cuts in H. cbn [map] in H. destruct H as (mask & H & _). exists mask. exact H. }
  destruct Hmask as (mask & Hmask). rewrite Hmask. cbn [bind].
  unfold arange. destruct (Z.ltb_spec L 0) as [Hneg|Hpos]; cbn [bind].
  - left. split; [exact Hneg | reflexivity].
  - right. split; [exact Hpos|]. eexists. split; [reflexivity|].
    cbn [tb_tokens tb_labels tb_tokens_length tb_contexts tb_context_lengths tb_answers
         tb_position_ids tb_max_length tb_context_ids tb_loss_mask drop_last_column
         drop_first_column].
    repeat match goal with |- _ /\ _ => split end; try reflexivity.
    + rewrite !map_map. apply map_ext. intro p. now rewrite as_tensor_size.
    + rewrite !map_map. apply map_ext. intro p. now rewrite as_tensor_size.
    + now rewrite map_map.
    + exists mask. split; reflexivity.
Qed.

(** [X17]  The text batch of cuts that all have a context and a
    supervision.  [tokens] and [labels] are the padded input ids
    without their last and without their first column, so that a
    label is the token that follows; [contexts] and [answers] are
    padded alike, each to the longer of [max_length] and its longest
    row; lengths are those of the unpadded ids; [position_ids] counts
    up to [max_length], which never exceeds [max_seq_length]. *)
Theorem text_batch_layout (cuts : list TextCut) (dc : string) (tp : TextProcessing)
        (ttg : Z) (p2m : bool) (msl : Z) (b : text_batch F) :
  to_long (of_long (pad_id tp)) = pad_id tp ->
  collate cuts dc tp ttg p2m msl = Ok b ->
  let ps := map (processed_text tp) cuts in
  let L := collated_max_length ceil_to_nearest ps ttg p2m msl in
  let rows f := map (pad_row (padded_width L (map (@length Z) (map f ps))) (pad_id tp))
                    (map f ps) in
  0 <= L <= msl /\
  tb_tokens b = Long2 F (map (@removelast Z) (rows input_ids)) /\
  tb_labels b = Long2 F (map (@tl Z) (rows input_ids)) /\
  tb_tokens_length b = map (fun p => Z.of_nat (length (input_ids p)) - 1) ps /\
  tb_contexts b = Long2 F (rows context_ids) /\
  tb_context_lengths b = map (fun p => Z.of_nat (length (context_ids p))) ps /\
  tb_answers b = Long2 F (rows answer_ids) /\
  tb_position_ids b = repeat (map Z.of_nat (seq 0 (Z.to_nat L))) (length cuts) /\
  tb_max_length b = repeat L (length cuts) /\
  tb_context_ids b = map (fun p => as_tensor (context_ids p)) ps.
Proof.
  intros Hpad Hb ps L rows.
  assert (Hpads : forall idss : list (list Z), pad_of idss (pad_id tp) = pad_id tp).
  { intro idss. destruct (0 <? list_max (map (@length Z) idss))%nat; auto. }
  destruct (collate_text_data_cases cuts dc tp ttg p2m msl)
    as [(_ & E)|[(e & E & _)|(_ & _ & [(_ & E)|(HL & b' & E & H)])]];
    try congruence.
  rewrite Hb in E. injection E as <-. fold ps L in H. rewrite !Hpads in H.
  destruct H as (H1 & H2 & H3 & H4 & H5 & H6 & H7 & H8 & H9 & _).
  pose proof (collated_max_length_le ps ttg p2m msl) as Hle. fold L in Hle.
  repeat split; try assumption; lia.
Qed.

(** [X18]  When [collate_text_data] returns and when it raises.  It
    returns exactly when there is a cut, every cut has a context and a
    supervision, and [max_length] is not negative.  An empty list of
    cuts is an [IndexError], as is a cut without supervisions; a cut
    without context an [AttributeError]; a negative [max_length] a
    [RuntimeError].  The assertion on [max_length] never fails. *)
Theorem collate_text_data_outcome (cuts : list TextCut) (dc : string) (tp : TextProcessing)
        (ttg : Z) (p2m : bool) (msl : Z) :
  let L := collated_max_length ceil_to_nearest (map (processed_text tp) cuts) ttg p2m msl in
  let complete := Forall (fun c => hasattr c "context" = true /\ texts c <> []) cuts in
  match collate cuts dc tp ttg p2m msl with
  | Ok _ => cuts <> [] /\ complete /\ 0 <= L
  | Raise AttributeError => Exists (fun c => hasattr c "context" = false) cuts
  | Raise IndexError => cuts = [] \/ Exists (fun c => texts c = []) cuts
  | Raise RuntimeError => cuts <> [] /\ complete /\ L < 0
  | Raise _ => False
  end.
Proof.
  intros L complete.
  destruct (collate_text_data_cases cuts dc tp ttg p2m msl)
    as [(Hnil & E)|[(e & E & [(-> & Hex)|(-> & Hex)])
                   |(Hne & Hall & [(HL & E)|(HL & b' & E & _)])]];
    rewrite E; auto.
Qed.

(** [X19]  Cuts that went through the context loop never make
    [collate_text_data] fail for a missing context. *)
Theorem assigned_contexts_are_found (context_key default_context_key default_context : string)
        (cuts : list TextCut) (dc : string) (tp : TextProcessing)
        (ttg : Z) (p2m : bool) (msl : Z) :
  collate (assign_contexts context_key default_context_key default_context cuts)
          dc tp ttg p2m msl <> Raise AttributeError.
Proof.
  intro E.
  destruct (collate_text_data_cases
              (assign_contexts context_key default_context_key default_context cuts)
              dc tp ttg p2m msl)
    as [(_ & E')|[(e & E' & [(-> & Hex)|(-> & _)])
                 |(_ & _ & [(_ & E')|(_ & b' & E' & _)])]];
    try congruence.
  apply Exists_exists in Hex as (c & Hin & Hc).
  unfold assign_contexts in Hin. apply in_map_iff in Hin as (c0 & <- & _).
  unfold hasattr, assign_context in Hc. cbn [attrs] in Hc.
  rewrite dict_get_set_same in Hc. discriminate.
Qed.

End TextFacts.

Lemma text_batch_layout_witness :
  exists b,
    DemoText.collate_text_data DemoText.resolved false 64 = Ok b /\
    tb_tokens b = Long2 _ [[85; 67; 108; 109; 3; 0; 0]; [91; 108; 115; 113; 105; 3; 0];
                           [87; 101; 125; 3; 0; 0; 0]] /\
    tb_labels b = Long2 _ [[67; 108; 109; 3; 0; 0; 0]; [108; 115; 113; 105; 3; 0; 0];
                           [101; 125; 3; 0; 0; 0; 0]] /\
    tb_tokens_length b = [4; 5; 3] /\
    tb_max_length b = [8; 8; 8].
Proof.
  destruct (DemoText.collate_text_data DemoText.resolved false 64) as [b|e] eqn:E;
    [|vm_compute in E; discriminate].
  destruct (text_batch_layout Binary32.of_long Binary32.to_long Demo.ceil_to_nearest
              DemoText.build_loss_mask DemoText.resolved "unused" Demo.char_processor
              0 false 64 eq_refl E)
    as (_ & H1 & H2 & H3 & _ & _ & _ & _ & H4 & _).
  exists b. split; [reflexivity|].
  rewrite H1, H2, H3, H4. repeat split; vm_compute; reflexivity.
Defined.

(** * The run plugins *)

Section PluginFacts.

Import Plugins.

Context {Callback Logger Yaml Script : Type}.
Context (callback_eqb : Callback -> Callback -> bool).
Context (nsys_callback : Z -> Z -> list Z -> Callback).
Context (serialize : Partial Callback Logger Yaml -> Yaml).
Context (join_name : string -> string -> string).

Local Abbreviation Partial := (Partial Callback Logger Yaml).
Local Abbreviation Task := (Task Callback Logger Yaml Script).
Local Abbreviation merge := (@_merge_callbacks Callback callback_eqb Logger Yaml).
Local Abbreviation missing := (append_missing callback_eqb).

Lemma append_missing_cons (c : Callback) (cbs xs : list Callback) :
  missing xs (c :: cbs)
  = missing (if not_in callback_eqb c xs then xs ++ [c] else xs) cbs.
Proof. reflexivity. Qed.

Lemma append_missing_extends (cbs xs : list Callback) :
  exists added, missing xs cbs = xs ++ added.
Proof.
  revert xs; induction cbs as [|c cbs IH]; intro xs.
  - exists []. now rewrite app_nil_r.
  - rewrite append_missing_cons. destruct (not_in callback_eqb c xs).
    + destruct (IH (xs ++ [c])) as (added & ->). exists (c :: added).
      now rewrite <- app_assoc.
    + apply IH.
Qed.

(** Callbacks that all compare equal to one of [xs] add nothing. *)
Lemma append_missing_present (cbs xs : list Callback) :
  (forall c, In c cbs -> existsb (fun x => callback_eqb c x) xs = true) ->
  missing xs cbs = xs.
Proof.
  induction cbs as [|c cbs IH]; intro H; [reflexivity|].
  rewrite append_missing_cons.
  unfold not_in. rewrite (H c (or_introl eq_refl)). cbn [negb].
  apply IH. intros c' Hc'. apply H. now right.
Qed.

Lemma append_missing_covers (cbs xs : list Callback) (c : Callback) :
  (forall c, callback_eqb c c = true) ->
  In c cbs -> existsb (fun x => callback_eqb c x) (missing xs cbs) = true.
Proof.
  intros Hrefl. revert xs; induction cbs as [|c0 cbs IH]; intros xs Hin; [destruct Hin|].
  rewrite append_missing_cons. destruct Hin as [->|Hin]; [|apply IH, Hin].
  destruct (not_in callback_eqb c xs) eqn:E.
  - destruct (append_missing_extends cbs (xs ++ [c])) as (added & ->).
    rewrite !existsb_app. cbn. rewrite Hrefl. now rewrite orb_true_r.
  - destruct (append_missing_extends cbs xs) as (added & ->).
    rewrite existsb_app. unfold not_in in E. apply negb_false_iff in E. now rewrite E.
Qed.

Lemma append_missing_twice (cbs xs : list Callback) :
  (forall c, callback_eqb c c = true) ->
  missing (missing xs cbs) cbs = missing xs cbs.
Proof.
  intro Hrefl. apply append_missing_present. intros c Hc. now apply append_missing_covers.
Qed.

Lemma merge_callbacks_twice (p : Partial) (cbs : list Callback) :
  (forall c, callback_eqb c c = true) ->
  merge (merge p cbs) cbs = merge p cbs.
Proof.
  intro Hrefl. unfold _merge_callbacks.
  destruct (trainer p) as [tr|] eqn:Et.
  - destruct (callbacks tr) as [xs|] eqn:Ec; cbn [trainer callbacks log].
    + now rewrite append_missing_twice.
    + rewrite append_missing_present; [reflexivity|].
      intros c Hc. apply existsb_exists. exists c. split; [exact Hc | apply Hrefl].
  - now rewrite Et.
Qed.

Section Decided.

Hypothesis callback_eqb_eq : forall a b, callback_eqb a b = true <-> a = b.

Lemma not_in_spec (c : Callback) (xs : list Callback) :
  not_in callback_eqb c xs = true <-> ~ In c xs.
Proof.
  unfold not_in. rewrite negb_true_iff. split.
  - intros H Hin. assert (existsb (fun x => callback_eqb c x) xs = true); [|congruence].
    apply existsb_exists. exists c. split; [exact Hin | now apply callback_eqb_eq].
  - intro H. destruct (existsb (fun x => callback_eqb c x) xs) eqn:E; [|reflexivity].
    apply existsb_exists in E as (x & Hx & Heq). apply callback_eqb_eq in Heq. now subst.
Qed.

Lemma callback_eq_dec (a b : Callback) : a = b \/ a <> b.
Proof.
  destruct (callback_eqb a b) eqn:E.
  - left. now apply callback_eqb_eq.
  - right. intro H. apply callback_eqb_eq in H. congruence.
Qed.

Lemma append_missing_spec (cbs xs : list Callback) :
  exists added,
    missing xs cbs = xs ++ added /\ NoDup added /\
    forall c, In c added <-> In c cbs /\ ~ In c xs.
Proof.
  revert xs; induction cbs as [|c0 cbs IH]; intro xs.
  - exists []. rewrite app_nil_r. split; [reflexivity|]. split; [constructor|].
    intro c. cbn. tauto.
  - rewrite append_missing_cons. destruct (not_in callback_eqb c0 xs) eqn:E.
    + apply not_in_spec in E.
      destruct (IH (xs ++ [c0])) as (added & -> & Hnd & Hiff).
      exists (c0 :: added). rewrite <- app_assoc. split; [reflexivity|]. split.
      * constructor; [|exact Hnd]. intro Hin. apply Hiff in Hin as (_ & Hn).
        apply Hn, in_or_app. right. now left.
      * intro c. cbn. rewrite Hiff, in_app_iff. cbn.
        destruct (callback_eq_dec c0 c) as [->|Hne]; intuition congruence.
    + destruct (IH xs) as (added & -> & Hnd & Hiff).
      exists added. split; [reflexivity|]. split; [exact Hnd|].
      intro c. rewrite Hiff. cbn [In]. split; [tauto|].
      intros ([<-|Hin] & Hn); [|tauto].
      exfalso. apply not_in_spec in Hn. congruence.
Qed.

Lemma callback_in_dec (c : Callback) (l : list Callback) : In c l \/ ~ In c l.
Proof.
  induction l as [|a l IH]; [right; intros []|].
  destruct (callback_eq_dec a c) as [->|Hne]; [left; now left|].
  destruct IH as [Hin|Hn]; [left; now right|].
  right. intros [H|H]; auto.
Qed.

(** Merging two lists of callbacks in either order gives the same
    callbacks after those the trainer had. *)
Lemma append_missing_commute (xs a b : list Callback) :
  exists added added',
    missing (missing xs a) b = xs ++ added /\
    missing (missing xs b) a = xs ++ added' /\
    Permutation added added'.
Proof.
  destruct (append_missing_spec a xs) as (a1 & -> & Hna1 & Ha1).
  destruct (append_missing_spec b (xs ++ a1)) as (a2 & -> & Hna2 & Ha2).
  destruct (append_missing_spec b xs) as (b1 & -> & Hnb1 & Hb1).
  destruct (append_missing_spec a (xs ++ b1)) as (b2 & -> & Hnb2 & Hb2).
  exists (a1 ++ a2), (b1 ++ b2). rewrite <- !app_assoc. split; [reflexivity|].
  split; [reflexivity|].
  assert (Hmem : forall u v u1 v2 : list Callback,
             (forall c, In c u1 <-> In c u /\ ~ In c xs) ->
             (forall c, In c v2 <-> In c v /\ ~ In c (xs ++ u1)) ->
             forall c, In c (u1 ++ v2) <-> (In c u \/ In c v) /\ ~ In c xs).
  { intros u v u1 v2 H1 H2 c. rewrite in_app_iff, H1, H2, in_app_iff, H1.
    destruct (callback_in_dec c u); tauto. }
  assert (Hnd : forall u1 v2 : list Callback,
             NoDup u1 -> NoDup v2 -> (forall c, In c v2 -> ~ In c u1) -> NoDup (u1 ++ v2)).
  { intros u1 v2 H1 H2 Hd. induction H1 as [|x u1 Hx H1 IH]; [exact H2|].
    cbn. constructor.
    - rewrite in_app_iff. intros [H|H]; [auto|]. apply (Hd x H). now left.
    - apply IH. intros c Hc Hin. apply (Hd c Hc). now right. }
  apply NoDup_Permutation.
  - apply Hnd; auto. intros c Hc Hin. apply Ha2 in Hc as (_ & Hn).
    apply Hn, in_or_app. now right.
  - apply Hnd; auto. intros c Hc Hin. apply Hb2 in Hc as (_ & Hn).
    apply Hn, in_or_app. now right.
  - intro c. rewrite (Hmem a b a1 a2 Ha1 Ha2), (Hmem b a b1 b2 Hb1 Hb2). tauto.
Qed.

End Decided.

(** The three cases of [_merge_callbacks]. *)
Lemma merge_callbacks_cases (p : Partial) (cbs : list Callback) :
  (forall a b, callback_eqb a b = true <-> a = b) ->
  match trainer p with
  | None => merge p cbs = p
  | Some tr =>
    log (merge p cbs) = log p /\
    match callbacks tr with
    | None => trainer (merge p cbs) = Some {| callbacks := Some cbs |}
    | Some xs =>
      exists added,
        trainer (merge p cbs) = Some {| callbacks := Some (xs ++ added) |} /\
        NoDup added /\
        forall c, In c added <-> In c cbs /\ ~ In c xs
    end
  end.
Proof.
  intro Heq. unfold _merge_callbacks.
  destruct (trainer p) as [tr|]; [|reflexivity].
  destruct (callbacks tr) as [xs|]; cbn [trainer log]; (split; [reflexivity|]).
  - destruct (append_missing_spec Heq cbs xs) as (added & -> & Hnd & Hiff).
    exists added. auto.
  - reflexivity.
Qed.

(** [X20]  What [_merge_callbacks] does to a task, when [==] on
    callback configurations decides equality.  A task without trainer
    is left as it is.  A trainer without callbacks gets the given
    list.  A trainer with callbacks keeps them, in place, and gets at
    the end each given callback it does not have yet, once.  Nothing
    but the trainer's callbacks changes. *)
Theorem merge_callbacks_adds_missing (p : Partial) (cbs : list Callback) :
  (forall a b, callback_eqb a b = true <-> a = b) ->
  match trainer p with
  | None => merge p cbs = p
  | Some tr =>
    log (merge p cbs) = log p /\
    match callbacks tr with
    | None => trainer (merge p cbs) = Some {| callbacks := Some cbs |}
    | Some xs =>
      exists added,
        trainer (merge p cbs) = Some {| callbacks := Some (xs ++ added) |} /\
        NoDup added /\
        forall c, In c added <-> In c cbs /\ ~ In c xs
    end
  end.
Proof. exact (merge_callbacks_cases p cbs). Qed.

(** [X21]  Setting up the preemption plugin a second time changes
    neither the task nor the executor, and logs what the first time
    logged; [==] on callback configurations need only be reflexive. *)
Theorem preemption_setup_twice (self : PreemptionPlugin Callback) (task : Task)
        (executor : Executor) (task' : Task) (executor' : Executor) (logs : list log_record) :
  (forall c, callback_eqb c c = true) ->
  preemption_setup callback_eqb self task executor = (task', executor', logs) ->
  preemption_setup callback_eqb self task' executor' = (task', executor', logs).
Proof.
  intros Hrefl H. unfold preemption_setup in *.
  destruct task as [s|p].
  - injection H as <- <- <-. reflexivity.
  - destruct (is_slurm executor) eqn:Es; injection H as <- <- <-; cbn [is_slurm set_signal].
    + rewrite Es, merge_callbacks_twice by exact Hrefl. reflexivity.
    + rewrite Es, merge_callbacks_twice by exact Hrefl. reflexivity.
Qed.

(** [X22]  [NsysPlugin.setup] and the launcher.  Without a launcher
    the setup fails with an [AttributeError].  With one, the launcher
    afterwards profiles with nsys and traces a non-empty list of
    events: the plugin's own when it has some, [nvtx] and [cuda] when
    it has none or an empty list.  Signal and environment of the
    executor stay, and a script is left as it is though its executor
    is set up all the same. *)
Theorem nsys_setup_launcher (self : NsysPlugin) (task : Task) (executor : Executor) :
  match nsys_setup callback_eqb nsys_callback self task executor with
  | Raise e => e = AttributeError /\ launcher executor = None
  | Ok (task', executor') =>
    launcher executor <> None /\
    (exists trace,
       launcher executor' = Some {| nsys_profile := true; nsys_trace := trace |} /\
       trace <> [] /\
       match nsys_trace_arg self with
       | Some (t :: r) => trace = t :: r
       | _ => trace = ["nvtx"; "cuda"]%string
       end) /\
    signal executor' = signal executor /\
    env_vars executor' = env_vars executor /\
    is_slurm executor' = is_slurm executor /\
    (forall s, task = TaskScript Callback Logger Yaml s -> task' = task)
  end.
Proof.
  unfold nsys_setup. destruct (launcher executor) as [l|] eqn:El; [|auto].
  split; [discriminate|]. split.
  - eexists. split; [reflexivity|].
    destruct (nsys_trace_arg self) as [[|t r]|]; cbn; split; (discriminate || reflexivity).
  - repeat split. intros s ->. reflexivity.
Qed.

(** [X23]  [NsysPlugin.setup] and the task.  After a setup that
    returns, the trainer of a partial task has the nsys callback among
    its callbacks, built from the plugin's start and end step and a
    list of ranks that is never empty: the plugin's own, or rank 0
    when it has none or an empty list.  The callbacks the trainer had
    are all still there. *)
Theorem nsys_setup_callback (self : NsysPlugin) (p : Partial) (tr : Trainer Callback)
        (executor : Executor) (task' : Task) (executor' : Executor) :
  (forall a b, callback_eqb a b = true <-> a = b) ->
  trainer p = Some tr ->
  nsys_setup callback_eqb nsys_callback self (TaskPartial Script p) executor
  = Ok (task', executor') ->
  exists p' cbs rks,
    task' = TaskPartial Script p' /\
    trainer p' = Some {| callbacks := Some cbs |} /\
    log p' = log p /\
    In (nsys_callback (start_step self) (end_step self) rks) cbs /\
    rks <> [] /\
    match ranks self with
    | Some (r :: rs) => rks = r :: rs
    | _ => rks = [0]
    end /\
    (forall xs c, callbacks tr = Some xs -> In c xs -> In c cbs).
Proof.
  intros Heq Ht H. unfold nsys_setup in H.
  destruct (launcher executor) as [l|]; [|discriminate].
  injection H as <- <-.
  set (rks := or_default (ranks self) [0]).
  set (cb := nsys_callback (start_step self) (end_step self) rks).
  pose proof (merge_callbacks_cases p [cb] Heq) as Hm. rewrite Ht in Hm.
  destruct Hm as (Hlog & Hm).
  assert (Hrk : rks <> [] /\ match ranks self with
                              | Some (r :: rs) => rks = r :: rs
                              | _ => rks = [0]
                              end).
  { unfold rks. destruct (ranks self) as [[|r rs]|]; cbn; split; (discriminate || reflexivity). }
  destruct Hrk as (Hrk1 & Hrk2).
  destruct (callbacks tr) as [xs|] eqn:Ec.
  - destruct Hm as (added & Hm & _ & Hiff).
    exists (merge p [cb]), (xs ++ added), rks.
    repeat match goal with |- _ /\ _ => split end; auto.
    + apply in_or_app. destruct (callback_in_dec Heq cb xs) as [Hin|Hn]; [now left|].
      right. apply Hiff. split; [now left | exact Hn].
    + intros xs' c Hxs Hin. injection Hxs as <-. apply in_or_app. now left.
  - exists (merge p [cb]), [cb], rks.
    repeat match goal with |- _ /\ _ => split end; auto.
    + now left.
    + intros xs c Hxs. discriminate.
Qed.

(** [X24]  [WandbPlugin.setup] on a partial task.  Without
    [WANDB_API_KEY] in the environment, task and executor are left as
    they are and one warning is logged.  With it, the executor gets
    the key under that name and keeps its other environment variables,
    nothing is logged, the trainer is untouched, and a task whose
    [log] has a [wandb] attribute gets the logger of [logger_fn]
    there, with the experiment in its [config] exactly when
    [log_task_config] is set. *)
Theorem wandb_setup_env (self : WandbPlugin Logger Yaml) (environ : dict string) (p : Partial)
        (executor : Executor) (task' : Task) (executor' : Executor) (logs : list log_record) :
  wandb_setup serialize join_name self environ (TaskPartial Script p) executor
  = (task', executor', logs) ->
  match dict_get environ "WANDB_API_KEY" with
  | None =>
    task' = TaskPartial Script p /\ executor' = executor /\ exists msg, logs = [Warning msg]
  | Some key =>
    dict_get (env_vars executor') "WANDB_API_KEY" = Some key /\
    (forall k, k <> "WANDB_API_KEY"%string ->
       dict_get (env_vars executor') k = dict_get (env_vars executor) k) /\
    signal executor' = signal executor /\
    launcher executor' = launcher executor /\
    logs = [] /\
    exists p',
      task' = TaskPartial Script p' /\ trainer p' = trainer p /\
      match log p with
      | Some {| wandb := Some _ |} =>
        exists w,
          log p' = Some {| wandb := Some (Some w) |} /\
          wandb_logger w = wandb_logger (logger_fn self (name self)) /\
          if log_task_config self
          then exists cfg, wandb_config w = Some cfg /\
                 exp_task_name (pc_experiment cfg) = name self /\
                 exp_local_directory (pc_experiment cfg) = job_dir executor /\
                 (exp_remote_directory (pc_experiment cfg) = None <-> is_slurm executor = false)
          else w = logger_fn self (name self)
      | _ => p' = p
      end
  end.
Proof.
  unfold wandb_setup. intro H.
  destruct (dict_get environ "WANDB_API_KEY") as [key|].
  2:{ injection H as <- <- <-. eauto. }
  assert (Henv : dict_get (dict_set (env_vars executor) "WANDB_API_KEY" key) "WANDB_API_KEY"
                 = Some key /\
                 forall k, k <> "WANDB_API_KEY"%string ->
                   dict_get (dict_set (env_vars executor) "WANDB_API_KEY" key) k
                   = dict_get (env_vars executor) k).
  { split; [apply dict_get_set_same|]. intros k Hk. now apply dict_get_set_other. }
  destruct Henv as (He1 & He2).
  destruct (log p) as [[[w0|]]|] eqn:El.
  - destruct (log_task_config self) eqn:Ec; injection H as <- <- <-;
      cbn [env_vars set_env_var signal launcher];
      (split; [exact He1|]); (split; [exact He2|]); repeat (split; [reflexivity|]);
      eexists; (split; [reflexivity|]); (split; [reflexivity|]);
      eexists; (split; [reflexivity|]); (split; [reflexivity|]).
    + eexists. split; [reflexivity|]. cbn. repeat split.
      * destruct (is_slurm executor); [discriminate | reflexivity].
      * intros ->. reflexivity.
    + reflexivity.
  - injection H as <- <- <-. cbn [env_vars set_env_var signal launcher].
    split; [exact He1|]. split; [exact He2|]. repeat (split; [reflexivity|]).
    exists p. auto.
  - injection H as <- <- <-. cbn [env_vars set_env_var signal launcher].
    split; [exact He1|]. split; [exact He2|]. repeat (split; [reflexivity|]).
    exists p. auto.
Qed.

(** [X25]  The preemption and the nsys plugin can be set up in
    either order on a task whose trainer has callbacks: the executor
    and the log are the same, and the trainer ends with the callbacks
    it had, in place, followed by the same new callbacks in some
    order. *)
Theorem preemption_and_nsys_commute (pre : PreemptionPlugin Callback) (nsys : NsysPlugin)
        (p : Partial) (tr : Trainer Callback) (xs : list Callback) (executor : Executor)
        (t1 t2 t3 t4 : Task) (e1 e2 e3 e4 : Executor) (l1 l4 : list log_record) :
  (forall a b, callback_eqb a b = true <-> a = b) ->
  trainer p = Some tr -> callbacks tr = Some xs ->
  preemption_setup callback_eqb pre (TaskPartial Script p) executor = (t1, e1, l1) ->
  nsys_setup callback_eqb nsys_callback nsys t1 e1 = Ok (t2, e2) ->
  nsys_setup callback_eqb nsys_callback nsys (TaskPartial Script p) executor = Ok (t3, e3) ->
  preemption_setup callback_eqb pre t3 e3 = (t4, e4, l4) ->
  e2 = e4 /\ l1 = l4 /\
  exists p2 p4 added added',
    t2 = TaskPartial Script p2 /\ t4 = TaskPartial Script p4 /\
    trainer p2 = Some {| callbacks := Some (xs ++ added) |} /\
    trainer p4 = Some {| callbacks := Some (xs ++ added') |} /\
    log p2 = log p4 /\
    Permutation added added'.
Proof.
  intros Heq Ht Hc H1 H2 H3 H4.
  unfold preemption_setup in H1. unfold nsys_setup in H3.
  destruct (launcher executor) as [l|] eqn:El; [|discriminate].
  injection H3 as <- <-.
  unfold preemption_setup in H4. cbn [is_slurm set_launcher] in H4.
  set (cb := nsys_callback (start_step nsys) (end_step nsys) (or_default (ranks nsys) [0])) in *.
  destruct (append_missing_commute Heq xs (preemption_callbacks pre) [cb])
    as (added & added' & Ha & Hb & Hperm).
  assert (Hm : forall a b : list Callback,
             merge (merge p a) b
             = {| trainer := Some {| callbacks := Some (missing (missing xs a) b) |};
                  log := log p |}).
  { intros a b. unfold _merge_callbacks. rewrite Ht, Hc. reflexivity. }
  destruct (is_slurm executor) eqn:Es.
  - injection H1 as <- <- <-. injection H4 as <- <- <-.
    unfold nsys_setup in H2. cbn [launcher set_signal] in H2. rewrite El in H2.
    injection H2 as <- <-. fold cb.
    split; [reflexivity|]. split; [reflexivity|].
    eexists _, _, added, added'. split; [reflexivity|]. split; [reflexivity|].
    rewrite !Hm, Ha, Hb. cbn [trainer log]. auto.
  - injection H1 as <- <- <-. injection H4 as <- <- <-.
    unfold nsys_setup in H2. rewrite El in H2.
    injection H2 as <- <-. fold cb.
    split; [reflexivity|]. split; [reflexivity|].
    eexists _, _, added, added'. split; [reflexivity|]. split; [reflexivity|].
    rewrite !Hm, Ha, Hb. cbn [trainer log]. auto.
Qed.

End PluginFacts.

(** The plugins on a Slurm executor and a trainer with one callback. *)
Lemma merge_callbacks_adds_missing_witness :
  exists added,
    Plugins.trainer
      (Plugins._merge_callbacks String.eqb
         {| Plugins.trainer := Some {| Plugins.callbacks := Some ["A"; "B"]%string |};
            Plugins.log := @None (Plugins.Log string (list string)) |}
         ["B"; "C"; "C"]%string)
    = Some {| Plugins.callbacks := Some (["A"; "B"]%string ++ added) |} /\
    NoDup added /\
    forall c, In c added <-> In c ["B"; "C"; "C"]%string /\ ~ In c ["A"; "B"]%string.
Proof.
  exact (proj2 (merge_callbacks_adds_missing String.eqb
                  {| Plugins.trainer := Some {| Plugins.callbacks := Some ["A"; "B"]%string |};
                     Plugins.log := @None (Plugins.Log string (list string)) |}
                  ["B"; "C"; "C"]%string String.eqb_eq)).
Defined.

Lemma preemption_setup_twice_witness :
  exists task' executor' logs,
    Plugins.preemption_setup String.eqb DemoPlugins.preemption
      (DemoPlugins.task (Some ["A"]%string)) DemoPlugins.slurm = (task', executor', logs) /\
    Plugins.signal executor' = "TERM@300"%string /\
    Plugins.preemption_setup String.eqb DemoPlugins.preemption task' executor'
    = (task', executor', logs).
Proof.
  destruct (Plugins.preemption_setup String.eqb DemoPlugins.preemption
              (DemoPlugins.task (Some ["A"]%string)) DemoPlugins.slurm)
    as [[task' executor'] logs] eqn:E.
  exists task', executor', logs. split; [reflexivity|]. split.
  - vm_compute in E. injection E as <- <- <-. reflexivity.
  - exact (preemption_setup_twice String.eqb DemoPlugins.preemption
             (DemoPlugins.task (Some ["A"]%string)) DemoPlugins.slurm String.eqb_refl E).
Defined.

Lemma nsys_setup_callback_witness :
  exists task' executor' p' cbs,
    Plugins.nsys_setup String.eqb DemoPlugins.nsys_callback DemoPlugins.nsys
      (DemoPlugins.task (Some ["A"]%string)) DemoPlugins.slurm = Ok (task', executor') /\
    task' = Plugins.TaskPartial unit p' /\
    Plugins.trainer p' = Some {| Plugins.callbacks := Some cbs |} /\
    In (DemoPlugins.nsys_callback 10 20 [0]) cbs /\ In "A"%string cbs.
Proof.
  destruct (Plugins.nsys_setup String.eqb DemoPlugins.nsys_callback DemoPlugins.nsys
              (DemoPlugins.task (Some ["A"]%string)) DemoPlugins.slurm)
    as [[task' executor']|e] eqn:E; [|vm_compute in E; discriminate].
  destruct (nsys_setup_callback String.eqb DemoPlugins.nsys_callback DemoPlugins.nsys
              (DemoPlugins.partial (Some ["A"]%string)) DemoPlugins.slurm
              String.eqb_eq eq_refl E)
    as (p' & cbs & rks & Ht & Htr & _ & Hin & _ & Hrk & Hold).
  cbn in Hrk. subst rks.
  exists task', executor', p', cbs. repeat split; auto.
  apply (Hold ["A"%string] "A"%string eq_refl). now left.
Defined.

Lemma wandb_setup_env_witness :
  exists task' executor' logs,
    Plugins.wandb_setup DemoPlugins.serialize DemoPlugins.join_name DemoPlugins.wandb_plugin
      [("WANDB_API_KEY", "k1")]%string (DemoPlugins.task (Some ["A"]%string)) DemoPlugins.slurm
    = (task', executor', logs) /\
    dict_get (Plugins.env_vars executor') "WANDB_API_KEY" = Some "k1"%string /\
    dict_get (Plugins.env_vars executor') "HOME" = Some "/home/u"%string /\
    logs = [].
Proof.
  destruct (Plugins.wandb_setup DemoPlugins.serialize DemoPlugins.join_name
              DemoPlugins.wandb_plugin [("WANDB_API_KEY", "k1")]%string
              (DemoPlugins.task (Some ["A"]%string)) DemoPlugins.slurm)
    as [[task' executor'] logs] eqn:E.
  pose proof (wandb_setup_env DemoPlugins.serialize DemoPlugins.join_name
                DemoPlugins.wandb_plugin [("WANDB_API_KEY", "k1")]%string
                (DemoPlugins.partial (Some ["A"]%string)) DemoPlugins.slurm E) as H.
  cbn [dict_get String.eqb Ascii.eqb Bool.eqb] in H.
  destruct H as (H1 & H2 & _ & _ & H3 & _).
  exists task', executor', logs. split; [reflexivity|]. split; [exact H1|].
  split; [|exact H3]. rewrite H2 by discriminate. reflexivity.
Defined.

Lemma preemption_and_nsys_commute_witness :
  exists t1 e1 l1 t2 e2 t3 e3 t4 e4 l4,
    Plugins.preemption_setup String.eqb DemoPlugins.preemption
      (DemoPlugins.task (Some ["A"]%string)) DemoPlugins.slurm = (t1, e1, l1) /\
    Plugins.nsys_setup String.eqb DemoPlugins.nsys_callback DemoPlugins.nsys t1 e1
    = Ok (t2, e2) /\
    Plugins.nsys_setup String.eqb DemoPlugins.nsys_callback DemoPlugins.nsys
      (DemoPlugins.task (Some ["A"]%string)) DemoPlugins.slurm = Ok (t3, e3) /\
    Plugins.preemption_setup String.eqb DemoPlugins.preemption t3 e3 = (t4, e4, l4) /\
    e2 = e4 /\ l1 = l4.
Proof.
  destruct (Plugins.preemption_setup String.eqb DemoPlugins.preemption
              (DemoPlugins.task (Some ["A"]%string)) DemoPlugins.slurm)
    as [[t1 e1] l1] eqn:E1.
  destruct (Plugins.nsys_setup String.eqb DemoPlugins.nsys_callback DemoPlugins.nsys t1 e1)
    as [[t2 e2]|e] eqn:E2;
    [|vm_compute in E1; injection E1 as <- <- <-; vm_compute in E2; discriminate].
  destruct (Plugins.nsys_setup String.eqb DemoPlugins.nsys_callback DemoPlugins.nsys
              (DemoPlugins.task (Some ["A"]%string)) DemoPlugins.slurm)
    as [[t3 e3]|e] eqn:E3; [|vm_compute in E3; discriminate].
  destruct (Plugins.preemption_setup String.eqb DemoPlugins.preemption t3 e3)
    as [[t4 e4] l4] eqn:E4.
  destruct (preemption_and_nsys_commute String.eqb DemoPlugins.nsys_callback
              DemoPlugins.preemption DemoPlugins.nsys
              (DemoPlugins.partial (Some ["A"]%string)) DemoPlugins.slurm
              String.eqb_eq eq_refl eq_refl E1 E2 E3 E4) as (He & Hl & _).
  exists t1, e1, l1, t2, e2, t3, e3, t4, e4, l4. repeat split; auto.
Defined.
